(** * cifar10.py: the DenseNet graph builder, its loss and its training step

    A shallow embedding of [src/cifar10.py].  The Python module builds a
    TensorFlow 1.x graph: every function of the module takes symbolic
    tensors, adds operations, variables and collection entries to the
    default graph, and returns new symbolic tensors.  We model

    - a symbolic tensor as a tree of operations that carries its static
      dtype and shape (what [Tensor.get_shape()] returns);
    - the default graph as a record of the collections that the module
      reads (the trainable variables, the regularization losses, the
      update operations and its own ['losses']) and of the number of
      variables created so far, threaded through a state-and-exception
      monad (a TensorFlow shape error is a Python exception raised while
      the graph is built); the names of the operations, the variable
      scopes and the collections that TensorFlow keeps for itself are
      not part of it;
    - one [session.run(train_op)] as the execution of the operations the
      train op depends on, in any order compatible with the data and
      control dependencies that [train] sets up.

    The values of the variables, of the losses and of the gradients are
    idealised as rationals ([Qc]); their rounding is outside the model,
    and so are the random initial values of the variables.  The number
    of epochs that the learning rate is read from is the float64
    quotient that the runtime computes, a parameter of the model. *)

From Stdlib Require Import ZArith QArith Qcanon Ascii String Sorted.
From stdpp Require Import numbers strings gmap fin_maps list.

Set Warnings "-register-all".
Close Scope Qc_scope.
Close Scope Q_scope.
Open Scope Z_scope.

(** ** Python exceptions and the graph-building monad *)

Inductive exception : Type :=
| ValueError
| TypeError
| IndexError
| ZeroDivisionError
| AssertionError.

Inductive result (A : Type) : Type :=
| Ok (a : A)
| Raise (e : exception).

Arguments Ok {A} a.
Arguments Raise {A} e.

(** ** Command-line flags ([tf.app.flags.FLAGS]) *)

Record Flags : Type := {
  batch_size : Z;
  data_dir : string;
  use_fp16 : bool;
  bn_momentum : Qc;
  wd : Qc;
  depth : Z;
  growth_rate : Z;
  dropout_rate : Qc;
  lr_boundaries : string;
  lr_values : string
}.

(** The defaults of the [DEFINE_*] calls. *)
Definition default_flags : Flags := {|
  batch_size := 128;
  data_dir := "./cifar10_data";
  use_fp16 := false;
  bn_momentum := Q2Qc 0.99;
  wd := Q2Qc 0.004;
  depth := 40;
  growth_rate := 12;
  dropout_rate := Q2Qc 0.2;
  lr_boundaries := "150,225";
  lr_values := "0.1,0.01,0.001"
|}.

(** Modelled from the spec: the constants of the module [cifar10_input],
    which is not among the sources.  The spec fixes [NUM_CLASSES = 10] and
    images of 32x32x3. *)
Definition NUM_CLASSES : Z := 10.
Definition IMAGE_SIZE : Z := 32.

(** Constants describing the training process. *)
Definition MOVING_AVERAGE_DECAY : Qc := Q2Qc 0.9999.
Definition NUM_EPOCHS_PER_DECAY : Qc := Q2Qc 100.0.
Definition LEARNING_RATE_DECAY_FACTOR : Qc := Q2Qc 0.1.
Definition INITIAL_LEARNING_RATE : Qc := Q2Qc 1.0.

(** ** Symbolic tensors *)

Inductive dtype : Type :=
| float16 | float32 | float64
| int8 | int16 | int32 | int64
| uint8 | uint16.

#[global] Instance dtype_eq_dec : EqDecision dtype.
Proof. solve_decision. Defined.

Inductive operation : Type :=
| Conv2D (filters kernel_size strides : Z)      (* padding SAME, no bias *)
| BatchNormalization (momentum : Qc) (training : bool)
| Relu
| Dropout (rate : Qc)
| Identity
| ConcatV2 (axis : Z)
| AvgPool (pool_size strides : Z)               (* padding VALID *)
| Mean (axes : list Z)
| Dense (units : Z) (use_bias : bool)
| Cast
| L2Regularizer (scale : Qc)
| AssignMovingAvg (decay : Qc)
| SparseSoftmaxCrossEntropyWithLogits
| AddN.

Inductive tensor : Type :=
| Placeholder (name : string) (dt : dtype) (shape : list Z)
| VariableV2 (id : nat) (dt : dtype) (shape : list Z)
| Op (o : operation) (inputs : list tensor) (dt : dtype) (shape : list Z).

Definition get_shape (t : tensor) : list Z :=
  match t with
  | Placeholder _ _ s => s
  | VariableV2 _ _ s => s
  | Op _ _ _ s => s
  end.

Definition get_dtype_of (t : tensor) : dtype :=
  match t with
  | Placeholder _ d _ => d
  | VariableV2 _ d _ => d
  | Op _ _ d _ => d
  end.

(** ** The default graph *)

Definition REGULARIZATION_LOSSES : string := "regularization_losses".
Definition TRAINABLE_VARIABLES : string := "trainable_variables".
Definition UPDATE_OPS : string := "update_ops".

Record graph : Type := {
  collections : gmap string (list tensor);
  num_variables : nat
}.

Definition empty_graph : graph :=
  {| collections := ∅; num_variables := 0 |}.

Definition M (A : Type) : Type := graph -> result (A * graph).

Definition ret {A : Type} (a : A) : M A := fun g => Ok (a, g).

Definition raise {A : Type} (e : exception) : M A := fun _ => Raise e.

Definition bind {A B : Type} (m : M A) (k : A -> M B) : M B :=
  fun g =>
    match m g with
    | Ok (a, g') => k a g'
    | Raise e => Raise e
    end.

Notation "x <- m ;; k" := (bind m (fun x => k))
  (at level 100, m at next level, right associativity).
Notation "m ;;; k" := (bind m (fun _ => k))
  (at level 100, right associativity).

(** [t.get_shape()[i].value]: an [IndexError] when the rank is too small. *)
Definition dim (t : tensor) (i : nat) : M Z :=
  match get_shape t !! i with
  | Some d => ret d
  | None => raise IndexError
  end.

(** ** The TensorFlow operations the module calls

    Each function adds one layer to the graph: it checks the static shape
    of its input as TensorFlow's shape inference does (raising
    [ValueError] where TensorFlow refuses the graph), creates the layer's
    variables and collection entries, and returns the output tensor with
    its static shape. *)

Module tf.

(** [tf.get_collection(name)]: a copy of the list, empty when absent. *)
Definition get_collection (name : string) : M (list tensor) :=
  fun g => Ok (default [] (collections g !! name), g).

(** [tf.get_collection_ref(name).extend(ts)]: the list itself is changed. *)
Definition collection_extend (name : string) (ts : list tensor) : M unit :=
  fun g =>
    Ok (tt, {| collections :=
                 <[name := default [] (collections g !! name) ++ ts]>
                   (collections g);
               num_variables := num_variables g |}).

(** [tf.get_collection_ref(name).append(t)] and [tf.add_to_collection]. *)
Definition collection_append (name : string) (t : tensor) : M unit :=
  collection_extend name [t].

Definition trainable_variables : M (list tensor) :=
  get_collection TRAINABLE_VARIABLES.

(** A fresh variable of the layer being built; a trainable one joins
    the collection of trainable variables.  (The collection of all the
    variables, which the module never reads, is not kept, and neither is
    the name of the variable: the model numbers the variables.) *)
Definition get_variable (dt : dtype) (shape : list Z) (trainable : bool)
  : M tensor :=
  fun g =>
    let v := VariableV2 (num_variables g) dt shape in
    let g' := {| collections := collections g;
                 num_variables := S (num_variables g) |} in
    if trainable then
      match collection_append TRAINABLE_VARIABLES v g' with
      | Ok (_, g'') => Ok (v, g'')
      | Raise e => Raise e
      end
    else Ok (v, g').

(** [tf.contrib.layers.l2_regularizer(scale)] applied to a weight by the
    layer that owns it: a negative scale is refused, a scale of zero
    disables the regularizer, and otherwise the penalty
    [scale * sum(w ** 2) / 2] joins [REGULARIZATION_LOSSES]. *)
Definition apply_l2_regularizer (scale : Qc) (w : tensor) : M unit :=
  if bool_decide (scale < 0)%Qc then raise ValueError
  else if bool_decide (scale = 0%Qc) then ret tt
  else collection_append REGULARIZATION_LOSSES
         (Op (L2Regularizer scale) [w] (get_dtype_of w) []).

(** Output size of a SAME-padded window: [ceil(n / stride)]. *)
Definition same_output_size (n stride : Z) : Z := (n + stride - 1) / stride.

(** Output size of a VALID window: TensorFlow refuses a window larger
    than the input ("Negative dimension size caused by subtracting"), and
    otherwise rounds down. *)
Definition valid_output_size (n window stride : Z) : option Z :=
  if n <? window then None else Some ((n - window) / stride + 1).

(** [tf.layers.conv2d(..., padding='SAME', use_bias=False,
    kernel_regularizer=l2_regularizer(scale))]. *)
Definition layers_conv2d (inputs : tensor) (filters kernel_size strides : Z)
    (scale : Qc) : M tensor :=
  match get_shape inputs with
  | [b; h; w; c] =>
      if (filters <? 0) || (kernel_size <=? 0) || (strides <=? 0)
      then raise ValueError
      else
        kernel <- get_variable (get_dtype_of inputs)
                    [kernel_size; kernel_size; c; filters] true ;;
        apply_l2_regularizer scale kernel ;;;
        ret (Op (Conv2D filters kernel_size strides) [inputs; kernel]
               (get_dtype_of inputs)
               [b; same_output_size h strides; same_output_size w strides;
                filters])
  | _ => raise ValueError
  end.

(** [tf.layers.batch_normalization(inputs, momentum=..., training=...)]:
    scale and offset are trainable, the moving statistics are not, and in
    training mode the two updates of the moving statistics join
    [UPDATE_OPS]. *)
Definition layers_batch_normalization (inputs : tensor) (momentum : Qc)
    (training : bool) : M tensor :=
  match last (get_shape inputs) with
  | None => raise ValueError
  | Some c =>
      let dt := get_dtype_of inputs in
      gamma <- get_variable dt [c] true ;;
      beta <- get_variable dt [c] true ;;
      moving_mean <- get_variable dt [c] false ;;
      moving_variance <- get_variable dt [c] false ;;
      (if training then
         collection_extend UPDATE_OPS
           [Op (AssignMovingAvg momentum) [moving_mean; inputs] dt [c];
            Op (AssignMovingAvg momentum) [moving_variance; inputs] dt [c]]
       else ret tt) ;;;
      ret (Op (BatchNormalization momentum training)
             [inputs; gamma; beta; moving_mean; moving_variance]
             dt (get_shape inputs))
  end.

Definition nn_relu (features : tensor) : M tensor :=
  ret (Op Relu [features] (get_dtype_of features) (get_shape features)).

(** [tf.layers.dropout(inputs, rate=..., training=...)]: in training mode
    [tf.nn.dropout] is given [keep_prob = 1 - rate], which it refuses
    outside (0, 1]; otherwise the layer is the identity. *)
Definition layers_dropout (inputs : tensor) (rate : Qc) (training : bool)
  : M tensor :=
  if training then
    if bool_decide (0 < 1 - rate)%Qc && bool_decide (1 - rate <= 1)%Qc
    then ret (Op (Dropout rate) [inputs] (get_dtype_of inputs)
                (get_shape inputs))
    else raise ValueError
  else ret (Op Identity [inputs] (get_dtype_of inputs) (get_shape inputs)).

(** [tf.concat(values, axis)]: one dtype, and shapes that agree off the
    axis. *)
Definition concat_shape (axis : nat) (s1 s2 : list Z) : option (list Z) :=
  match s1 !! axis, s2 !! axis with
  | Some d1, Some d2 =>
      if bool_decide (<[axis := 0]> s1 = <[axis := 0]> s2)
      then Some (<[axis := d1 + d2]> s1) else None
  | _, _ => None
  end.

Definition concat (values : list tensor) (axis : nat) : M tensor :=
  match values with
  | [] => raise ValueError
  | v :: vs =>
      if negb (forallb (fun t => bool_decide (get_dtype_of t = get_dtype_of v)) vs)
      then raise TypeError
      else
      match foldl (fun acc t => acc ≫= fun s => concat_shape axis s (get_shape t))
                  (Some (get_shape v)) vs with
      | Some s =>
          if bool_decide (axis < length (get_shape v))%nat
          then ret (Op (ConcatV2 (Z.of_nat axis)) values (get_dtype_of v) s)
          else raise ValueError
      | None => raise ValueError
      end
  end.

(** [tf.layers.average_pooling2d(inputs, pool_size, strides,
    padding='valid')]. *)
Definition layers_average_pooling2d (inputs : tensor) (pool_size strides : Z)
  : M tensor :=
  match get_shape inputs with
  | [b; h; w; c] =>
      match valid_output_size h pool_size strides,
            valid_output_size w pool_size strides with
      | Some h', Some w' =>
          ret (Op (AvgPool pool_size strides) [inputs] (get_dtype_of inputs)
                 [b; h'; w'; c])
      | _, _ => raise ValueError
      end
  | _ => raise ValueError
  end.

(** [tf.reduce_mean(t, axis=[1, 2])] on a tensor of rank at least 3. *)
Definition reduce_mean_1_2 (t : tensor) : M tensor :=
  match get_shape t with
  | b :: _ :: _ :: rest =>
      ret (Op (Mean [1; 2]) [t] (get_dtype_of t) (b :: rest))
  | _ => raise ValueError
  end.

(** [tf.reduce_mean(t)]: the mean of all the elements, a scalar. *)
Definition reduce_mean (t : tensor) : M tensor :=
  ret (Op (Mean []) [t] (get_dtype_of t) []).

(** [tf.layers.dense(inputs, units, use_bias=True, kernel_regularizer=...,
    bias_regularizer=...)] on an input of rank at least 2. *)
Definition layers_dense (inputs : tensor) (units : Z) (scale : Qc) : M tensor :=
  match last (get_shape inputs) with
  | Some c =>
      if (length (get_shape inputs) <? 2)%nat || (units <? 0)
      then raise ValueError
      else
        let dt := get_dtype_of inputs in
        kernel <- get_variable dt [c; units] true ;;
        apply_l2_regularizer scale kernel ;;;
        bias <- get_variable dt [units] true ;;
        apply_l2_regularizer scale bias ;;;
        ret (Op (Dense units true) [inputs; kernel; bias] dt
               (removelast (get_shape inputs) ++ [units]))
  | None => raise ValueError
  end.

Definition cast (x : tensor) (dt : dtype) : M tensor :=
  ret (Op Cast [x] dt (get_shape x)).

(** [tf.nn.sparse_softmax_cross_entropy_with_logits]: the labels have one
    dimension less than the logits, and the same leading dimensions. *)
Definition nn_sparse_softmax_cross_entropy_with_logits
    (labels logits : tensor) : M tensor :=
  match get_shape logits with
  | [] => raise ValueError
  | _ :: _ =>
      if bool_decide (get_shape labels = removelast (get_shape logits))
      then ret (Op SparseSoftmaxCrossEntropyWithLogits [labels; logits]
                  (get_dtype_of logits) (get_shape labels))
      else raise ValueError
  end.

(** [tf.add_n(inputs)]: a non-empty list of tensors of one shape. *)
Definition add_n (inputs : list tensor) : M tensor :=
  match inputs with
  | [] => raise ValueError
  | t :: ts =>
      if forallb (fun u => bool_decide (get_shape u = get_shape t)) ts
      then ret (Op AddN inputs (get_dtype_of t) (get_shape t))
      else raise ValueError
  end.

End tf.

(** ** The functions of cifar10.py that build the network *)

(** [int(a / b)] under [from __future__ import division]: the quotient
    is a float, and [int] truncates it toward zero. *)
Definition int_of_truediv (a b : Z) : Z := a ÷ b.

Section Network.

Variable FLAGS : Flags.

Definition _get_dtype : dtype :=
  if use_fp16 FLAGS then float16 else float32.

(** Modelled from the spec: [cifar10_input.distorted_inputs] and
    [cifar10_input.inputs], which are not among the sources.  The
    data-supply collaborator provides a batch of images
    [batch, H, W, 3] and one integer label per batch element.  The spec
    gives these shapes and not the dtypes; the placeholders take float32
    images and int32 labels, which only the examples rely on. *)
Definition cifar10_input_batch : tensor * tensor :=
  (Placeholder "images" float32 [batch_size FLAGS; IMAGE_SIZE; IMAGE_SIZE; 3],
   Placeholder "labels" int32 [batch_size FLAGS]).

Definition distorted_inputs : M (tensor * tensor) :=
  if bool_decide (data_dir FLAGS = EmptyString) then raise ValueError
  else
    let '(images, labels) := cifar10_input_batch in
    if use_fp16 FLAGS then
      images <- tf.cast images float16 ;;
      labels <- tf.cast labels float16 ;;
      ret (images, labels)
    else ret (images, labels).

Definition inputs (eval_data : bool) : M (tensor * tensor) :=
  if bool_decide (data_dir FLAGS = EmptyString) then raise ValueError
  else
    let '(images, labels) := cifar10_input_batch in
    if use_fp16 FLAGS then
      images <- tf.cast images float16 ;;
      labels <- tf.cast labels float16 ;;
      ret (images, labels)
    else ret (images, labels).

Definition conv2d (features : tensor) (kernel_size stride out_channel : Z)
  : M tensor :=
  tf.layers_conv2d features out_channel kernel_size stride (wd FLAGS).

Definition unit_layer (features : tensor) (out_channel : Z) (training : bool)
  : M tensor :=
  bn <- tf.layers_batch_normalization features (bn_momentum FLAGS) training ;;
  activate <- tf.nn_relu bn ;;
  conv <- conv2d activate 3 1 out_channel ;;
  drop <- tf.layers_dropout conv (dropout_rate FLAGS) training ;;
  ret drop.

(** The body of [for i in range(depth)], run [n] times. *)
Fixpoint block_loop (n : nat) (features : tensor) (growth_rate : Z)
    (training : bool) : M tensor :=
  match n with
  | O => ret features
  | S n' =>
      unit <- unit_layer features growth_rate training ;;
      features <- tf.concat [features; unit] 3 ;;
      block_loop n' features growth_rate training
  end.

(** [range(depth)] is empty for a depth that is not positive.  The
    variable scope [dense_layer<i>] of an iteration names the variables
    created in it, which the model numbers instead; what TensorFlow
    makes of a name used twice (a second block under the same scope) is
    outside the model. *)
Definition block (features : tensor) (depth growth_rate : Z) (training : bool)
  : M tensor :=
  block_loop (Z.to_nat depth) features growth_rate training.

Definition transition (features : tensor) (training : bool) : M tensor :=
  num_channel <- dim features 3 ;;
  unit <- unit_layer features num_channel training ;;
  features <- tf.layers_average_pooling2d unit 2 2 ;;
  ret features.

Definition global_average_pooling2d (features : tensor) : M tensor :=
  tf.reduce_mean_1_2 features.

Definition first_depth : Z := int_of_truediv (depth FLAGS - 4) 3.
Definition second_depth : Z := int_of_truediv (depth FLAGS - 4) 3.
Definition third_depth : Z := depth FLAGS - (4 + first_depth + second_depth).

(** [inference(images, training)].  The variable scopes name the
    variables and nothing else, and the summaries of the logits are not
    kept in the graph of the model (see [_activation_summary] below). *)
Definition inference (images : tensor) (training : bool) : M tensor :=
  conv0 <- conv2d images 3 1 16 ;;
  block1 <- block conv0 first_depth (growth_rate FLAGS) training ;;
  dense1 <- transition block1 training ;;
  block2 <- block dense1 second_depth (growth_rate FLAGS) training ;;
  dense2 <- transition block2 training ;;
  block3 <- block dense2 third_depth (growth_rate FLAGS) training ;;
  dense3 <- transition block3 training ;;
  bn <- tf.layers_batch_normalization dense3 (bn_momentum FLAGS) training ;;
  activate <- tf.nn_relu bn ;;
  last <- global_average_pooling2d activate ;;
  softmax_linear <- tf.layers_dense last NUM_CLASSES (wd FLAGS) ;;
  ret softmax_linear.

End Network.

(** ** The loss *)

(** The collection ['losses'] of the module. *)
Definition LOSSES : string := "losses".

Definition loss (logits labels : tensor) : M tensor :=
  labels <- tf.cast labels int64 ;;
  cross_entropy <-
    tf.nn_sparse_softmax_cross_entropy_with_logits labels logits ;;
  cross_entropy_mean <- tf.reduce_mean cross_entropy ;;
  regularization_losses <- tf.get_collection REGULARIZATION_LOSSES ;;
  tf.collection_extend LOSSES regularization_losses ;;;
  tf.collection_append LOSSES cross_entropy_mean ;;;
  losses <- tf.get_collection LOSSES ;;
  tf.add_n losses.

(** ** Values of label tensors and of the loss

    An element of a tensor is an integer, a finite float (given by its
    exact value) or a non-finite float. *)

Inductive elem : Type :=
| Int (z : Z)
| Float (q : Qc)
| NonFinite.

(** Width and signedness of the integer types; precision and largest
    exponent of the float types. *)
Definition int_format (dt : dtype) : option (Z * bool) :=
  match dt with
  | int8 => Some (8, true)
  | int16 => Some (16, true)
  | int32 => Some (32, true)
  | int64 => Some (64, true)
  | uint8 => Some (8, false)
  | uint16 => Some (16, false)
  | _ => None
  end.

Definition float_format (dt : dtype) : option (Z * Z) :=
  match dt with
  | float16 => Some (11, 15)
  | float32 => Some (24, 127)
  | float64 => Some (53, 1023)
  | _ => None
  end.

(** Two's complement wrap-around of an integer into [bits] bits. *)
Definition wrap (bits : Z) (signed : bool) (z : Z) : Z :=
  if signed then (z + 2 ^ (bits - 1)) mod 2 ^ bits - 2 ^ (bits - 1)
  else z mod 2 ^ bits.

(** An integer rounded to the nearest float of precision [p] (ties to
    even); beyond the largest finite float the result is infinite. *)
Definition round_int_to_float (p emax : Z) (z : Z) : elem :=
  let a := Z.abs z in
  if a <? 2 ^ p then Float (Q2Qc (inject_Z z))
  else
    let e := Z.log2 a - (p - 1) in
    let m := a / 2 ^ e in
    let r := a mod 2 ^ e in
    let half := 2 ^ (e - 1) in
    let m' := if r <? half then m
              else if half <? r then m + 1
              else if Z.even m then m else m + 1 in
    if 2 ^ (emax + 1) <=? m' * 2 ^ e then NonFinite
    else Float (Q2Qc (inject_Z (Z.sgn z * (m' * 2 ^ e)))).

(** A float truncated toward zero. *)
Definition truncate (q : Qc) : Z := Qnum (this q) ÷ Z.pos (Qden (this q)).

(** [tf.cast] on one element.  A float goes to an integer type by
    truncation, and the result is unspecified ([None]) when it does not
    fit or the float is not finite.  A float goes to a float type
    unchanged when its value is an integer that the type represents;
    the rounding of other floats is not modelled ([None]). *)
Definition cast_elem (dt : dtype) (e : elem) : option elem :=
  match int_format dt, float_format dt with
  | Some (bits, signed), _ =>
      match e with
      | Int z => Some (Int (wrap bits signed z))
      | Float q =>
          let z := truncate q in
          if bool_decide (wrap bits signed z = z) then Some (Int z) else None
      | NonFinite => None
      end
  | None, Some (p, emax) =>
      match e with
      | Int z => Some (round_int_to_float p emax z)
      | Float q =>
          if bool_decide (q = Q2Qc (inject_Z (truncate q)))
          then Some (round_int_to_float p emax (truncate q))
          else None
      | NonFinite => Some NonFinite
      end
  | None, None => None
  end.

Definition elem_to_int (e : elem) : option Z :=
  match e with
  | Int z => Some z
  | _ => None
  end.

Definition sum_Qc (l : list Qc) : Qc := foldr Qcplus (Q2Qc 0) l.

Definition mean_Qc (l : list Qc) : option Qc :=
  match l with
  | [] => None
  | _ => Some (sum_Qc l / Q2Qc (inject_Z (Z.of_nat (length l))))%Qc
  end.

Section Evaluation.

(** The values fed to the placeholders, and the values of the
    variables. *)
Variable feed : string -> option (list elem).
Variable variables : gmap nat (list Qc).

(** The numerical library's cross-entropy kernel: the per-example
    sparse softmax cross-entropy of a logits tensor (under the current
    feed and variables) against integer labels. *)
Variable xent : list Z -> tensor -> list Qc.

Fixpoint eval_elems (t : tensor) : option (list elem) :=
  match t with
  | Placeholder name _ _ => feed name
  | Op Cast [x] dt _ => eval_elems x ≫= mapM (cast_elem dt)
  | _ => None
  end.

Fixpoint eval_scalar (t : tensor) : option Qc :=
  match t with
  | Op AddN inputs _ _ =>
      (fix sum (ts : list tensor) : option Qc :=
         match ts with
         | [] => Some (Q2Qc 0)
         | u :: ts' =>
             x ← eval_scalar u; s ← sum ts'; Some (x + s)%Qc
         end) inputs
  | Op (Mean [])
       [Op SparseSoftmaxCrossEntropyWithLogits [labels; logits] _ _] _ _ =>
      es ← eval_elems labels;
      ks ← mapM elem_to_int es;
      mean_Qc (xent ks logits)
  | Op (L2Regularizer scale) [VariableV2 id _ _] _ _ =>
      w ← variables !! id;
      Some (scale * sum_Qc (map (fun x => x * x) w) / Q2Qc 2)%Qc
  | _ => None
  end.

End Evaluation.

(** ** The training graph *)

(** [s.split(sep)] for a separator of one character. *)
Fixpoint split (sep : ascii) (s : string) : list string :=
  match s with
  | EmptyString => [EmptyString]
  | String c s' =>
      if Ascii.eqb c sep then EmptyString :: split sep s'
      else
        match split sep s' with
        | [] => [String c EmptyString]
        | w :: ws => String c w :: ws
        end
  end.

(** [[f(x) for x in l]] where [f] raises [ValueError] on a malformed
    string. *)
Fixpoint parse_all (f : string -> option Qc) (l : list string) : M (list Qc) :=
  match l with
  | [] => ret []
  | x :: l' =>
      match f x with
      | None => raise ValueError
      | Some q => qs <- parse_all f l' ;; ret (q :: qs)
      end
  end.

(** The operations of the training graph, named after the Python
    variables that hold them in [train]. *)
Inductive op_name : Type :=
| lr
| loss_averages_op
| grads
| apply_gradient_op
| variables_averages_op
| update_op (k : nat)
| train_op.

#[global] Instance op_name_eq_dec : EqDecision op_name.
Proof. solve_decision. Defined.

(** The predicates of the [tf.case] that [tf.train.piecewise_constant]
    builds over its argument [x]. *)
Inductive predicate : Type :=
| LessEqual (b : Qc)                  (* x <= b *)
| Greater (b : Qc)                    (* x > b *)
| Between (low high : Qc).            (* (x > low) & (x <= high) *)

Inductive op_kind : Type :=
| PiecewiseConstant (global_step : tensor) (batch_size : Z)
    (examples_per_epoch : positive)
    (pred_fn_pairs : list (predicate * Qc)) (default : Qc)
| LossAverages (decay : Qc) (losses : list tensor)
| ComputeGradients (loss : tensor) (var_list : list tensor)
| ApplyGradients (global_step : tensor)
| VariableAverages (decay : Qc) (num_updates : tensor) (var_list : list tensor)
| Update (update : tensor)
| NoOp.

Record op_node : Type := {
  name : op_name;
  kind : op_kind;
  data_inputs : list op_name;
  control_inputs : list op_name
}.

(** Whether a tensor is computed from the variable [id]: the variables
    it does not depend on get the gradient [None]. *)
Fixpoint depends_on (id : nat) (t : tensor) : bool :=
  match t with
  | Placeholder _ _ _ => false
  | VariableV2 id' _ _ => bool_decide (id' = id)
  | Op _ inputs _ _ =>
      (fix any (ts : list tensor) : bool :=
         match ts with
         | [] => false
         | u :: ts' => depends_on id u || any ts'
         end) inputs
  end.

Definition variable_id (t : tensor) : option nat :=
  match t with
  | VariableV2 id _ _ => Some id
  | _ => None
  end.

Module tf_train.

(** The pairs of predicate and value of [tf.train.piecewise_constant]:
    [x <= boundaries[0]] with [values[0]], [x > boundaries[-1]] with
    [values[-1]], and for each [low, high, v] of
    [zip(boundaries[:-1], boundaries[1:], values[1:-1])] the predicate
    [(x > low) & (x <= high)] with [v]. *)
Definition pred_fn_pairs (b0 v0 : Qc) (boundaries values : list Qc)
  : list (predicate * Qc) :=
  (LessEqual b0, v0)
  :: (Greater (List.last boundaries b0), List.last values v0)
  :: zip_with (fun lh v => (Between lh.1 lh.2, v))
       (zip (removelast boundaries) (tail boundaries))
       (removelast (tail values)).

(** [tf.train.piecewise_constant(x, boundaries, values)] for
    [x = global_step * batch_size / examples_per_epoch]. *)
Definition piecewise_constant (global_step : tensor) (batch_size : Z)
    (examples_per_epoch : positive) (boundaries values : list Qc) : M op_kind :=
  if negb (length boundaries =? length values - 1)%nat || (length values =? 0)%nat
  then raise ValueError
  else
    match boundaries, values with
    | b0 :: _, v0 :: _ =>
        ret (PiecewiseConstant global_step batch_size examples_per_epoch
               (pred_fn_pairs b0 v0 boundaries values) v0)
    | _, _ => raise IndexError
    end.

(** [ExponentialMovingAverage(decay).apply(losses)]. *)
Definition loss_averages_apply (decay : Qc) (losses : list tensor) : op_node :=
  {| name := loss_averages_op; kind := LossAverages decay losses;
     data_inputs := []; control_inputs := [] |}.

(** [opt.compute_gradients(loss)] under [tf.control_dependencies(deps)]:
    one pair per trainable variable, and no variable to optimize is an
    error. *)
Definition compute_gradients (loss : tensor) (deps : list op_name) : M op_node :=
  var_list <- tf.trainable_variables ;;
  match var_list with
  | [] => raise ValueError
  | _ => ret {| name := grads; kind := ComputeGradients loss var_list;
                data_inputs := []; control_inputs := deps |}
  end.

(** [opt.apply_gradients(grads, global_step=global_step)] for the
    gradient-descent optimizer built on the learning rate [lr]: a list in
    which every gradient is [None] is an error. *)
Definition apply_gradients (grads_node : op_node) (global_step : tensor)
  : M op_node :=
  match kind grads_node with
  | ComputeGradients loss var_list =>
      if existsb (fun v => match variable_id v with
                           | Some id => depends_on id loss
                           | None => false
                           end) var_list
      then ret {| name := apply_gradient_op; kind := ApplyGradients global_step;
                  data_inputs := [lr; name grads_node]; control_inputs := [] |}
      else raise ValueError
  | _ => raise TypeError
  end.

(** [ExponentialMovingAverage(decay, num_updates).apply(var_list)]. *)
Definition variable_averages_apply (decay : Qc) (num_updates : tensor)
    (var_list : list tensor) : op_node :=
  {| name := variables_averages_op;
     kind := VariableAverages decay num_updates var_list;
     data_inputs := []; control_inputs := [] |}.

End tf_train.

Section Training.

Variable FLAGS : Flags.

(** The size of the training set, a constant of [cifar10_input]. *)
Variable NUM_EXAMPLES_PER_EPOCH_FOR_TRAIN : positive.

(** Python's [float(s)] and numpy's [np.array(s, dtype=np.float64)] on a
    string: [None] where they raise [ValueError]. *)
Variable float : string -> option Qc.
Variable np_float64 : string -> option Qc.

Definition _add_loss_summaries (total_loss : tensor) : M op_node :=
  losses <- tf.get_collection LOSSES ;;
  ret (tf_train.loss_averages_apply (Q2Qc 0.9) (losses ++ [total_loss])).

Definition train (total_loss global_step : tensor) : M (list op_node) :=
  (if batch_size FLAGS =? 0 then raise ZeroDivisionError else ret tt) ;;;
  lr_boundaries <- parse_all np_float64 (split ","%char (lr_boundaries FLAGS)) ;;
  lr_values <- parse_all float (split ","%char (lr_values FLAGS)) ;;
  (if (length lr_boundaries + 1 =? length lr_values)%nat then ret tt
   else raise AssertionError) ;;;
  lr_kind <- tf_train.piecewise_constant global_step (batch_size FLAGS)
               NUM_EXAMPLES_PER_EPOCH_FOR_TRAIN lr_boundaries lr_values ;;
  let lr_node := {| name := lr; kind := lr_kind;
                    data_inputs := []; control_inputs := [] |} in
  loss_averages <- _add_loss_summaries total_loss ;;
  grads_node <- tf_train.compute_gradients total_loss [name loss_averages] ;;
  apply_gradient <- tf_train.apply_gradients grads_node global_step ;;
  var_list <- tf.trainable_variables ;;
  let variables_averages :=
    tf_train.variable_averages_apply MOVING_AVERAGE_DECAY global_step
      var_list in
  update_ops <- tf.get_collection UPDATE_OPS ;;
  let update_nodes :=
    imap (fun k u => {| name := update_op k; kind := Update u;
                        data_inputs := []; control_inputs := [] |})
         update_ops in
  let train_node :=
    {| name := train_op; kind := NoOp; data_inputs := [];
       control_inputs := [name apply_gradient; name variables_averages]
                           ++ map name update_nodes |} in
  ret ([lr_node; loss_averages; grads_node; apply_gradient; variables_averages]
         ++ update_nodes ++ [train_node]).

End Training.

(** ** One training step

    [session.run(train_op)] executes every operation the train op depends
    on exactly once, each after the operations it takes as data or
    control inputs, and in no other prescribed order.  The counter of
    steps is a variable created by the caller; its integer type is the
    caller's choice, and the model keeps it unbounded. *)

Record state : Type := {
  var_values : gmap nat (list Qc);
  global_step_value : Z;
  variable_shadows : gmap nat (list Qc);
  loss_shadows : list Qc;
  lr_value : option Qc;
  grads_value : option (list (option (list Qc) * nat))
}.

Definition set_var_values (s : state) (vs : gmap nat (list Qc)) : state :=
  {| var_values := vs; global_step_value := global_step_value s;
     variable_shadows := variable_shadows s; loss_shadows := loss_shadows s;
     lr_value := lr_value s; grads_value := grads_value s |}.

Definition set_global_step (s : state) (n : Z) : state :=
  {| var_values := var_values s; global_step_value := n;
     variable_shadows := variable_shadows s; loss_shadows := loss_shadows s;
     lr_value := lr_value s; grads_value := grads_value s |}.

Definition set_variable_shadows (s : state) (sh : gmap nat (list Qc)) : state :=
  {| var_values := var_values s; global_step_value := global_step_value s;
     variable_shadows := sh; loss_shadows := loss_shadows s;
     lr_value := lr_value s; grads_value := grads_value s |}.

Definition set_loss_shadows (s : state) (sh : list Qc) : state :=
  {| var_values := var_values s; global_step_value := global_step_value s;
     variable_shadows := variable_shadows s; loss_shadows := sh;
     lr_value := lr_value s; grads_value := grads_value s |}.

Definition set_lr_value (s : state) (v : Qc) : state :=
  {| var_values := var_values s; global_step_value := global_step_value s;
     variable_shadows := variable_shadows s; loss_shadows := loss_shadows s;
     lr_value := Some v; grads_value := grads_value s |}.

Definition set_grads_value (s : state)
    (gv : list (option (list Qc) * nat)) : state :=
  {| var_values := var_values s; global_step_value := global_step_value s;
     variable_shadows := variable_shadows s; loss_shadows := loss_shadows s;
     lr_value := lr_value s; grads_value := Some gv |}.

(** What a session holds before a run: no operation has an output yet. *)
Definition fresh (s : state) : state :=
  {| var_values := var_values s; global_step_value := global_step_value s;
     variable_shadows := variable_shadows s; loss_shadows := loss_shadows s;
     lr_value := None; grads_value := None |}.

Definition holds (p : predicate) (x : Qc) : bool :=
  match p with
  | LessEqual b => bool_decide (x <= b)%Qc
  | Greater b => bool_decide (b < x)%Qc
  | Between low high => bool_decide (low < x)%Qc && bool_decide (x <= high)%Qc
  end.

(** [tf.case(pred_fn_pairs, default, exclusive=True)]: the branch of the
    one predicate that holds, the default when none does, and a failed
    assertion when more than one does. *)
Definition case (pred_fn_pairs : list (predicate * Qc)) (default : Qc)
    (x : Qc) : option Qc :=
  match filter (fun pv => holds pv.1 x = true) pred_fn_pairs with
  | [] => Some default
  | [(_, v)] => Some v
  | _ => None
  end.

(** [global_step * FLAGS.batch_size / NUM_EXAMPLES_PER_EPOCH_FOR_TRAIN],
    where [step] is the value of the counter [global_step].  The product
    is taken in the integer type of the counter, in which it wraps
    around; the true division of the two integers is a float64, the
    quotient [truediv] that the numerical library computes for them.
    (The docstring of [train] asks for an integer counter; one of
    another type does not wrap.) *)
Definition num_epoch (truediv : Z -> Z -> Qc) (global_step : tensor)
    (step batch_size : Z) (examples_per_epoch : positive) : Qc :=
  match int_format (get_dtype_of global_step) with
  | Some (bits, signed) =>
      truediv (wrap bits signed (step * batch_size)) (Z.pos examples_per_epoch)
  | None => truediv (step * batch_size) (Z.pos examples_per_epoch)
  end.

(** [assign_moving_average]: [shadow -= (shadow - value) * (1 - decay)]. *)
Definition moving_average (decay : Qc) (shadow value : list Qc) : list Qc :=
  zip_with (fun s x => s - (s - x) * (1 - decay))%Qc shadow value.

(** The decay of [ExponentialMovingAverage(decay, num_updates)]:
    [min(decay, (1 + num_updates) / (10 + num_updates))]. *)
Definition effective_decay (decay : Qc) (num_updates : Z) : Qc :=
  let d := (Q2Qc (inject_Z (1 + num_updates))
            / Q2Qc (inject_Z (10 + num_updates)))%Qc in
  if bool_decide (decay <= d)%Qc then decay else d.

(** [var -= lr * grad]. *)
Definition gradient_descent (learning_rate : Qc) (var grad : list Qc)
  : list Qc :=
  zip_with (fun p d => p - learning_rate * d)%Qc var grad.

Definition apply_gradient_descent (learning_rate : Qc)
    (grads_and_vars : list (option (list Qc) * nat))
    (vars : gmap nat (list Qc)) : option (gmap nat (list Qc)) :=
  foldl (fun acc gv =>
           vs ← acc;
           match gv.1 with
           | None => Some vs
           | Some g =>
               w ← vs !! gv.2;
               Some (<[gv.2 := gradient_descent learning_rate w g]> vs)
           end)
        (Some vars) grads_and_vars.

Definition apply_variable_averages (decay : Qc) (var_list : list tensor)
    (vars shadows : gmap nat (list Qc)) : option (gmap nat (list Qc)) :=
  foldl (fun acc v =>
           sh ← acc;
           id ← variable_id v;
           w ← vars !! id;
           s ← sh !! id;
           Some (<[id := moving_average decay s w]> sh))
        (Some shadows) var_list.

Section Step.

(** The numerical library: the float64 quotient of two integers, the
    value of a scalar tensor, the gradient of a scalar tensor with
    respect to a variable, and the batch statistic that an update of
    batch normalization averages, the last three on the current batch
    and the current values of the variables. *)
Variable truediv : Z -> Z -> Qc.
Variable evaluate : tensor -> gmap nat (list Qc) -> Qc.
Variable gradient : tensor -> gmap nat (list Qc) -> nat -> list Qc.
Variable batch_statistic : tensor -> gmap nat (list Qc) -> list Qc.

(** The pairs [(grad, var)] of [opt.compute_gradients(loss)]. *)
Definition gradients (loss : tensor) (var_list : list tensor)
    (vars : gmap nat (list Qc)) : list (option (list Qc) * nat) :=
  omap (fun v =>
          id ← variable_id v;
          Some (if depends_on id loss then Some (gradient loss vars id)
                else None, id))
       var_list.

Definition exec (k : op_kind) (s : state) : option state :=
  match k with
  | PiecewiseConstant global_step batch_size examples_per_epoch
      pred_fn_pairs default =>
      v ← case pred_fn_pairs default
            (num_epoch truediv global_step (global_step_value s) batch_size
               examples_per_epoch);
      Some (set_lr_value s v)
  | LossAverages decay losses =>
      Some (set_loss_shadows s
              (moving_average decay (loss_shadows s)
                 (map (fun t => evaluate t (var_values s)) losses)))
  | ComputeGradients loss var_list =>
      Some (set_grads_value s (gradients loss var_list (var_values s)))
  | ApplyGradients _ =>
      learning_rate ← lr_value s;
      grads_and_vars ← grads_value s;
      vs ← apply_gradient_descent learning_rate grads_and_vars (var_values s);
      Some (set_global_step (set_var_values s vs) (global_step_value s + 1))
  | VariableAverages decay _ var_list =>
      sh ← apply_variable_averages
             (effective_decay decay (global_step_value s))
             var_list (var_values s) (variable_shadows s);
      Some (set_variable_shadows s sh)
  | Update u =>
      match u with
      | Op (AssignMovingAvg momentum) (VariableV2 id _ _ :: _) _ _ =>
          w ← var_values s !! id;
          Some (set_var_values s
                  (<[id := moving_average momentum w
                             (batch_statistic u (var_values s))]>
                     (var_values s)))
      | _ => None
      end
  | NoOp => Some s
  end.

Definition find_op (ops : list op_node) (n : op_name) : option op_node :=
  List.find (fun o => bool_decide (name o = n)) ops.

(** A schedule names the operations in the order in which they run:
    each is an operation of the graph, runs once, and runs after its
    inputs. *)
Fixpoint respects (ops : list op_node) (done schedule : list op_name) : bool :=
  match schedule with
  | [] => true
  | n :: rest =>
      match find_op ops n with
      | Some o =>
          forallb (fun i => bool_decide (i ∈ done))
                  (data_inputs o ++ control_inputs o)
          && negb (bool_decide (n ∈ done))
          && respects ops (n :: done) rest
      | None => false
      end
  end.

Definition valid_schedule (ops : list op_node) (fetch : op_name)
    (schedule : list op_name) : bool :=
  respects ops [] schedule && bool_decide (fetch ∈ schedule).

Fixpoint run_schedule (ops : list op_node) (schedule : list op_name)
    (s : state) : option state :=
  match schedule with
  | [] => Some s
  | n :: rest =>
      o ← find_op ops n;
      s' ← exec (kind o) s;
      run_schedule ops rest s'
  end.

(** [session.run(train_op)] under a schedule. *)
Definition run (ops : list op_node) (fetch : op_name)
    (schedule : list op_name) (s : state) : option state :=
  if valid_schedule ops fetch schedule
  then run_schedule ops schedule (fresh s)
  else None.

End Step.

(** ** Notions used to state the properties *)

(** The flags under which every layer can be built: a weight decay that
    the regularizer accepts, a drop probability in [0, 1) and a growth
    rate that is not negative. *)
Definition well_configured (F : Flags) : Prop :=
  (0 <= wd F)%Qc /\ (0 <= dropout_rate F)%Qc /\ (dropout_rate F < 1)%Qc
  /\ 0 <= growth_rate F.

Definition with_depth (F : Flags) (d : Z) : Flags :=
  {| batch_size := batch_size F; data_dir := data_dir F;
     use_fp16 := use_fp16 F; bn_momentum := bn_momentum F; wd := wd F;
     depth := d; growth_rate := growth_rate F;
     dropout_rate := dropout_rate F; lr_boundaries := lr_boundaries F;
     lr_values := lr_values F |}.

Definition with_lr (F : Flags) (boundaries values : string) : Flags :=
  {| batch_size := batch_size F; data_dir := data_dir F;
     use_fp16 := use_fp16 F; bn_momentum := bn_momentum F; wd := wd F;
     depth := depth F; growth_rate := growth_rate F;
     dropout_rate := dropout_rate F; lr_boundaries := boundaries;
     lr_values := values |}.

Definition with_batch_size (F : Flags) (n : Z) : Flags :=
  {| batch_size := n; data_dir := data_dir F;
     use_fp16 := use_fp16 F; bn_momentum := bn_momentum F; wd := wd F;
     depth := depth F; growth_rate := growth_rate F;
     dropout_rate := dropout_rate F; lr_boundaries := lr_boundaries F;
     lr_values := lr_values F |}.

Definition with_fp16 (F : Flags) (b : bool) : Flags :=
  {| batch_size := batch_size F; data_dir := data_dir F;
     use_fp16 := b; bn_momentum := bn_momentum F; wd := wd F;
     depth := depth F; growth_rate := growth_rate F;
     dropout_rate := dropout_rate F; lr_boundaries := lr_boundaries F;
     lr_values := lr_values F |}.

(** [returns m g P]: run on the graph [g], the builder [m] raises nothing
    and its result and final graph satisfy [P]. *)
Definition returns {A : Type} (m : M A) (g : graph)
    (P : A -> graph -> Prop) : Prop :=
  exists a g', m g = Ok (a, g') /\ P a g'.

(** The tensors whose channels make up a feature map, in the order of
    the channel axis: the operands of the concatenations along axis 3,
    flattened. *)
Fixpoint channel_slabs (t : tensor) : list tensor :=
  match t with
  | Op (ConcatV2 3) inputs _ _ =>
      (fix go (ts : list tensor) : list tensor :=
         match ts with
         | [] => []
         | u :: ts' => channel_slabs u ++ go ts'
         end) inputs
  | _ => [t]
  end.

(** The feature map a unit layer was applied to, read off its output:
    drop (or identity) of a 3x3 stride-1 convolution of the rectified
    batch normalization of the input. *)
Definition unit_layer_input (u : tensor) : option tensor :=
  match u with
  | Op (Dropout _ | Identity)
       [Op (Conv2D _ 3 1)
           [Op Relu [Op (BatchNormalization _ _) (x :: _) _ _] _ _; _] _ _]
       _ _ => Some x
  | _ => None
  end.

Definition is_variable (t : tensor) : Prop :=
  exists id dt s, t = VariableV2 id dt s.

(** [stems_from root t]: the tensor [t] is computed from [root] and from
    variables alone. *)
Inductive stems_from (root : tensor) : tensor -> Prop :=
| stems_root : stems_from root root
| stems_op (o : operation) (inputs : list tensor) (dt : dtype) (s : list Z) :
    Forall (fun i => stems_from root i \/ is_variable i) inputs ->
    stems_from root (Op o inputs dt s).

(** The main path of a network, read from its output: the tensor, then
    the first input of the operation that computes it, and so on down to
    a tensor that no operation computes. *)
Fixpoint spine (t : tensor) : list tensor :=
  match t with
  | Op _ (x :: _) _ _ => t :: spine x
  | _ => [t]
  end.

Definition operation_of (t : tensor) : option operation :=
  match t with
  | Op o _ _ _ => Some o
  | _ => None
  end.

(** [main_path ops x t]: the tensor [t] is computed from [x] along its
    main path by the operations [ops], the one applied last coming
    first. *)
Definition main_path (ops : list operation) (x t : tensor) : Prop :=
  exists pre, spine t = pre ++ spine x /\ omap operation_of pre = ops.

(** The operations of a unit layer and of a transition layer, from the
    output back to the input. *)
Definition unit_layer_ops (F : Flags) (training : bool) (out_channel : Z)
  : list operation :=
  [if training then Dropout (dropout_rate F) else Identity;
   Conv2D out_channel 3 1; Relu;
   BatchNormalization (bn_momentum F) training].

Definition transition_ops (F : Flags) (training : bool) (channels : Z)
  : list operation :=
  AvgPool 2 2 :: unit_layer_ops F training channels.

(** Following the spec's words: the network after its first
    convolution, from the logits back to that convolution: the
    classifier head, the global average pooling, the final normalize and
    rectify pass, and the three stages, each a transition layer on a
    dense block that concatenates once per unit. *)
Definition network_ops (F : Flags) (training : bool) : list operation :=
  let n1 := Z.to_nat (first_depth F) in
  let n2 := Z.to_nat (second_depth F) in
  let n3 := Z.to_nat (third_depth F) in
  let c1 := 16 + Z.of_nat n1 * growth_rate F in
  let c2 := c1 + Z.of_nat n2 * growth_rate F in
  let c3 := c2 + Z.of_nat n3 * growth_rate F in
  [Dense NUM_CLASSES true; Mean [1; 2]; Relu;
   BatchNormalization (bn_momentum F) training]
  ++ transition_ops F training c3 ++ replicate n3 (ConcatV2 3)
  ++ transition_ops F training c2 ++ replicate n2 (ConcatV2 3)
  ++ transition_ops F training c1 ++ replicate n1 (ConcatV2 3).

(** Following the spec's words: a piecewise-constant function of [x]
    over a list of boundaries and a list of one more values, constant
    between consecutive boundaries. *)
Fixpoint step_function (x : Qc) (boundaries values : list Qc) : option Qc :=
  match boundaries, values with
  | [], [v] => Some v
  | b :: bs, v :: vs =>
      if bool_decide (x <= b)%Qc then Some v else step_function x bs vs
  | _, _ => None
  end.

(** A reader of plain decimal literals (digits with an optional point),
    the fragment of Python's float syntax in which the default flags are
    written; it instantiates [float] and [np_float64] in the examples. *)
Definition digit_of (c : ascii) : option Z :=
  let n := Z.of_nat (nat_of_ascii c) in
  if (48 <=? n) && (n <=? 57) then Some (n - 48) else None.

Fixpoint decimal_digits (s : string) (num : Z) (den : positive)
    (point digits : bool) : option Qc :=
  match s with
  | EmptyString => if digits then Some (Q2Qc (num # den)) else None
  | String c s' =>
      if Ascii.eqb c "."%char then
        if point then None else decimal_digits s' num den true digits
      else
        match digit_of c with
        | Some d =>
            decimal_digits s' (10 * num + d)
              (if point then (10 * den)%positive else den) point true
        | None => None
        end
  end.

Definition decimal (s : string) : option Qc := decimal_digits s 0 1 false false.

(** The shape of the tensor a builder returns, for the examples. *)
Definition built_shape (r : result (tensor * graph)) : result (list Z) :=
  match r with
  | Ok (t, _) => Ok (get_shape t)
  | Raise e => Raise e
  end.

(** The graph a builder leaves behind, the given one when it raises. *)
Definition built_graph (r : result (tensor * graph)) (g : graph) : graph :=
  match r with
  | Ok (_, g') => g'
  | Raise _ => g
  end.

(** The mean cross-entropy tensor that [loss] builds from the logits and
    the labels. *)
Definition cross_entropy_mean (logits labels : tensor) : tensor :=
  Op (Mean [])
     [Op SparseSoftmaxCrossEntropyWithLogits
         [Op Cast [labels] int64 (get_shape labels); logits]
         (get_dtype_of logits) (get_shape labels)]
     (get_dtype_of logits) [].

Section LossValues.

Variable feed : string -> option (list elem).
Variable variables : gmap nat (list Qc).
Variable xent : list Z -> tensor -> list Qc.

(** The sum of the values of a list of scalar tensors, each counted
    once. *)
Definition eval_sum (ts : list tensor) : option Qc :=
  foldr (fun u acc =>
           x ← eval_scalar feed variables xent u; s ← acc; Some (x + s)%Qc)
        (Some (Q2Qc 0)) ts.

(** The value of the tensor a call of [loss] returns. *)
Definition loss_value (r : result (tensor * graph)) : option Qc :=
  match r with
  | Ok (t, _) => eval_scalar feed variables xent t
  | Raise _ => None
  end.

End LossValues.

(** An element that stands for the integer [k], as an integer or as a
    float. *)
Definition denotes (e : elem) (k : Z) : Prop :=
  e = Int k \/ e = Float (Q2Qc (inject_Z k)).

(** A small graph for the examples: one trainable variable of two
    weights with its L2 penalty registered, one moving statistic with its
    update, logits for a batch of four, and their labels. *)
Definition example_graph : graph :=
  {| collections :=
       <[REGULARIZATION_LOSSES :=
           [Op (L2Regularizer (Q2Qc 0.004)) [VariableV2 0 float32 [2]]
               float32 []]]>
         (<[TRAINABLE_VARIABLES := [VariableV2 0 float32 [2]]]>
            (<[UPDATE_OPS :=
                 [Op (AssignMovingAvg (Q2Qc 0.99))
                     [VariableV2 1 float32 [2];
                      Placeholder "features" float32 [4; 2]]
                     float32 [2]]]> ∅));
     num_variables := 2 |}.

Definition example_logits : tensor :=
  Op (Dense 10 true) [Placeholder "features" float32 [4; 2];
                      VariableV2 0 float32 [2]] float32 [4; 10].

Definition example_labels : tensor := Placeholder "labels" int32 [4].

Definition example_feed (name : string) : option (list elem) :=
  if bool_decide (name = "labels") then Some [Int 1; Int 2; Int 3; Int 4]
  else None.

Definition example_variables : gmap nat (list Qc) :=
  <[0%nat := [Q2Qc 1; Q2Qc 2]]> ∅.

(** A stand-in for the cross-entropy kernel: every example costs 1. *)
Definition example_xent (labels : list Z) (logits : tensor) : list Qc :=
  map (fun _ => Q2Qc 1) labels.

(** The operations [train] returns, given the learning-rate schedule it
    built and the collections it read. *)
Definition train_ops (lr_kind : op_kind) (losses : list tensor)
    (total_loss global_step : tensor) (var_list update_ops : list tensor)
  : list op_node :=
  [ {| name := lr; kind := lr_kind; data_inputs := []; control_inputs := [] |};
    {| name := loss_averages_op;
       kind := LossAverages (Q2Qc 0.9) (losses ++ [total_loss]);
       data_inputs := []; control_inputs := [] |};
    {| name := grads; kind := ComputeGradients total_loss var_list;
       data_inputs := []; control_inputs := [loss_averages_op] |};
    {| name := apply_gradient_op; kind := ApplyGradients global_step;
       data_inputs := [lr; grads]; control_inputs := [] |};
    {| name := variables_averages_op;
       kind := VariableAverages MOVING_AVERAGE_DECAY global_step var_list;
       data_inputs := []; control_inputs := [] |} ]
  ++ imap (fun k u => {| name := update_op k; kind := Update u;
                         data_inputs := []; control_inputs := [] |})
          update_ops
  ++ [ {| name := train_op; kind := NoOp; data_inputs := [];
          control_inputs :=
            [apply_gradient_op; variables_averages_op]
            ++ map update_op (seq 0 (length update_ops)) |} ].

(** The operations a builder returns, none when it raises. *)
Definition built_ops (r : result (list op_node * graph)) : list op_node :=
  match r with
  | Ok (ops, _) => ops
  | Raise _ => []
  end.

(** The tensor a builder returns, or a given one when it raises. *)
Definition built_tensor (r : result (tensor * graph)) (d : tensor) : tensor :=
  match r with
  | Ok (t, _) => t
  | Raise _ => d
  end.

(** The example continued: the total loss of the small graph, the global
    step, the size of the CIFAR-10 training set, and a state in which the
    weights are (1, 2), their shadows (0, 0) and no step has run. *)
Definition example_total_loss : tensor :=
  built_tensor (loss example_logits example_labels example_graph)
    example_logits.

Definition example_loss_graph : graph :=
  built_graph (loss example_logits example_labels example_graph)
    example_graph.

Definition example_global_step : tensor := VariableV2 2 int64 [].

Definition example_examples_per_epoch : positive := 50000.

Definition example_ops (F : Flags) : list op_node :=
  built_ops (train F example_examples_per_epoch decimal decimal
               example_total_loss example_global_step example_loss_graph).

Definition example_state : state :=
  {| var_values := <[0%nat := [Q2Qc 1; Q2Qc 2]]>
                     (<[1%nat := [Q2Qc 0; Q2Qc 0]]> ∅);
     global_step_value := 0;
     variable_shadows := <[0%nat := [Q2Qc 0; Q2Qc 0]]> ∅;
     loss_shadows := [Q2Qc 0; Q2Qc 0; Q2Qc 0];
     lr_value := None;
     grads_value := None |}.

(** [n / d] rounded to the nearest float of precision [p], ties to
    even; the range of the exponent is not modelled. *)
Definition round_to_precision (p : Z) (n : Z) (d : positive) : Q :=
  if n =? 0 then 0%Q
  else
    let a := Z.abs n in
    let e0 := Z.log2 a - Z.log2 (Z.pos d) in
    let e := if 2 ^ Z.max e0 0 * Z.pos d <=? a * 2 ^ Z.max (- e0) 0
             then e0 else e0 - 1 in
    let k := p - 1 - e in
    let num := a * 2 ^ Z.max k 0 in
    let den := Z.pos d * 2 ^ Z.max (- k) 0 in
    let m := num / den in
    let r := num mod den in
    let m' := if 2 * r <? den then m
              else if den <? 2 * r then m + 1
              else if Z.even m then m else m + 1 in
    (Z.sgn n * m' * 2 ^ Z.max (- k) 0 # Z.to_pos (2 ^ Z.max k 0))%Q.

Definition round_float64 (q : Q) : Q := round_to_precision 53 (Qnum q) (Qden q).

(** Two quotients that a runtime may compute for [a / b] in float64:
    the division of IEEE 754, and the product by the reciprocal of the
    divisor, which a graph optimizer puts in the place of the division
    by a constant.  They instantiate [truediv] in the examples. *)
Definition float64_truediv (a b : Z) : Qc :=
  Q2Qc (round_float64
          (round_float64 (inject_Z a) / round_float64 (inject_Z b))).

Definition float64_mul_reciprocal (a b : Z) : Qc :=
  Q2Qc (round_float64
          (round_float64 (inject_Z a)
           * round_float64 (1 / round_float64 (inject_Z b)))).

Definition example_truediv : Z -> Z -> Qc := float64_truediv.

(** Stand-ins for the numerical library: every loss evaluates to 1,
    every gradient is (1, 1), every batch statistic is (1, 1). *)
Definition example_evaluate (t : tensor) (vars : gmap nat (list Qc)) : Qc :=
  Q2Qc 1.

Definition example_gradient (t : tensor) (vars : gmap nat (list Qc))
    (id : nat) : list Qc :=
  [Q2Qc 1; Q2Qc 1].

Definition example_batch_statistic (t : tensor) (vars : gmap nat (list Qc))
  : list Qc :=
  [Q2Qc 1; Q2Qc 1].

(** Two schedules of a training step with [n] updates of batch
    normalization: the moving averages of the variables run before the
    gradients are applied, or after. *)
Definition schedule_averages_first (n : nat) : list op_name :=
  [lr; loss_averages_op; grads; variables_averages_op; apply_gradient_op]
  ++ map update_op (seq 0 n) ++ [train_op].

Definition schedule_averages_last (n : nat) : list op_name :=
  [lr; loss_averages_op; grads; apply_gradient_op; variables_averages_op]
  ++ map update_op (seq 0 n) ++ [train_op].

(** The identifiers of the variables of a list of tensors. *)
Definition variable_ids (var_list : list tensor) : list nat :=
  omap variable_id var_list.

(** The variable that an update of batch normalization assigns. *)
Definition update_target (u : tensor) : option nat :=
  match u with
  | Op (AssignMovingAvg _) (VariableV2 id _ _ :: _) _ _ => Some id
  | _ => None
  end.

(** The width of the counter of steps, for the integer types of which
    TensorFlow takes the true division in float64, the type of the
    boundaries that [train] makes: int32 and int64. *)
Definition counter_bits (global_step : tensor) : option Z :=
  match get_dtype_of global_step with
  | int32 => Some 32
  | int64 => Some 64
  | _ => None
  end.

(** The learning rate that the operations of a training graph compute
    at a global step. *)
Definition learning_rate (truediv : Z -> Z -> Qc) (ops : list op_node)
    (step : Z) : option Qc :=
  match find_op ops lr with
  | Some {| kind := PiecewiseConstant global_step batch examples
                      pred_fn_pairs default |}
    => case pred_fn_pairs default
         (num_epoch truediv global_step step batch examples)
  | _ => None
  end.

(** A state in which a training step can run: the trainable variables
    are distinct variables that have a value and a shadow, and every
    update of batch normalization assigns a variable that has a value
    and is not trainable. *)
Definition initialised (var_list update_ops : list tensor) (s : state)
  : Prop :=
  NoDup (variable_ids var_list) /\
  Forall (fun v => exists id, variable_id v = Some id /\
                              is_Some (var_values s !! id) /\
                              is_Some (variable_shadows s !! id)) var_list /\
  Forall (fun u => exists id, update_target u = Some id /\
                              is_Some (var_values s !! id) /\
                              id ∉ variable_ids var_list) update_ops.

(** The predicates of the schedule above a lower bound, in the order of
    the boundaries. *)
Fixpoint uppers (low : Qc) (boundaries values : list Qc)
  : list (predicate * Qc) :=
  match boundaries, values with
  | [], [v] => [(Greater low, v)]
  | b :: bs, v :: vs => (Between low b, v) :: uppers b bs vs
  | _, _ => []
  end.

(** The operation that [train] gives each name. *)
Definition train_op_of (lr_kind : op_kind) (losses : list tensor)
    (total_loss global_step : tensor) (var_list update_ops : list tensor)
    (n : op_name) : option op_node :=
  match n with
  | lr => Some {| name := lr; kind := lr_kind;
                  data_inputs := []; control_inputs := [] |}
  | loss_averages_op =>
      Some {| name := loss_averages_op;
              kind := LossAverages (Q2Qc 0.9) (losses ++ [total_loss]);
              data_inputs := []; control_inputs := [] |}
  | grads =>
      Some {| name := grads; kind := ComputeGradients total_loss var_list;
              data_inputs := []; control_inputs := [loss_averages_op] |}
  | apply_gradient_op =>
      Some {| name := apply_gradient_op; kind := ApplyGradients global_step;
              data_inputs := [lr; grads]; control_inputs := [] |}
  | variables_averages_op =>
      Some {| name := variables_averages_op;
              kind := VariableAverages MOVING_AVERAGE_DECAY global_step
                        var_list;
              data_inputs := []; control_inputs := [] |}
  | update_op k =>
      (fun u => {| name := update_op k; kind := Update u;
                   data_inputs := []; control_inputs := [] |})
      <$> update_ops !! k
  | train_op =>
      Some {| name := train_op; kind := NoOp; data_inputs := [];
              control_inputs :=
                [apply_gradient_op; variables_averages_op]
                ++ map update_op (seq 0 (length update_ops)) |}
  end.

(** A store that holds the initial values of the trainable variables. *)
Definition agrees (var_list : list tensor) (s0 : state)
    (store : gmap nat (list Qc)) : Prop :=
  forall id, id ∈ variable_ids var_list ->
             store !! id = var_values s0 !! id.

(** A store in which every trainable variable has made one step of
    gradient descent from its initial value, along the gradient computed
    on [store]. *)
Definition updated_from
    (gradient : tensor -> gmap nat (list Qc) -> nat -> list Qc)
    (total_loss : tensor) (var_list : list tensor) (s0 : state) (rate0 : Qc)
    (store vars : gmap nat (list Qc)) : Prop :=
  forall id w, id ∈ variable_ids var_list ->
    var_values s0 !! id = Some w ->
    vars !! id
    = Some (if depends_on id total_loss
            then gradient_descent rate0 w (gradient total_loss store id)
            else w).

(** What holds of the state of a training step once the operations
    [done] have run from the state [s0], where the learning rate is
    [rate0]. *)
Definition step_invariant
    (gradient : tensor -> gmap nat (list Qc) -> nat -> list Qc)
    (total_loss : tensor) (var_list : list tensor) (s0 : state) (rate0 : Qc)
    (done : list op_name) (st : state) : Prop :=
  (forall id, is_Some (var_values st !! id) <-> is_Some (var_values s0 !! id))
  /\ (forall id, is_Some (variable_shadows st !! id)
                 <-> is_Some (variable_shadows s0 !! id))
  /\ (lr ∈ done -> lr_value st = Some rate0)
  /\ (grads ∈ done ->
      exists store, agrees var_list s0 store /\
        grads_value st = Some (gradients gradient total_loss var_list store))
  /\ (apply_gradient_op ∉ done ->
      global_step_value st = global_step_value s0 /\
      agrees var_list s0 (var_values st))
  /\ (apply_gradient_op ∈ done ->
      lr ∈ done /\ grads ∈ done /\
      global_step_value st = global_step_value s0 + 1 /\
      exists store,
        agrees var_list s0 store /\
        updated_from gradient total_loss var_list s0 rate0 store
          (var_values st))
  /\ (train_op ∈ done -> apply_gradient_op ∈ done).

(** ** More functions of cifar10.py

    The graph of the model keeps no names and no summaries: the
    summaries that [_activation_summary] adds are returned as a list,
    and the name of the operation it reads is an argument. *)

Definition TOWER_NAME : string := "tower".

Definition DATA_URL : string :=
  "http://www.cs.toronto.edu/~kriz/cifar-10-binary.tar.gz".

Definition is_digit (c : ascii) : bool :=
  let n := nat_of_ascii c in (48 <=? n)%nat && (n <=? 57)%nat.

(** The number of characters that [[0-9]*/] matches at the head of a
    string: the digits there are, then a slash. *)
Fixpoint match_digits_slash (s : string) : option nat :=
  match s with
  | EmptyString => None
  | String c s' =>
      if Ascii.eqb c "/"%char then Some 1%nat
      else if is_digit c then S <$> match_digits_slash s'
      else None
  end.

(** [s] without its first [n] characters. *)
Fixpoint string_drop (n : nat) (s : string) : string :=
  match n, s with
  | S n', String _ s' => string_drop n' s'
  | _, _ => s
  end.

(** The number of characters that the pattern ['%s_[0-9]*/' % name]
    matches at the head of a string, if it matches there. *)
Definition match_tower (name s : string) : option nat :=
  let p := String.append name "_" in
  if String.prefix p s
  then (fun n => String.length p + n)%nat
       <$> match_digits_slash (string_drop (String.length p) s)
  else None.

(** [re.sub('%s_[0-9]*/' % name, '', s)]: the string is read from the
    left, a match is dropped, and the reading goes on after it; [skip]
    counts the characters of a match that are still to drop. *)
Fixpoint re_sub_tower (name : string) (skip : nat) (s : string) : string :=
  match s with
  | EmptyString => EmptyString
  | String c s' =>
      match skip with
      | S k => re_sub_tower name k s'
      | O =>
          match match_tower name s with
          | Some n => re_sub_tower name (n - 1) s'
          | None => String c (re_sub_tower name 0 s')
          end
      end
  end.

(** [tf.summary.histogram(name, x)] and
    [tf.summary.scalar(name, tf.nn.zero_fraction(x))], each with the
    name that the module passes.  The tag under which TensorFlow emits
    the summary is made from that name by the name scopes of the graph,
    where it is made unique; the model does not keep it. *)
Inductive summary : Type :=
| histogram (name : string) (values : tensor)
| scalar_zero_fraction (name : string) (values : tensor).

(** [_activation_summary(x)], where [x_op_name] is [x.op.name]. *)
Definition _activation_summary (x_op_name : string) (x : tensor)
  : list summary :=
  let tensor_name := re_sub_tower TOWER_NAME 0 x_op_name in
  [histogram (String.append tensor_name "/activations") x;
   scalar_zero_fraction (String.append tensor_name "/sparsity") x].




(** [os.path.join(a, b)] of [posixpath]. *)
Fixpoint ends_with_slash (s : string) : bool :=
  match s with
  | EmptyString => false
  | String c EmptyString => Ascii.eqb c "/"%char
  | String _ s' => ends_with_slash s'
  end.

Definition os_path_join (a b : string) : string :=
  if String.prefix "/" b then b
  else if bool_decide (a = EmptyString) || ends_with_slash a
       then String.append a b
       else String.append a (String "/"%char b).

(** What [maybe_download_and_extract] does to the world outside. *)
Inductive action : Type :=
| Makedirs (path : string)
| Urlretrieve (url filename : string)
| TarfileExtractall (tarball path : string).

Section Download.

(** The file system and the network: whether a path exists, and what
    each action leaves behind, [None] where it raises. *)
Variable file_system : Type.
Variable os_path_exists : file_system -> string -> bool.
Variable os_stat : file_system -> string -> option Z.
Variable perform : action -> file_system -> option file_system.

(** The actions performed are recorded in the order in which they are
    performed; what is printed is not. *)
Definition maybe_download_and_extract (FLAGS : Flags) (w : file_system)
  : option (file_system * list action) :=
  let dest_directory := data_dir FLAGS in
  '(w, log) ←
    (if os_path_exists w dest_directory then Some (w, [])
     else w' ← perform (Makedirs dest_directory) w;
          Some (w', [Makedirs dest_directory]));
  let filename := List.last (split "/"%char DATA_URL) EmptyString in
  let filepath := os_path_join dest_directory filename in
  '(w, log) ←
    (if os_path_exists w filepath then Some (w, log)
     else w' ← perform (Urlretrieve DATA_URL filepath) w;
          _ ← os_stat w' filepath;
          Some (w', log ++ [Urlretrieve DATA_URL filepath]));
  let extracted_dir_path :=
    os_path_join dest_directory "cifar-10-batches-bin" in
  if os_path_exists w extracted_dir_path then Some (w, log)
  else w' ← perform (TarfileExtractall filepath dest_directory) w;
       Some (w', log ++ [TarfileExtractall filepath dest_directory]).

End Download.

(** ** Notions for the further properties *)

(** [sep.join(pieces)] for a separator of one character. *)
Fixpoint join (sep : ascii) (pieces : list string) : string :=
  match pieces with
  | [] => EmptyString
  | w :: ws =>
      match ws with
      | [] => w
      | _ :: _ => String.append w (String sep (join sep ws))
      end
  end.

(** The number of occurrences of a character in a string. *)
Fixpoint count_char (c : ascii) (s : string) : nat :=
  match s with
  | EmptyString => 0
  | String a s' => (if Ascii.eqb a c then 1 else 0) + count_char c s'
  end.

(** In a schedule, [a] runs before [b]. *)
Definition runs_before (a b : op_name) (schedule : list op_name) : Prop :=
  exists l1 l2 l3, schedule = l1 ++ a :: l2 ++ b :: l3.

(** The number of adjacent pairs of boundaries that [x] lies between
    from above: [b' < x <= b] for [b] followed by [b']. *)
Fixpoint down_crossings (x : Qc) (boundaries : list Qc) : nat :=
  match boundaries with
  | [] => 0
  | b :: rest =>
      match rest with
      | [] => 0
      | b' :: _ =>
          (if bool_decide (x <= b)%Qc && bool_decide (b' < x)%Qc
           then 1 else 0) + down_crossings x rest
      end
  end.

(** The entries of a collection of the graph, none when it is absent. *)
Definition collection (g : graph) (name : string) : list tensor :=
  default [] (collections g !! name).

(** What a builder adds to a graph: a number of variables, and entries
    at the end of the collections that the layers write. *)
Record additions : Type := {
  new_variables : nat;
  new_trainable : list tensor;
  new_penalties : list tensor;
  new_updates : list tensor
}.

Definition additions_app (a b : additions) : additions :=
  {| new_variables := new_variables a + new_variables b;
     new_trainable := new_trainable a ++ new_trainable b;
     new_penalties := new_penalties a ++ new_penalties b;
     new_updates := new_updates a ++ new_updates b |}.

(** [grows g g' a]: the graph [g'] is [g] with the additions [a], and
    nothing else has changed. *)
Definition grows (g g' : graph) (a : additions) : Prop :=
  num_variables g' = (num_variables g + new_variables a)%nat /\
  collection g' TRAINABLE_VARIABLES
  = collection g TRAINABLE_VARIABLES ++ new_trainable a /\
  collection g' REGULARIZATION_LOSSES
  = collection g REGULARIZATION_LOSSES ++ new_penalties a /\
  collection g' UPDATE_OPS = collection g UPDATE_OPS ++ new_updates a /\
  forall name,
    name <> TRAINABLE_VARIABLES -> name <> REGULARIZATION_LOSSES ->
    name <> UPDATE_OPS ->
    collections g' !! name = collections g !! name.

(** Additions whose variables are numbered from [base]: the trainable
    entries are distinct variables of that range, every update assigns
    a variable of that range that is not trainable, and every penalty
    is a scalar. *)
Definition fresh_from (base : nat) (a : additions) : Prop :=
  NoDup (variable_ids (new_trainable a)) /\
  Forall (fun v => exists id, variable_id v = Some id /\
                              (base <= id < base + new_variables a)%nat)
         (new_trainable a) /\
  Forall (fun u => exists id, update_target u = Some id /\
                              (base <= id < base + new_variables a)%nat /\
                              id ∉ variable_ids (new_trainable a))
         (new_updates a) /\
  Forall (fun p => get_shape p = []) (new_penalties a).

(** A graph whose trainable variables are distinct variables it has
    created, whose updates assign variables it has created that are not
    trainable, and whose penalties are scalars. *)
Definition well_formed (g : graph) : Prop :=
  fresh_from 0
    {| new_variables := num_variables g;
       new_trainable := collection g TRAINABLE_VARIABLES;
       new_penalties := collection g REGULARIZATION_LOSSES;
       new_updates := collection g UPDATE_OPS |}.

(** [adds g g' n t r u]: the graph [g'] is [g] with [n] new variables,
    of which [t] are trainable, [r] new penalties and [u] new updates. *)
Definition adds (g g' : graph) (n t r u : nat) : Prop :=
  exists a,
    grows g g' a /\ fresh_from (num_variables g) a /\
    new_variables a = n /\ length (new_trainable a) = t /\
    length (new_penalties a) = r /\ length (new_updates a) = u.

(** [extends g g' n t r u]: the graph [g'] has [n] variables more than
    [g], the collections of the trainable variables, of the penalties
    and of the updates of [g'] are those of [g] with [t], [r] and [u]
    entries added at the end, and the collection ['losses'] is as it
    was. *)
Definition extends (g g' : graph) (n t r u : nat) : Prop :=
  num_variables g' = (num_variables g + n)%nat /\
  (exists l, length l = t /\
     collection g' TRAINABLE_VARIABLES
     = collection g TRAINABLE_VARIABLES ++ l) /\
  (exists l, length l = r /\
     collection g' REGULARIZATION_LOSSES
     = collection g REGULARIZATION_LOSSES ++ l) /\
  (exists l, length l = u /\
     collection g' UPDATE_OPS = collection g UPDATE_OPS ++ l) /\
  collection g' LOSSES = collection g LOSSES.

(** The floating-point types, the ones that the convolution and the
    cross-entropy of TensorFlow accept. *)
Definition is_floating (dt : dtype) : bool :=
  match dt with
  | float16 | float32 | float64 => true
  | _ => false
  end.

(** The penalties that a regularizer of scale [scale] registers for one
    weight, and the updates that one batch normalization registers. *)
Definition penalties_per_weight (scale : Qc) : nat :=
  if bool_decide (scale = 0%Qc) then 0 else 1.

Definition updates_per_normalization (training : bool) : nat :=
  if training then 2 else 0.

(** The unit layers of the network: those of the three blocks and of
    the three transitions. *)
Definition unit_layers (F : Flags) : nat :=
  (Z.to_nat (first_depth F) + Z.to_nat (second_depth F)
   + Z.to_nat (third_depth F) + 3)%nat.

(** The use of the module that its docstring gives: the training
    inputs, the network on the images, the loss against the labels, and
    the training graph of the loss. *)
Definition training_graph (F : Flags) (N : positive)
    (float np_float64 : string -> option Qc) (global_step : tensor)
  : M (tensor * list op_node) :=
  batch <- distorted_inputs F ;;
  logits <- inference F batch.1 true ;;
  total_loss <- loss logits batch.2 ;;
  ops <- train F N float np_float64 total_loss global_step ;;
  ret (total_loss, ops).

Definition with_wd (F : Flags) (w : Qc) : Flags :=
  {| batch_size := batch_size F; data_dir := data_dir F;
     use_fp16 := use_fp16 F; bn_momentum := bn_momentum F; wd := w;
     depth := depth F; growth_rate := growth_rate F;
     dropout_rate := dropout_rate F; lr_boundaries := lr_boundaries F;
     lr_values := lr_values F |}.


(** What holds of the averages of the losses once the operations [done]
    have run from the state [s0]: they are untouched until the loss
    averages have run, and from then on they are the averages, with the
    decay 0.9, of the values of the [losses] on a store that holds the
    initial values of the trainable variables. *)
Definition loss_invariant (evaluate : tensor -> gmap nat (list Qc) -> Qc)
    (losses var_list : list tensor) (s0 : state)
    (done : list op_name) (st : state) : Prop :=
  (grads ∈ done -> loss_averages_op ∈ done) /\
  (loss_averages_op ∉ done -> loss_shadows st = loss_shadows s0) /\
  (loss_averages_op ∈ done ->
   exists store,
     agrees var_list s0 store /\
     loss_shadows st
     = moving_average (Q2Qc 0.9) (loss_shadows s0)
         (map (fun t => evaluate t store) losses)).

(** Whether [p] occurs in [s], and whether a string is made of digits. *)
Fixpoint occurs (p s : string) : bool :=
  String.prefix p s
  || match s with
     | EmptyString => false
     | String _ s' => occurs p s'
     end.

Fixpoint all_digits (s : string) : bool :=
  match s with
  | EmptyString => true
  | String c s' => is_digit c && all_digits s'
  end.


(** A file system for the examples: the list of the paths that exist.
    Every action succeeds and leaves behind the path it is for; the
    tarball holds the directory of the batches. *)
Definition example_exists (w : list string) (p : string) : bool :=
  bool_decide (p ∈ w).

Definition example_stat (w : list string) (p : string) : option Z :=
  if example_exists w p then Some 0 else None.

Definition example_perform (a : action) (w : list string)
  : option (list string) :=
  match a with
  | Makedirs p => Some (p :: w)
  | Urlretrieve _ p => Some (p :: w)
  | TarfileExtractall _ d => Some (os_path_join d "cifar-10-batches-bin" :: w)
  end.

(** Closed equalities and inequalities of the examples are decided by
    evaluation. *)
Ltac by_computation :=
  apply (bool_decide_eq_true_1 _); vm_compute; reflexivity.

(** * Properties *)

(** ** Reasoning about builders *)

Lemma returns_ret {A : Type} (a : A) (g : graph) (P : A -> graph -> Prop) :
  P a g -> returns (ret a) g P.
Proof. intros H. exists a, g. split; [reflexivity | exact H]. Qed.

Lemma returns_bind {A B : Type} (m : M A) (k : A -> M B) (g : graph)
    (P : A -> graph -> Prop) (Q : B -> graph -> Prop) :
  returns m g P ->
  (forall a g', P a g' -> returns (k a) g' Q) ->
  returns (bind m k) g Q.
Proof.
  intros (a & g' & Hm & HP) Hk.
  destruct (Hk a g' HP) as (b & g'' & Hb & HQ).
  exists b, g''. split; [| exact HQ].
  unfold bind. rewrite Hm. exact Hb.
Qed.

Lemma returns_weaken {A : Type} (m : M A) (g : graph)
    (P Q : A -> graph -> Prop) :
  returns m g P -> (forall a g', P a g' -> Q a g') -> returns m g Q.
Proof.
  intros (a & g' & Hm & HP) HPQ. exists a, g'. split; [exact Hm | auto].
Qed.

Lemma returns_inv {A : Type} (m : M A) (g : graph) (P : A -> graph -> Prop)
    (a : A) (g' : graph) :
  returns m g P -> m g = Ok (a, g') -> P a g'.
Proof.
  intros (a0 & g0 & Hm & HP) Heq. rewrite Hm in Heq.
  injection Heq as -> ->. exact HP.
Qed.

(** ** Rational side conditions *)

Lemma Qc_nonneg_not_neg (q : Qc) : (0 <= q)%Qc -> bool_decide (q < 0)%Qc = false.
Proof.
  intros H. apply bool_decide_eq_false. intros Hlt.
  exact (Qclt_not_le _ _ Hlt H).
Qed.

Lemma keep_prob_accepted (rate : Qc) :
  (0 <= rate)%Qc -> (rate < 1)%Qc ->
  bool_decide (0 < 1 - rate)%Qc && bool_decide (1 - rate <= 1)%Qc = true.
Proof.
  intros H0 H1. apply andb_true_iff. split; apply bool_decide_eq_true.
  - apply Qclt_minus_iff in H1. exact H1.
  - apply Qcle_minus_iff. replace (1 + - (1 - rate))%Qc with rate by ring.
    exact H0.
Qed.

(** ** The layers *)

Lemma get_variable_returns (dt : dtype) (shape : list Z) (trainable : bool)
    (g : graph) :
  returns (tf.get_variable dt shape trainable) g
    (fun v _ => exists id, v = VariableV2 id dt shape).
Proof.
  unfold returns, tf.get_variable. destruct trainable; simpl; eauto 6.
Qed.

Lemma apply_l2_regularizer_returns (scale : Qc) (w : tensor) (g : graph) :
  (0 <= scale)%Qc ->
  returns (tf.apply_l2_regularizer scale w) g (fun _ _ => True).
Proof.
  intros H. unfold returns, tf.apply_l2_regularizer.
  rewrite (Qc_nonneg_not_neg _ H).
  destruct (bool_decide (scale = 0%Qc)); simpl; eauto.
Qed.

Lemma is_variable_intro (id : nat) (dt : dtype) (s : list Z) :
  is_variable (VariableV2 id dt s).
Proof. unfold is_variable. eauto. Qed.

Lemma returns_bind_ret {A B : Type} (a : A) (k : A -> M B) (g : graph)
    (Q : B -> graph -> Prop) :
  returns (k a) g Q -> returns (bind (ret a) k) g Q.
Proof. intros H. exact H. Qed.

Lemma stems_from_op (root : tensor) (o : operation) (x : tensor)
    (rest : list tensor) (dt : dtype) (s : list Z) :
  stems_from root x -> Forall is_variable rest ->
  stems_from root (Op o (x :: rest) dt s).
Proof.
  intros Hx Hrest. apply stems_op. constructor; [left; exact Hx |].
  eapply Forall_impl; [exact Hrest |]. intros i Hi. right. exact Hi.
Qed.

Lemma layers_conv2d_returns (inputs : tensor) (filters k s : Z) (scale : Qc)
    (g : graph) (b h w c : Z) :
  get_shape inputs = [b; h; w; c] ->
  0 <= filters -> 0 < k -> 0 < s -> (0 <= scale)%Qc ->
  returns (tf.layers_conv2d inputs filters k s scale) g
    (fun out _ => exists kernel,
       is_variable kernel /\
       out = Op (Conv2D filters k s) [inputs; kernel] (get_dtype_of inputs)
               [b; tf.same_output_size h s; tf.same_output_size w s; filters]).
Proof.
  intros Hs Hf Hk Hst Hsc. unfold tf.layers_conv2d. rewrite Hs.
  replace ((filters <? 0) || (k <=? 0) || (s <=? 0)) with false
    by (symmetry; repeat (apply orb_false_iff; split); lia).
  eapply returns_bind; [apply get_variable_returns |].
  intros kernel g1 [id ->].
  eapply returns_bind; [apply apply_l2_regularizer_returns; exact Hsc |].
  intros _ g2 _. apply returns_ret.
  exists (VariableV2 id (get_dtype_of inputs) [k; k; c; filters]).
  split; [| reflexivity]. unfold is_variable. eauto.
Qed.

Lemma layers_batch_normalization_returns (inputs : tensor) (momentum : Qc)
    (training : bool) (g : graph) :
  get_shape inputs <> [] ->
  returns (tf.layers_batch_normalization inputs momentum training) g
    (fun out _ => exists gamma beta mean variance,
       is_variable gamma /\ is_variable beta /\
       is_variable mean /\ is_variable variance /\
       out = Op (BatchNormalization momentum training)
               [inputs; gamma; beta; mean; variance]
               (get_dtype_of inputs) (get_shape inputs)).
Proof.
  intros Hne. unfold tf.layers_batch_normalization.
  destruct (last (get_shape inputs)) as [c |] eqn:Hlast;
    [| apply last_None in Hlast; contradiction].
  eapply returns_bind; [apply get_variable_returns |]. intros gamma g1 [i1 ->].
  eapply returns_bind; [apply get_variable_returns |]. intros beta g2 [i2 ->].
  eapply returns_bind; [apply get_variable_returns |]. intros mm g3 [i3 ->].
  eapply returns_bind; [apply get_variable_returns |]. intros mv g4 [i4 ->].
  eapply returns_bind with (P := fun _ _ => True).
  { destruct training; [| apply returns_ret; exact I].
    unfold returns, tf.collection_extend. eauto. }
  intros _ g5 _. apply returns_ret.
  do 4 eexists. repeat apply conj; cycle 4; [reflexivity | ..];
    apply is_variable_intro.
Qed.

Section Layers.

Variable F : Flags.
Hypothesis HF : well_configured F.

Lemma unit_layer_returns (features : tensor) (out_channel : Z)
    (training : bool) (g : graph) (b h w c : Z) :
  get_shape features = [b; h; w; c] ->
  0 <= out_channel ->
  returns (unit_layer F features out_channel training) g
    (fun u _ =>
       get_shape u = [b; h; w; out_channel] /\
       get_dtype_of u = get_dtype_of features /\
       unit_layer_input u = Some features /\
       channel_slabs u = [u] /\
       forall root, stems_from root features -> stems_from root u).
Proof.
  intros Hs Hoc. destruct HF as (Hwd & Hr0 & Hr1 & _).
  unfold unit_layer.
  eapply returns_bind.
  { apply layers_batch_normalization_returns. rewrite Hs. discriminate. }
  intros bn g1 (gamma & beta & mm & mv & Hg & Hb & Hm & Hv & ->).
  unfold tf.nn_relu. apply returns_bind_ret.
  simpl get_dtype_of. simpl get_shape.
  eapply returns_bind.
  { unfold conv2d. eapply (layers_conv2d_returns _ _ _ _ _ _ b h w c);
      [simpl; exact Hs | exact Hoc | lia | lia | exact Hwd]. }
  intros conv g3 (kernel & Hk & ->).
  assert (Hsame : forall n, tf.same_output_size n 1 = n).
  { intros n. unfold tf.same_output_size.
    replace (n + 1 - 1) with n by lia. apply Z.div_1_r. }
  rewrite !Hsame.
  assert (Hstem : forall root, stems_from root features ->
            stems_from root
              (Op (Conv2D out_channel 3 1)
                 [Op Relu
                    [Op (BatchNormalization (bn_momentum F) training)
                       [features; gamma; beta; mm; mv]
                       (get_dtype_of features) (get_shape features)]
                    (get_dtype_of features) (get_shape features); kernel]
                 (get_dtype_of features) [b; h; w; out_channel])).
  { intros root Hroot. repeat apply stems_from_op; auto. }
  eapply returns_bind with
    (P := fun drop _ =>
            get_shape drop = [b; h; w; out_channel] /\
            get_dtype_of drop = get_dtype_of features /\
            unit_layer_input drop = Some features /\
            channel_slabs drop = [drop] /\
            forall root, stems_from root features -> stems_from root drop).
  { unfold tf.layers_dropout. destruct training.
    - rewrite (keep_prob_accepted _ Hr0 Hr1). apply returns_ret. simpl.
      repeat split; try reflexivity.
      intros root Hroot. apply stems_from_op; auto.
    - apply returns_ret. simpl. repeat split; try reflexivity.
      intros root Hroot. apply stems_from_op; auto. }
  intros drop g4 H. apply returns_ret. exact H.
Qed.

End Layers.

Lemma concat_channels_returns (x u : tensor) (g : graph) (b h w c1 c2 : Z) :
  get_shape x = [b; h; w; c1] ->
  get_shape u = [b; h; w; c2] ->
  get_dtype_of u = get_dtype_of x ->
  returns (tf.concat [x; u] 3) g
    (fun out _ =>
       out = Op (ConcatV2 3) [x; u] (get_dtype_of x) [b; h; w; c1 + c2]).
Proof.
  intros Hx Hu Hdt. unfold tf.concat. simpl forallb. rewrite Hdt.
  rewrite bool_decide_eq_true_2 by reflexivity. simpl negb. cbv iota.
  simpl foldl. rewrite Hx, Hu. unfold tf.concat_shape. simpl.
  rewrite bool_decide_eq_true_2 by reflexivity.
  apply returns_ret. reflexivity.
Qed.

Section Blocks.

Variable F : Flags.
Hypothesis HF : well_configured F.

Lemma block_loop_returns (n : nat) (growth : Z) (training : bool) :
  0 <= growth ->
  forall (features : tensor) (g : graph) (b h w c : Z),
    get_shape features = [b; h; w; c] ->
    returns (block_loop F n features growth training) g
      (fun out _ =>
         get_shape out = [b; h; w; c + Z.of_nat n * growth] /\
         get_dtype_of out = get_dtype_of features /\
         (forall root, stems_from root features -> stems_from root out) /\
         exists units,
           length units = n /\
           Forall (fun u => get_shape u = [b; h; w; growth]) units /\
           channel_slabs out = channel_slabs features ++ units /\
           forall i u, units !! i = Some u ->
             exists x, unit_layer_input u = Some x /\
                       channel_slabs x = channel_slabs features ++ take i units).
Proof.
  intros Hgrowth. induction n as [| n IH]; intros features g b h w c Hs.
  - apply returns_ret. rewrite Hs. repeat split.
    + f_equal. f_equal. f_equal. f_equal. lia.
    + auto.
    + exists []. repeat split; [constructor | symmetry; apply app_nil_r |].
      intros i u Hi. rewrite lookup_nil in Hi. discriminate.
  - cbn [block_loop].
    eapply returns_bind; [apply (unit_layer_returns F HF _ _ _ _ b h w c Hs Hgrowth) |].
    intros u g1 (Hus & Hud & Hui & Huc & Hustem).
    eapply returns_bind; [apply (concat_channels_returns _ _ _ b h w c growth Hs Hus Hud) |].
    intros f' g2 ->.
    eapply returns_weaken; [apply (IH _ g2 b h w (c + growth)); reflexivity |].
    intros out g3 (Hos & Hod & Hostem & units & Hlen & Hall & Hslabs & Hunits).
    cbn [channel_slabs] in Hslabs. rewrite Huc, app_nil_r in Hslabs.
    repeat split.
    + rewrite Hos. f_equal. f_equal. f_equal. f_equal. lia.
    + exact Hod.
    + intros root Hroot. apply Hostem. apply stems_op.
      constructor; [left; exact Hroot |].
      constructor; [left; apply Hustem; exact Hroot | constructor].
    + exists (u :: units). repeat split.
      * simpl. rewrite Hlen. reflexivity.
      * constructor; assumption.
      * rewrite Hslabs, <- app_assoc. reflexivity.
      * intros [| i] v Hv.
        -- injection Hv as <-. exists features. split; [exact Hui |].
           simpl. symmetry. apply app_nil_r.
        -- destruct (Hunits i v Hv) as (x & Hx & Hxs). exists x.
           split; [exact Hx |]. rewrite Hxs.
           cbn [channel_slabs]. rewrite Huc, app_nil_r, <- app_assoc.
           reflexivity.
Qed.

End Blocks.

Lemma valid_output_size_half (n : Z) :
  2 <= n -> tf.valid_output_size n 2 2 = Some (n / 2).
Proof.
  intros Hn. unfold tf.valid_output_size.
  destruct (n <? 2) eqn:E; [lia |]. f_equal.
  replace (n - 2) with (n + (-1) * 2) by lia.
  rewrite Z.div_add by lia. lia.
Qed.

Lemma valid_output_size_small (n : Z) :
  n < 2 -> tf.valid_output_size n 2 2 = None.
Proof.
  intros Hn. unfold tf.valid_output_size.
  destruct (n <? 2) eqn:E; [reflexivity | lia].
Qed.

Lemma average_pooling2d_returns (x : tensor) (g : graph) (b h w c : Z) :
  get_shape x = [b; h; w; c] -> 2 <= h -> 2 <= w ->
  returns (tf.layers_average_pooling2d x 2 2) g
    (fun out _ =>
       out = Op (AvgPool 2 2) [x] (get_dtype_of x) [b; h / 2; w / 2; c]).
Proof.
  intros Hs Hh Hw. unfold tf.layers_average_pooling2d.
  rewrite Hs, (valid_output_size_half h Hh), (valid_output_size_half w Hw).
  apply returns_ret. reflexivity.
Qed.

Lemma average_pooling2d_raises (x : tensor) (g : graph) (b h w c : Z) :
  get_shape x = [b; h; w; c] -> h < 2 \/ w < 2 ->
  tf.layers_average_pooling2d x 2 2 g = Raise ValueError.
Proof.
  intros Hs [Hh | Hw]; unfold tf.layers_average_pooling2d; rewrite Hs.
  - rewrite (valid_output_size_small h Hh). reflexivity.
  - rewrite (valid_output_size_small w Hw).
    destruct (tf.valid_output_size h 2 2); reflexivity.
Qed.

Lemma layers_dense_returns (x : tensor) (units : Z) (scale : Qc) (g : graph)
    (b c : Z) :
  get_shape x = [b; c] -> 0 <= units -> (0 <= scale)%Qc ->
  returns (tf.layers_dense x units scale) g
    (fun out _ => exists kernel bias,
       is_variable kernel /\ is_variable bias /\
       out = Op (Dense units true) [x; kernel; bias] (get_dtype_of x)
               [b; units]).
Proof.
  intros Hs Hu Hsc. unfold tf.layers_dense. rewrite Hs. cbn [last length].
  replace ((2 <? 2)%nat || (units <? 0)) with false
    by (symmetry; apply orb_false_iff; split; [reflexivity | lia]).
  eapply returns_bind; [apply get_variable_returns |]. intros k g1 [i1 ->].
  eapply returns_bind; [apply apply_l2_regularizer_returns; exact Hsc |].
  intros _ g2 _.
  eapply returns_bind; [apply get_variable_returns |]. intros bi g3 [i2 ->].
  eapply returns_bind; [apply apply_l2_regularizer_returns; exact Hsc |].
  intros _ g4 _. apply returns_ret.
  do 2 eexists. repeat apply conj; cycle 2; [reflexivity | ..];
    apply is_variable_intro.
Qed.

Section Stages.

Variable F : Flags.
Hypothesis HF : well_configured F.

Lemma transition_returns (features : tensor) (training : bool) (g : graph)
    (b h w c : Z) :
  get_shape features = [b; h; w; c] -> 2 <= h -> 2 <= w -> 0 <= c ->
  returns (transition F features training) g
    (fun out _ => exists u,
       out = Op (AvgPool 2 2) [u] (get_dtype_of features)
               [b; h / 2; w / 2; c] /\
       get_shape u = [b; h; w; c] /\
       unit_layer_input u = Some features /\
       forall root, stems_from root features -> stems_from root out).
Proof.
  intros Hs Hh Hw Hc. unfold transition, dim. rewrite Hs. cbn [lookup].
  simpl. apply returns_bind_ret.
  eapply returns_bind; [apply (unit_layer_returns F HF _ _ _ _ b h w c Hs Hc) |].
  intros u g1 (Hus & Hud & Hui & _ & Hustem).
  eapply returns_bind; [apply (average_pooling2d_returns _ _ b h w c Hus Hh Hw) |].
  intros out g2 ->. apply returns_ret. exists u. rewrite Hud.
  repeat split; try assumption.
  intros root Hroot. apply stems_from_op; auto.
Qed.

Lemma transition_raises (features : tensor) (training : bool) (g : graph)
    (b h w c : Z) :
  get_shape features = [b; h; w; c] -> h < 2 \/ w < 2 -> 0 <= c ->
  transition F features training g = Raise ValueError.
Proof.
  intros Hs Hsmall Hc. unfold transition, dim. rewrite Hs. cbn [lookup]. simpl.
  destruct (unit_layer_returns F HF features c training g b h w c Hs Hc)
    as (u & g1 & Hrun & Hus & _).
  unfold bind at 1. unfold ret at 1. unfold bind at 1. rewrite Hrun.
  unfold bind. rewrite (average_pooling2d_raises u g1 b h w c Hus Hsmall).
  reflexivity.
Qed.

Lemma block_returns (features : tensor) (n : Z) (training : bool) (g : graph)
    (b h w c : Z) :
  get_shape features = [b; h; w; c] -> 0 <= c ->
  returns (block F features n (growth_rate F) training) g
    (fun out _ => exists c',
       get_shape out = [b; h; w; c'] /\ 0 <= c' /\
       get_dtype_of out = get_dtype_of features /\
       forall root, stems_from root features -> stems_from root out).
Proof.
  intros Hs Hc. destruct HF as (_ & _ & _ & Hg). unfold block.
  eapply returns_weaken;
    [apply (block_loop_returns F HF _ _ _ Hg _ _ b h w c Hs) |].
  intros out g' (Hos & Hod & Hstem & _).
  exists (c + Z.of_nat (Z.to_nat n) * growth_rate F).
  repeat split; try assumption. nia.
Qed.

Lemma inference_returns (images : tensor) (training : bool) (g : graph)
    (b : Z) :
  get_shape images = [b; 32; 32; 3] ->
  returns (inference F images training) g
    (fun logits _ =>
       get_shape logits = [b; NUM_CLASSES] /\
       exists kernel,
         is_variable kernel /\
         stems_from
           (Op (Conv2D 16 3 1) [images; kernel] (get_dtype_of images)
              [b; 32; 32; 16])
           logits).
Proof.
  intros Hs. pose proof HF as (Hwd & _). unfold inference.
  eapply returns_bind.
  { unfold conv2d.
    apply (layers_conv2d_returns _ _ _ _ _ _ b 32 32 3 Hs); [lia | lia | lia | exact Hwd]. }
  intros conv0 g0 (kernel & Hk & Hconv0).
  change (tf.same_output_size 32 1) with 32 in Hconv0.
  assert (Hs0 : get_shape conv0 = [b; 32; 32; 16]) by (rewrite Hconv0; reflexivity).
  eapply returns_bind; [apply (block_returns _ _ _ _ b 32 32 16 Hs0); lia |].
  intros block1 g1 (c1 & Hs1 & Hc1 & _ & Hst1).
  eapply returns_bind;
    [apply (transition_returns _ _ _ b 32 32 c1 Hs1); lia |].
  intros dense1 g2 (u1 & Hd1 & _ & _ & Hstd1).
  assert (Hsd1 : get_shape dense1 = [b; 16; 16; c1]) by (rewrite Hd1; reflexivity).
  eapply returns_bind; [apply (block_returns _ _ _ _ b 16 16 c1 Hsd1); lia |].
  intros block2 g3 (c2 & Hs2 & Hc2 & _ & Hst2).
  eapply returns_bind;
    [apply (transition_returns _ _ _ b 16 16 c2 Hs2); lia |].
  intros dense2 g4 (u2 & Hd2 & _ & _ & Hstd2).
  assert (Hsd2 : get_shape dense2 = [b; 8; 8; c2]) by (rewrite Hd2; reflexivity).
  eapply returns_bind; [apply (block_returns _ _ _ _ b 8 8 c2 Hsd2); lia |].
  intros block3 g5 (c3 & Hs3 & Hc3 & _ & Hst3).
  eapply returns_bind;
    [apply (transition_returns _ _ _ b 8 8 c3 Hs3); lia |].
  intros dense3 g6 (u3 & Hd3 & _ & _ & Hstd3).
  assert (Hsd3 : get_shape dense3 = [b; 4; 4; c3]) by (rewrite Hd3; reflexivity).
  eapply returns_bind.
  { apply layers_batch_normalization_returns. rewrite Hsd3. discriminate. }
  intros bn g7 (gamma & beta & mm & mv & Hga & Hbe & Hmm & Hmv & ->).
  unfold tf.nn_relu. apply returns_bind_ret.
  unfold global_average_pooling2d, tf.reduce_mean_1_2.
  cbn [get_shape get_dtype_of]. rewrite Hsd3. apply returns_bind_ret.
  eapply returns_bind.
  { apply (layers_dense_returns _ _ _ _ b c3);
      [reflexivity | unfold NUM_CLASSES; lia | exact Hwd]. }
  intros logits g8 (k & bi & Hki & Hbi & ->). apply returns_ret.
  split; [reflexivity |].
  exists kernel. split; [exact Hk |]. rewrite <- Hconv0.
  apply stems_from_op; [| auto].
  repeat apply stems_from_op; auto 10.
  apply Hstd3, Hst3, Hstd2, Hst2, Hstd1, Hst1. apply stems_root.
Qed.

End Stages.

Lemma default_flags_well_configured : well_configured default_flags.
Proof. unfold well_configured. repeat split; vm_compute; discriminate. Qed.

Lemma with_depth_well_configured (F : Flags) (d : Z) :
  well_configured F -> well_configured (with_depth F d).
Proof. intros H. exact H. Qed.

(** ** Stage depths *)

(** C1: for every configured depth of at least 4, the first and second
    stage depths are [floor((depth - 4) / 3)], the third one is
    [depth - 4 - first - second], the three add up with 4 to the depth,
    and none is negative. *)
Theorem stage_depths_split (F : Flags) :
  4 <= depth F ->
  first_depth F = (depth F - 4) / 3 /\
  second_depth F = (depth F - 4) / 3 /\
  third_depth F = depth F - 4 - first_depth F - second_depth F /\
  4 + first_depth F + second_depth F + third_depth F = depth F /\
  0 <= first_depth F /\ 0 <= second_depth F /\ 0 <= third_depth F.
Proof.
  intros Hd. unfold third_depth, second_depth, first_depth, int_of_truediv.
  rewrite Z.quot_div_nonneg by lia.
  pose proof (Z.div_pos (depth F - 4) 3 ltac:(lia) ltac:(lia)) as Hq.
  pose proof (Z.mul_div_le (depth F - 4) 3 ltac:(lia)) as Hm.
  repeat split; lia.
Qed.

Lemma stage_depths_split_default :
  4 <= depth default_flags /\
  first_depth default_flags = 12 /\
  second_depth default_flags = 12 /\
  third_depth default_flags = 12.
Proof.
  assert (H : 4 <= depth default_flags) by (simpl; lia).
  destruct (stage_depths_split default_flags H) as (H1 & H2 & H3 & _).
  split; [exact H |]. rewrite H3, H2, H1. repeat split.
Defined.

(** ** Dense blocks *)

(** C7: a dense block of depth [n >= 0] runs the unit layer [n] times;
    each unit has [growth] channels and is computed from the running
    feature map, that is from the input's channels followed by the
    channels of the earlier units in order; the output has the height and
    width of the input and [c + n * growth] channels, its channels being
    those of the input followed by those of the units, earliest first.
    For [n = 0] the channel count is that of the input. *)
Theorem block_concatenates_units (F : Flags) (features : tensor)
    (n growth : Z) (training : bool) (g : graph) (b h w c : Z) :
  well_configured F ->
  get_shape features = [b; h; w; c] ->
  0 <= n -> 0 <= growth ->
  returns (block F features n growth training) g
    (fun out _ =>
       get_shape out = [b; h; w; c + n * growth] /\
       exists units,
         Z.of_nat (length units) = n /\
         Forall (fun u => get_shape u = [b; h; w; growth]) units /\
         channel_slabs out = channel_slabs features ++ units /\
         forall i u, units !! i = Some u ->
           exists x, unit_layer_input u = Some x /\
                     channel_slabs x = channel_slabs features ++ take i units).
Proof.
  intros HF Hs Hn Hg. unfold block.
  eapply returns_weaken;
    [apply (block_loop_returns F HF _ _ _ Hg _ _ b h w c Hs) |].
  intros out g' (Hos & _ & _ & units & Hlen & Hall & Hslabs & Hunits).
  split.
  - rewrite Hos. rewrite Z2Nat.id by exact Hn. reflexivity.
  - exists units. repeat split; try assumption. rewrite Hlen. lia.
Qed.

Lemma block_concatenates_units_default :
  built_shape
    (block default_flags (Placeholder "conv0" float32 [128; 32; 32; 16])
       12 12 true empty_graph)
  = Ok [128; 32; 32; 160].
Proof.
  destruct (block_concatenates_units default_flags
              (Placeholder "conv0" float32 [128; 32; 32; 16]) 12 12 true
              empty_graph 128 32 32 16 default_flags_well_configured
              eq_refl ltac:(lia) ltac:(lia))
    as (out & g' & Hrun & Hshape & _).
  rewrite Hrun. simpl. rewrite Hshape. reflexivity.
Defined.

(** ** Transition layers *)

(** C3, as the code has it: on a feature map of height and width at
    least 2 the transition layer applies a unit layer with as many
    output channels as the input has, then 2x2 stride-2 average pooling;
    the height and width of the output are those of the input divided by
    2 and rounded down, which is exactly half for an even size.  The
    layer raises only when the height or the width is smaller than the
    pooling window. *)
Theorem transition_halves_rounding_down (F : Flags) (features : tensor)
    (training : bool) (g : graph) (b h w c : Z) :
  well_configured F ->
  get_shape features = [b; h; w; c] ->
  0 <= c ->
  (2 <= h -> 2 <= w ->
   returns (transition F features training) g
     (fun out _ => exists u,
        out = Op (AvgPool 2 2) [u] (get_dtype_of features)
                [b; h / 2; w / 2; c] /\
        get_shape u = [b; h; w; c] /\
        unit_layer_input u = Some features)) /\
  (h mod 2 = 0 -> 2 * (h / 2) = h) /\
  (w mod 2 = 0 -> 2 * (w / 2) = w) /\
  (h < 2 \/ w < 2 -> transition F features training g = Raise ValueError).
Proof.
  intros HF Hs Hc. repeat split.
  - intros Hh Hw.
    eapply returns_weaken;
      [apply (transition_returns F HF _ _ _ b h w c Hs Hh Hw Hc) |].
    intros out g' (u & Hout & Hus & Hui & _). exists u. auto.
  - intros Hm. pose proof (Z.div_mod h 2 ltac:(lia)). lia.
  - intros Hm. pose proof (Z.div_mod w 2 ltac:(lia)). lia.
  - intros Hsmall. apply (transition_raises F HF _ _ _ b h w c Hs Hsmall Hc).
Qed.

Lemma transition_halves_rounding_down_32 :
  built_shape
    (transition default_flags (Placeholder "block1" float32 [128; 32; 32; 160])
       true empty_graph)
  = Ok [128; 16; 16; 160].
Proof.
  destruct (transition_halves_rounding_down default_flags
              (Placeholder "block1" float32 [128; 32; 32; 160]) true
              empty_graph 128 32 32 160 default_flags_well_configured
              eq_refl ltac:(lia))
    as (Hok & _).
  destruct (Hok ltac:(lia) ltac:(lia)) as (out & g' & Hrun & u & Hout & _).
  rewrite Hrun. simpl. rewrite Hout. reflexivity.
Defined.

(** C3, as stated, fails: a 17x17 feature map raises no error; the
    transition layer returns an 8x8 one. *)
Lemma transition_odd_input_is_truncated :
  built_shape
    (transition default_flags (Placeholder "features" float32 [128; 17; 17; 16])
       true empty_graph)
  = Ok [128; 8; 8; 16].
Proof. vm_compute. reflexivity. Qed.

(** ** A depth below four *)

Lemma small_depth_stage_depths (F : Flags) :
  depth F < 4 ->
  first_depth F <= 0 /\ second_depth F <= 0 /\ third_depth F <= 0.
Proof.
  intros Hd. unfold third_depth, second_depth, first_depth, int_of_truediv.
  replace (depth F - 4) with (- (4 - depth F)) by lia.
  rewrite Z.quot_opp_l by lia. rewrite Z.quot_div_nonneg by lia.
  pose proof (Z.div_pos (4 - depth F) 3 ltac:(lia) ltac:(lia)) as Hq.
  pose proof (Z.mul_div_le (4 - depth F) 3 ltac:(lia)) as Hm.
  repeat split; lia.
Qed.

(** C4, as the code has it: the depth is not validated.  For a depth
    below 4 the three stage depths are zero or negative, every dense
    block runs no unit, and the network that is built is the one of
    depth 4; on a batch of 32x32x3 images it is built without error. *)
Theorem inference_accepts_small_depth (F : Flags) (images : tensor)
    (training : bool) (g : graph) (b : Z) :
  depth F < 4 ->
  well_configured F ->
  get_shape images = [b; 32; 32; 3] ->
  first_depth F <= 0 /\ second_depth F <= 0 /\ third_depth F <= 0 /\
  inference F images training g
  = inference (with_depth F 4) images training g /\
  returns (inference F images training) g
    (fun logits _ => get_shape logits = [b; NUM_CLASSES]).
Proof.
  intros Hd HF Hs.
  destruct (small_depth_stage_depths F Hd) as (H1 & H2 & H3).
  repeat split; try assumption.
  - unfold inference, block.
    replace (Z.to_nat (first_depth F)) with 0%nat by lia.
    replace (Z.to_nat (second_depth F)) with 0%nat by lia.
    replace (Z.to_nat (third_depth F)) with 0%nat by lia.
    reflexivity.
  - eapply returns_weaken; [apply (inference_returns F HF _ _ _ b Hs) |].
    intros logits g' (Hshape & _). exact Hshape.
Qed.

Lemma inference_accepts_small_depth_0 :
  built_shape
    (inference (with_depth default_flags 0)
       (cifar10_input_batch default_flags).1 true empty_graph)
  = Ok [128; 10].
Proof.
  destruct (inference_accepts_small_depth (with_depth default_flags 0)
              (cifar10_input_batch default_flags).1 true empty_graph 128
              ltac:(simpl; lia) default_flags_well_configured eq_refl)
    as (_ & _ & _ & _ & logits & g' & Hrun & Hshape).
  rewrite Hrun. simpl. rewrite Hshape. reflexivity.
Defined.

(** C4, as stated, fails: with a depth of 3 the network is built, and
    no configuration error is raised. *)
Lemma inference_depth_3_is_built :
  built_shape
    (inference (with_depth default_flags 3)
       (cifar10_input_batch default_flags).1 true empty_graph)
  = Ok [128; 10].
Proof. vm_compute. reflexivity. Qed.

(** ** The loss *)

Lemma losses_is_not_the_penalty_pool : LOSSES <> REGULARIZATION_LOSSES.
Proof. discriminate. Qed.

(** What a call of [loss] does, step by step: the shape checks of the
    cross-entropy, then the sum of the collection ['losses'] once the
    penalties and the mean cross-entropy have joined it. *)
Lemma loss_unfold (logits labels : tensor) (g : graph) :
  loss logits labels g =
  let old := default [] (collections g !! LOSSES) in
  let penalties := default [] (collections g !! REGULARIZATION_LOSSES) in
  let terms := (old ++ penalties) ++ [cross_entropy_mean logits labels] in
  match get_shape logits with
  | [] => Raise ValueError
  | _ :: _ =>
      if bool_decide (get_shape labels = removelast (get_shape logits))
      then tf.add_n terms
             {| collections := <[LOSSES := terms]> (collections g);
                num_variables := num_variables g |}
      else Raise ValueError
  end.
Proof.
  unfold loss, bind, tf.cast, ret, tf.nn_sparse_softmax_cross_entropy_with_logits.
  cbn [get_shape get_dtype_of].
  destruct (get_shape logits) as [| d ds] eqn:Hl; [reflexivity |].
  destruct (bool_decide (get_shape labels = removelast (d :: ds))) eqn:Hb;
    [| reflexivity].
  unfold tf.reduce_mean, ret, tf.get_collection, tf.collection_append,
    tf.collection_extend. cbn [collections num_variables get_shape get_dtype_of].
  rewrite lookup_insert_eq. cbn [default].
  rewrite lookup_insert_eq. cbn [default].
  rewrite insert_insert_eq.
  unfold cross_entropy_mean. reflexivity.
Qed.

Lemma add_n_ending_in_scalar (ts : list tensor) (c : tensor) (g : graph) :
  get_shape c = [] ->
  tf.add_n (ts ++ [c]) g
  = if forallb (fun t => bool_decide (get_shape t = [])) ts
    then Ok (Op AddN (ts ++ [c]) (get_dtype_of (List.hd c ts)) [], g)
    else Raise ValueError.
Proof.
  intros Hc. destruct ts as [| t ts].
  - cbn [app tf.add_n forallb List.hd]. rewrite Hc. reflexivity.
  - cbn [app tf.add_n List.hd].
    destruct (forallb (fun t => bool_decide (get_shape t = [])) (t :: ts))
      eqn:Hall.
    + rewrite forallb_forall in Hall.
      assert (Ht : get_shape t = [])
        by (apply (bool_decide_eq_true_1 _), Hall; left; reflexivity).
      rewrite Ht.
      replace (forallb _ (ts ++ [c])) with true; [reflexivity |].
      symmetry. apply forallb_forall. intros u Hu.
      apply bool_decide_eq_true. apply in_app_or in Hu as [Hu | Hu].
      * apply (bool_decide_eq_true_1 _), Hall. right. exact Hu.
      * destruct Hu as [<- | []]. exact Hc.
    + replace (forallb _ (ts ++ [c])) with false; [reflexivity |].
      symmetry. apply not_true_iff_false. intros Hsame.
      apply not_true_iff_false in Hall. apply Hall.
      rewrite forallb_forall in Hsame.
      assert (Ht : get_shape t = []).
      { rewrite <- Hc. symmetry. apply (bool_decide_eq_true_1 _), Hsame.
        apply in_or_app. right. left. reflexivity. }
      apply forallb_forall. intros u [<- | Hu]; apply bool_decide_eq_true.
      * exact Ht.
      * rewrite <- Ht. apply (bool_decide_eq_true_1 _), Hsame.
        apply in_or_app. left. exact Hu.
Qed.

Lemma loss_builds (logits labels : tensor) (g : graph) :
  get_shape logits <> [] ->
  get_shape labels = removelast (get_shape logits) ->
  Forall (fun t => get_shape t = [])
    (collection g LOSSES ++ collection g REGULARIZATION_LOSSES) ->
  exists dt,
    loss logits labels g
    = Ok (Op AddN
            ((collection g LOSSES ++ collection g REGULARIZATION_LOSSES)
             ++ [cross_entropy_mean logits labels]) dt [],
          {| collections :=
               <[LOSSES :=
                   (collection g LOSSES ++ collection g REGULARIZATION_LOSSES)
                   ++ [cross_entropy_mean logits labels]]> (collections g);
             num_variables := num_variables g |}).
Proof.
  intros Hlogits Hlabels Hscalars. rewrite loss_unfold. cbv zeta.
  destruct (get_shape logits) as [| d ds]; [contradiction |].
  rewrite bool_decide_eq_true_2 by exact Hlabels.
  rewrite add_n_ending_in_scalar by reflexivity.
  fold (collection g LOSSES). fold (collection g REGULARIZATION_LOSSES).
  replace (forallb _ _) with true; [eexists; reflexivity |].
  symmetry. apply forallb_forall. intros t Ht. apply bool_decide_eq_true.
  rewrite Forall_forall in Hscalars. apply Hscalars, list_elem_of_In, Ht.
Qed.

Section LossProperties.

Variable feed : string -> option (list elem).
Variable variables : gmap nat (list Qc).
Variable xent : list Z -> tensor -> list Qc.

Lemma eval_scalar_add_n (ts : list tensor) (dt : dtype) (s : list Z) :
  eval_scalar feed variables xent (Op AddN ts dt s)
  = eval_sum feed variables xent ts.
Proof.
  cbn [eval_scalar]. unfold eval_sum.
  induction ts as [| u ts IH]; [reflexivity |].
  cbn [foldr]. rewrite <- IH. reflexivity.
Qed.

Lemma eval_sum_app (l1 l2 : list tensor) :
  eval_sum feed variables xent (l1 ++ l2)
  = (a ← eval_sum feed variables xent l1;
     b ← eval_sum feed variables xent l2;
     Some (a + b)%Qc).
Proof.
  unfold eval_sum. induction l1 as [| u l1 IH].
  - cbn [app foldr mbind option_bind].
    destruct (foldr _ _ l2) as [b |]; [| reflexivity].
    cbn. f_equal. ring.
  - cbn [app foldr]. rewrite IH.
    destruct (eval_scalar feed variables xent u) as [x |]; [| reflexivity].
    cbn [mbind option_bind].
    destruct (foldr _ _ l1) as [a |]; [| reflexivity].
    cbn [mbind option_bind].
    destruct (foldr _ _ l2) as [b |]; [| reflexivity].
    cbn. f_equal. ring.
Qed.

Lemma add_n_value (ts : list tensor) (g : graph) :
  loss_value feed variables xent (tf.add_n ts g)
  = match tf.add_n ts g with
    | Ok _ => eval_sum feed variables xent ts
    | Raise _ => None
    end.
Proof.
  unfold tf.add_n. destruct ts as [| t ts]; [reflexivity |].
  destruct (forallb _ ts); [| reflexivity].
  unfold ret. cbn [loss_value]. apply eval_scalar_add_n.
Qed.

End LossProperties.

Lemma add_n_scalars (ts : list tensor) (g : graph) :
  ts <> [] -> Forall (fun t => get_shape t = []) ts ->
  exists dt, tf.add_n ts g = Ok (Op AddN ts dt [], g).
Proof.
  intros Hne Hall. destruct ts as [| t ts]; [contradiction |].
  inversion Hall as [| ? ? Ht Hts]; subst. unfold tf.add_n.
  replace (forallb _ ts) with true.
  - exists (get_dtype_of t). unfold ret. rewrite Ht. reflexivity.
  - symmetry. apply forallb_forall. intros u Hu.
    apply bool_decide_eq_true. rewrite Ht.
    rewrite Forall_forall in Hts. apply Hts. apply list_elem_of_In. exact Hu.
Qed.

Section LossSum.

Variable feed : string -> option (list elem).
Variable variables : gmap nat (list Qc).
Variable xent : list Z -> tensor -> list Qc.

Lemma eval_sum_singleton (t : tensor) :
  eval_sum feed variables xent [t] = eval_scalar feed variables xent t.
Proof.
  unfold eval_sum. cbn [foldr].
  destruct (eval_scalar feed variables xent t) as [x |]; [| reflexivity].
  cbn. f_equal. ring.
Qed.

(** What a call of [loss] does: it reads the pool of registered
    penalties without changing it, appends the penalties and the mean
    cross-entropy of the batch to the collection ['losses'], and returns
    the sum of that whole collection.  When the collection was empty
    before the call, the result is the mean cross-entropy plus each
    registered penalty counted once. *)
Theorem loss_sums_the_losses_collection (logits labels : tensor) (g : graph) :
  get_shape logits <> [] ->
  get_shape labels = removelast (get_shape logits) ->
  Forall (fun t => get_shape t = [])
    (default [] (collections g !! LOSSES)
     ++ default [] (collections g !! REGULARIZATION_LOSSES)) ->
  exists total g',
    loss logits labels g = Ok (total, g') /\
    collections g' !! REGULARIZATION_LOSSES
    = collections g !! REGULARIZATION_LOSSES /\
    default [] (collections g' !! LOSSES)
    = default [] (collections g !! LOSSES)
      ++ default [] (collections g !! REGULARIZATION_LOSSES)
      ++ [cross_entropy_mean logits labels] /\
    eval_scalar feed variables xent total
    = (a ← eval_sum feed variables xent (default [] (collections g !! LOSSES));
       p ← eval_sum feed variables xent
             (default [] (collections g !! REGULARIZATION_LOSSES));
       c ← eval_scalar feed variables xent (cross_entropy_mean logits labels);
       Some (a + (p + c))%Qc) /\
    (default [] (collections g !! LOSSES) = [] ->
     eval_scalar feed variables xent total
     = (p ← eval_sum feed variables xent
              (default [] (collections g !! REGULARIZATION_LOSSES));
        c ← eval_scalar feed variables xent (cross_entropy_mean logits labels);
        Some (p + c)%Qc)).
Proof.
  intros Hrank Hlabels Hscalars.
  set (old := default [] (collections g !! LOSSES)) in *.
  set (pen := default [] (collections g !! REGULARIZATION_LOSSES)) in *.
  set (ce := cross_entropy_mean logits labels).
  pose proof (loss_unfold logits labels g) as Hloss. cbv zeta in Hloss.
  fold old pen ce in Hloss.
  destruct (get_shape logits) as [| d ds] eqn:Hl; [contradiction |].
  rewrite bool_decide_eq_true_2 in Hloss by exact Hlabels.
  destruct (add_n_scalars ((old ++ pen) ++ [ce])
              {| collections := <[LOSSES := (old ++ pen) ++ [ce]]> (collections g);
                 num_variables := num_variables g |})
    as [dt Hadd].
  { destruct (old ++ pen); discriminate. }
  { apply Forall_app. split; [exact Hscalars |]. repeat constructor. }
  rewrite Hadd in Hloss. eexists _, _. split; [exact Hloss |].
  cbn [collections].
  assert (Hval : eval_scalar feed variables xent (Op AddN ((old ++ pen) ++ [ce]) dt [])
                 = (a ← eval_sum feed variables xent old;
                    p ← eval_sum feed variables xent pen;
                    c ← eval_scalar feed variables xent ce;
                    Some (a + (p + c))%Qc)).
  { rewrite eval_scalar_add_n, !eval_sum_app, eval_sum_singleton.
    destruct (eval_sum feed variables xent old) as [a |]; [| reflexivity].
    destruct (eval_sum feed variables xent pen) as [p |]; [| reflexivity].
    destruct (eval_scalar feed variables xent ce) as [c |]; [| reflexivity].
    cbn. f_equal. ring. }
  repeat split.
  - apply lookup_insert_ne. exact losses_is_not_the_penalty_pool.
  - rewrite lookup_insert_eq. cbn [default]. symmetry. apply app_assoc.
  - exact Hval.
  - intros Hold. rewrite Hval, Hold.
    change (eval_sum feed variables xent []) with (Some (Q2Qc 0)).
    cbn [mbind option_bind].
    destruct (eval_sum feed variables xent pen) as [p |]; [| reflexivity].
    cbn [mbind option_bind].
    destruct (eval_scalar feed variables xent ce) as [c |]; [| reflexivity].
    cbn [mbind option_bind]. f_equal. ring.
Qed.

End LossSum.

Lemma loss_sums_the_losses_collection_example :
  loss_value example_feed example_variables example_xent
    (loss example_logits example_labels example_graph)
  = Some (Q2Qc 1.01).
Proof.
  destruct (loss_sums_the_losses_collection example_feed example_variables
              example_xent example_logits example_labels example_graph
              ltac:(discriminate) eq_refl
              ltac:(repeat constructor))
    as (total & g' & Hrun & _ & _ & _ & Hfresh).
  rewrite Hrun. cbn [loss_value]. rewrite (Hfresh eq_refl). by_computation.
Defined.

(** C2 fails on a second call: the comment above the [return] of
    [loss] defines the total loss as the cross-entropy plus the weight
    decay terms, and the first call returns it, 1 + 0.01; a second call
    on the same graph, with the same logits, labels and penalties, sums
    the terms of the first call again and returns twice that scalar. *)
Lemma loss_second_call_counts_twice :
  loss_value example_feed example_variables example_xent
    (loss example_logits example_labels example_graph)
  = Some (Q2Qc 1.01) /\
  loss_value example_feed example_variables example_xent
    (loss example_logits example_labels
       (built_graph (loss example_logits example_labels example_graph)
          example_graph))
  = Some (Q2Qc 2.02).
Proof. split; by_computation. Qed.

(** ** Labels of any numeric type *)

Lemma this_inject_Z (k : Z) : this (Q2Qc (inject_Z k)) = inject_Z k.
Proof.
  unfold Q2Qc, this, inject_Z, Qred.
  pose proof (Z.ggcd_gcd k 1) as Hg.
  pose proof (Z.ggcd_correct_divisors k 1) as Hd.
  destruct (Z.ggcd k 1) as [gcd [n d]]. cbn [fst snd] in *.
  rewrite Z.gcd_1_r in Hg. subst gcd. destruct Hd as [Hn Hd].
  replace n with k by lia. replace d with 1 by lia. reflexivity.
Qed.

Lemma truncate_inject_Z (k : Z) : truncate (Q2Qc (inject_Z k)) = k.
Proof. unfold truncate. rewrite this_inject_Z. cbn. apply Z.quot_1_r. Qed.

Lemma wrap_int64_small (k : Z) :
  - 2 ^ 63 <= k < 2 ^ 63 -> wrap 64 true k = k.
Proof.
  intros Hk. unfold wrap. change (64 - 1) with 63.
  rewrite Z.mod_small; lia.
Qed.

Lemma cast_int64_of_class_index (e : elem) (k : Z) :
  denotes e k -> 0 <= k < NUM_CLASSES ->
  cast_elem int64 e = Some (Int k).
Proof.
  unfold NUM_CLASSES. intros [-> | ->] Hk; cbn [cast_elem int_format].
  - rewrite wrap_int64_small by lia. reflexivity.
  - rewrite truncate_inject_Z, wrap_int64_small by lia.
    rewrite bool_decide_eq_true_2 by reflexivity. reflexivity.
Qed.

Lemma cast_float16_of_class_index (k : Z) :
  0 <= k < NUM_CLASSES ->
  cast_elem float16 (Int k) = Some (Float (Q2Qc (inject_Z k))).
Proof.
  unfold NUM_CLASSES. intros Hk. cbn [cast_elem int_format float_format].
  unfold round_int_to_float.
  destruct (Z.abs k <? 2 ^ 11) eqn:E; [reflexivity | lia].
Qed.

Section Labels.

Variable feed : string -> option (list elem).
Variable variables : gmap nat (list Qc).
Variable xent : list Z -> tensor -> list Qc.

Lemma cross_entropy_mean_value (logits labels : tensor) (es : list elem)
    (ks : list Z) :
  eval_elems feed labels = Some es ->
  Forall2 denotes es ks ->
  Forall (fun k => 0 <= k < NUM_CLASSES) ks ->
  eval_scalar feed variables xent (cross_entropy_mean logits labels)
  = mean_Qc (xent ks logits).
Proof.
  intros Hes Hden Hrange. unfold cross_entropy_mean.
  cbn [eval_scalar eval_elems]. rewrite Hes. cbn [mbind option_bind].
  assert (Hcast : mapM (cast_elem int64) es = Some (map Int ks)).
  { apply mapM_Some_2. clear Hes.
    induction Hden as [| e k es ks He Hden IH]; [constructor |].
    inversion Hrange; subst. cbn [map]. constructor; [| auto].
    apply cast_int64_of_class_index; assumption. }
  rewrite Hcast. cbn [mbind option_bind].
  assert (Hint : mapM elem_to_int (map Int ks) = Some ks).
  { apply mapM_Some_2. clear. induction ks; constructor; auto. }
  rewrite Hint. reflexivity.
Qed.

Lemma add_n_value_congr (ts ts' : list tensor) (g g' : graph) :
  map get_shape ts = map get_shape ts' ->
  eval_sum feed variables xent ts = eval_sum feed variables xent ts' ->
  loss_value feed variables xent (tf.add_n ts g)
  = loss_value feed variables xent (tf.add_n ts' g').
Proof.
  intros Hshapes Hsum. rewrite !add_n_value, Hsum.
  destruct ts as [| t ts], ts' as [| t' ts']; try discriminate; [reflexivity |].
  cbn [map] in Hshapes. injection Hshapes as Ht Hts. unfold tf.add_n.
  assert (Hall : forall (s : list Z) (l : list tensor),
            forallb (fun u => bool_decide (get_shape u = s)) l
            = forallb (fun u => bool_decide (u = s)) (map get_shape l)).
  { intros s l. induction l as [| u l IH]; [reflexivity |].
    cbn [map forallb]. rewrite IH. reflexivity. }
  rewrite !Hall, Ht, Hts.
  destruct (forallb _ (map get_shape ts')); reflexivity.
Qed.

Lemma loss_value_congr (logits labels labels' : tensor) (g : graph) :
  get_shape labels = get_shape labels' ->
  eval_scalar feed variables xent (cross_entropy_mean logits labels)
  = eval_scalar feed variables xent (cross_entropy_mean logits labels') ->
  loss_value feed variables xent (loss logits labels g)
  = loss_value feed variables xent (loss logits labels' g).
Proof.
  intros Hshape Hce. rewrite !loss_unfold. cbv zeta.
  destruct (get_shape logits) as [| d ds]; [reflexivity |].
  rewrite <- Hshape.
  destruct (bool_decide (get_shape labels = removelast (d :: ds)));
    [| reflexivity].
  apply add_n_value_congr.
  - rewrite !map_app. reflexivity.
  - rewrite !(eval_sum_app _ _ _ _ [_]), !eval_sum_singleton, Hce.
    reflexivity.
Qed.

Lemma cast_int64_labels (labels : tensor) (s : list Z) (es : list elem)
    (ks : list Z) :
  eval_elems feed labels = Some es ->
  Forall2 denotes es ks ->
  Forall (fun k => 0 <= k < NUM_CLASSES) ks ->
  eval_elems feed (Op Cast [labels] int64 s) = Some (map Int ks).
Proof.
  intros Hes Hden Hrange. cbn [eval_elems]. rewrite Hes.
  cbn [mbind option_bind]. apply mapM_Some_2. clear Hes.
  induction Hden as [| e k es ks He Hden IH]; [constructor |].
  inversion Hrange; subst. cbn [map]. constructor; [| auto].
  apply cast_int64_of_class_index; assumption.
Qed.

(** C10: [loss] casts its labels to 64-bit integers before the
    cross-entropy.  Where [loss] builds (logits with a last dimension,
    labels of the shape of the logits without it, scalar entries in the
    collections), the cross-entropy that it adds to ['losses'] and sums
    takes as labels the cast to [int64] of the labels it was given.
    For labels of any numeric type whose elements stand for class
    indices in [0, NUM_CLASSES), that cast evaluates to exactly those
    indices, so the value of the loss is the sum of the earlier entries
    of ['losses'], of the penalties and of the mean cross-entropy that
    the kernel computes on those integer indices; it is the value of the
    loss on any other labels that stand for the same indices, and this
    covers the float16 labels that [distorted_inputs] produces when
    [use_fp16] is set. *)
Theorem loss_casts_labels_to_int64 (logits labels : tensor) (g : graph)
    (es : list elem) (ks : list Z) :
  eval_elems feed labels = Some es ->
  Forall2 denotes es ks ->
  Forall (fun k => 0 <= k < NUM_CLASSES) ks ->
  get_shape logits <> [] ->
  get_shape labels = removelast (get_shape logits) ->
  Forall (fun t => get_shape t = [])
    (collection g LOSSES ++ collection g REGULARIZATION_LOSSES) ->
  (exists total g' dt,
     loss logits labels g = Ok (total, g') /\
     collection g' LOSSES
     = collection g LOSSES ++ collection g REGULARIZATION_LOSSES
       ++ [Op (Mean [])
             [Op SparseSoftmaxCrossEntropyWithLogits
                 [Op Cast [labels] int64 (get_shape labels); logits]
                 (get_dtype_of logits) (get_shape labels)]
             (get_dtype_of logits) []] /\
     total = Op AddN (collection g' LOSSES) dt [] /\
     eval_elems feed (Op Cast [labels] int64 (get_shape labels))
     = Some (map Int ks) /\
     eval_scalar feed variables xent total
     = (a ← eval_sum feed variables xent (collection g LOSSES);
        p ← eval_sum feed variables xent (collection g REGULARIZATION_LOSSES);
        c ← mean_Qc (xent ks logits);
        Some (a + (p + c))%Qc)) /\
  (forall labels' es',
     eval_elems feed labels' = Some es' ->
     Forall2 denotes es' ks ->
     get_shape labels' = get_shape labels ->
     loss_value feed variables xent (loss logits labels' g)
     = loss_value feed variables xent (loss logits labels g)) /\
  (forall (F : Flags) (g0 : graph),
     use_fp16 F = true -> data_dir F <> EmptyString ->
     feed "labels" = Some (map Int ks) ->
     get_shape labels = [batch_size F] ->
     exists images labels16,
       distorted_inputs F g0 = Ok ((images, labels16), g0) /\
       get_dtype_of labels16 = float16 /\
       loss_value feed variables xent (loss logits labels16 g)
       = loss_value feed variables xent (loss logits labels g)).
Proof.
  intros Hes Hden Hrange Hrank Hshape Hscalars.
  assert (Hsame : forall labels' es',
            eval_elems feed labels' = Some es' ->
            Forall2 denotes es' ks ->
            get_shape labels' = get_shape labels ->
            loss_value feed variables xent (loss logits labels' g)
            = loss_value feed variables xent (loss logits labels g)).
  { intros labels' es' Hes' Hden' Hshape'.
    apply loss_value_congr; [exact Hshape' |].
    rewrite (cross_entropy_mean_value _ _ _ _ Hes Hden Hrange).
    rewrite (cross_entropy_mean_value _ _ _ _ Hes' Hden' Hrange).
    reflexivity. }
  split; [| split; [exact Hsame |]].
  - destruct (loss_builds logits labels g Hrank Hshape Hscalars) as [dt Hloss].
    eexists _, _, dt. split; [exact Hloss |].
    assert (Hlosses :
      collection
        {| collections :=
             <[LOSSES :=
                 (collection g LOSSES ++ collection g REGULARIZATION_LOSSES)
                 ++ [cross_entropy_mean logits labels]]> (collections g);
           num_variables := num_variables g |} LOSSES
      = collection g LOSSES ++ collection g REGULARIZATION_LOSSES
        ++ [cross_entropy_mean logits labels]).
    { unfold collection at 1. cbn [collections].
      rewrite lookup_insert_eq. cbn [default]. symmetry. apply app_assoc. }
    split; [exact Hlosses |].
    split; [rewrite Hlosses, app_assoc; reflexivity |].
    split; [exact (cast_int64_labels _ _ _ _ Hes Hden Hrange) |].
    rewrite eval_scalar_add_n, !eval_sum_app, eval_sum_singleton.
    rewrite (cross_entropy_mean_value _ _ _ _ Hes Hden Hrange).
    destruct (eval_sum feed variables xent (collection g LOSSES)) as [a |];
      [| reflexivity].
    destruct (eval_sum feed variables xent
                (collection g REGULARIZATION_LOSSES)) as [q |];
      [| reflexivity].
    destruct (mean_Qc (xent ks logits)) as [c |]; [| reflexivity].
    cbn. f_equal. ring.
  - intros F g0 Hfp Hdir Hfeed Hbatch. unfold distorted_inputs.
    rewrite bool_decide_eq_false_2 by exact Hdir. rewrite Hfp.
    cbn [cifar10_input_batch]. unfold bind, tf.cast, ret.
    cbn [get_shape get_dtype_of snd].
    eexists _, _. split; [reflexivity |]. split; [reflexivity |].
    apply (Hsame _ (map (fun k => Float (Q2Qc (inject_Z k))) ks)).
    + cbn [eval_elems]. rewrite Hfeed. cbn [mbind option_bind].
      apply mapM_Some_2. clear -Hrange.
      induction Hrange as [| k ks Hk Hrange IH]; [constructor |].
      cbn [map]. constructor; [| exact IH].
      apply cast_float16_of_class_index. exact Hk.
    + clear. induction ks; constructor; [right; reflexivity | assumption].
    + cbn [get_shape]. symmetry. exact Hbatch.
Qed.

End Labels.

Lemma loss_casts_labels_to_int64_example :
  loss_value example_feed example_variables example_xent
    (loss example_logits (Op Cast [example_labels] float16 [4]) example_graph)
  = Some (Q2Qc 1.01) /\
  loss_value example_feed example_variables example_xent
    (loss example_logits example_labels example_graph)
  = Some (Q2Qc 1.01).
Proof.
  destruct (loss_casts_labels_to_int64 example_feed example_variables
              example_xent example_logits
              (Op Cast [example_labels] float16 [4]) example_graph
              (map (fun k => Float (Q2Qc (inject_Z k))) [1; 2; 3; 4])
              [1; 2; 3; 4])
    as ((total & g' & dt & Hloss & _ & _ & _ & Hvalue) & Hsame & _).
  - reflexivity.
  - repeat constructor; right; reflexivity.
  - repeat constructor; unfold NUM_CLASSES; lia.
  - discriminate.
  - reflexivity.
  - cbn. repeat constructor.
  - assert (Hfloat :
      loss_value example_feed example_variables example_xent
        (loss example_logits (Op Cast [example_labels] float16 [4])
           example_graph) = Some (Q2Qc 1.01)).
    { rewrite Hloss. cbn [loss_value]. rewrite Hvalue. by_computation. }
    split; [exact Hfloat |].
    rewrite (Hsame example_labels (map Int [1; 2; 3; 4])); [exact Hfloat | | |].
    + reflexivity.
    + repeat constructor; left; reflexivity.
    + reflexivity.
Defined.

(** ** The learning-rate schedule *)

Lemma betweens_uppers (bs : list Qc) :
  forall (b0 : Qc) (vs : list Qc) (db dv : Qc),
    length vs = S (length bs) ->
    zip_with (fun lh v => (Between lh.1 lh.2, v))
      (zip (removelast (b0 :: bs)) bs) (removelast vs)
    ++ [(Greater (List.last (b0 :: bs) db), List.last vs dv)]
    = uppers b0 bs vs.
Proof.
  induction bs as [| b1 bs IH]; intros b0 vs db dv Hlen.
  - destruct vs as [| v [| ? ?]]; try discriminate. reflexivity.
  - destruct vs as [| v1 [| v2 vs]]; try discriminate.
    cbn [uppers]. rewrite <- (IH b1 (v2 :: vs) db dv) by (simpl in *; lia).
    reflexivity.
Qed.

Lemma pred_fn_pairs_uppers (b0 v0 : Qc) (bs vs : list Qc) :
  length vs = S (length bs) ->
  tf_train.pred_fn_pairs b0 v0 (b0 :: bs) (v0 :: vs)
  ≡ₚ (LessEqual b0, v0) :: uppers b0 bs vs.
Proof.
  intros Hlen. unfold tf_train.pred_fn_pairs. cbn [tail].
  apply Permutation_skip.
  rewrite <- (betweens_uppers bs b0 vs b0 v0 Hlen).
  replace (List.last (v0 :: vs) v0) with (List.last vs v0)
    by (destruct vs; [discriminate | reflexivity]).
  apply Permutation_cons_append.
Qed.

Lemma uppers_none_hold (x : Qc) (bs : list Qc) :
  forall (low : Qc) (vs : list Qc),
    (x <= low)%Qc -> StronglySorted Qclt (low :: bs) ->
    filter (fun pv : predicate * Qc => holds pv.1 x = true) (uppers low bs vs)
    = [].
Proof.
  induction bs as [| b bs IH]; intros low vs Hx Hsorted.
  - destruct vs as [| v [| ? ?]]; try reflexivity.
    cbn [uppers]. rewrite filter_cons_False; [reflexivity |].
    cbn [fst holds]. rewrite bool_decide_eq_false_2; [discriminate |].
    apply Qcle_not_lt. exact Hx.
  - destruct vs as [| v vs]; [reflexivity |]. cbn [uppers].
    apply StronglySorted_inv in Hsorted as [Hsorted Hlow].
    apply Forall_cons in Hlow as [Hb _].
    rewrite filter_cons_False.
    + apply IH; [| exact Hsorted].
      apply Qclt_le_weak. eapply Qcle_lt_trans; eassumption.
    + cbn [fst holds]. rewrite (bool_decide_eq_false_2 (low < x)%Qc);
        [discriminate |].
      apply Qcle_not_lt. exact Hx.
Qed.

Lemma uppers_one_holds (x : Qc) (bs : list Qc) :
  forall (low : Qc) (vs : list Qc),
    (low < x)%Qc -> StronglySorted Qclt (low :: bs) ->
    length vs = S (length bs) ->
    exists p v,
      filter (fun pv : predicate * Qc => holds pv.1 x = true)
        (uppers low bs vs) = [(p, v)]
      /\ step_function x bs vs = Some v.
Proof.
  induction bs as [| b bs IH]; intros low vs Hx Hsorted Hlen.
  - destruct vs as [| v [| ? ?]]; try discriminate.
    exists (Greater low), v. split; [| reflexivity].
    cbn [uppers]. rewrite filter_cons_True; [reflexivity |].
    cbn [fst holds]. apply bool_decide_eq_true_2. exact Hx.
  - destruct vs as [| v vs]; [discriminate |]. cbn [uppers step_function].
    apply StronglySorted_inv in Hsorted as [Hsorted Hlow].
    destruct (decide (x <= b)%Qc) as [Hle | Hgt].
    + exists (Between low b), v.
      rewrite bool_decide_eq_true_2 by exact Hle. split; [| reflexivity].
      rewrite filter_cons_True.
      * rewrite (uppers_none_hold x bs b vs Hle Hsorted). reflexivity.
      * cbn [fst holds]. rewrite !bool_decide_eq_true_2 by assumption.
        reflexivity.
    + rewrite bool_decide_eq_false_2 by exact Hgt.
      apply Qcnot_le_lt in Hgt.
      destruct (IH b vs Hgt Hsorted ltac:(simpl in Hlen; lia))
        as (p & v' & Hfilter & Hstep).
      exists p, v'. split; [| exact Hstep].
      rewrite filter_cons_False; [exact Hfilter |].
      cbn [fst holds].
      rewrite (bool_decide_eq_false_2 (x <= b)%Qc), andb_false_r;
        [discriminate |].
      apply Qclt_not_le. exact Hgt.
Qed.

Lemma case_is_step_function (x b0 v0 : Qc) (bs vs : list Qc) :
  StronglySorted Qclt (b0 :: bs) ->
  length vs = S (length bs) ->
  case (tf_train.pred_fn_pairs b0 v0 (b0 :: bs) (v0 :: vs)) v0 x
  = step_function x (b0 :: bs) (v0 :: vs)
  /\ is_Some (step_function x (b0 :: bs) (v0 :: vs)).
Proof.
  intros Hsorted Hlen.
  assert (Hone : exists p v,
            filter (fun pv : predicate * Qc => holds pv.1 x = true)
              ((LessEqual b0, v0) :: uppers b0 bs vs) = [(p, v)]
            /\ step_function x (b0 :: bs) (v0 :: vs) = Some v).
  { cbn [step_function]. destruct (decide (x <= b0)%Qc) as [Hle | Hgt].
    - exists (LessEqual b0), v0.
      rewrite bool_decide_eq_true_2 by exact Hle. split; [| reflexivity].
      rewrite filter_cons_True
        by (cbn [fst holds]; apply bool_decide_eq_true_2; exact Hle).
      rewrite (uppers_none_hold x bs b0 vs Hle Hsorted). reflexivity.
    - rewrite bool_decide_eq_false_2 by exact Hgt.
      pose proof Hgt as Hlt. apply Qcnot_le_lt in Hlt.
      destruct (uppers_one_holds x bs b0 vs Hlt Hsorted Hlen)
        as (p & v & Hfilter & Hstep).
      exists p, v. split; [| exact Hstep].
      rewrite filter_cons_False; [exact Hfilter |].
      cbn [fst holds]. rewrite bool_decide_eq_false_2 by exact Hgt.
      discriminate. }
  destruct Hone as (p & v & Hfilter & Hstep).
  rewrite Hstep. split; [| eauto].
  unfold case.
  pose proof (filter_Permutation
                (fun pv : predicate * Qc => holds pv.1 x = true) _ _
                (pred_fn_pairs_uppers b0 v0 bs vs Hlen)) as Hperm.
  rewrite Hfilter in Hperm. apply Permutation_singleton_r in Hperm.
  rewrite Hperm. reflexivity.
Qed.

(** ** What [train] builds *)

Lemma parse_all_mapM (f : string -> option Qc) (l : list string) (g : graph) :
  parse_all f l g
  = match mapM f l with
    | Some qs => Ok (qs, g)
    | None => Raise ValueError
    end.
Proof.
  induction l as [| x l IH]; [reflexivity |].
  cbn [parse_all mapM]. destruct (f x) as [q |]; [| reflexivity].
  unfold bind. rewrite IH. cbn.
  destruct (mapM f l); reflexivity.
Qed.

Lemma update_node_names (update_ops : list tensor) :
  map name
    (imap (fun k u => {| name := update_op k; kind := Update u;
                         data_inputs := []; control_inputs := [] |})
          update_ops)
  = map update_op (seq 0 (length update_ops)).
Proof.
  change (map name ?l) with (name <$> l). rewrite fmap_imap.
  change (map update_op ?l) with (update_op <$> l).
  rewrite <- (imap_seq_0 update_ops update_op). reflexivity.
Qed.

Section TrainBuilds.

Variable F : Flags.
Variable N : positive.
Variable float np_float64 : string -> option Qc.
Variable total_loss global_step : tensor.

Lemma train_inv (g g' : graph) (ops : list op_node) :
  train F N float np_float64 total_loss global_step g = Ok (ops, g') ->
  exists b0 bs v0 vs,
    batch_size F <> 0 /\
    mapM np_float64 (split ","%char (lr_boundaries F)) = Some (b0 :: bs) /\
    mapM float (split ","%char (lr_values F)) = Some (v0 :: vs) /\
    length vs = S (length bs) /\
    g' = g /\
    ops = train_ops
            (PiecewiseConstant global_step (batch_size F) N
               (tf_train.pred_fn_pairs b0 v0 (b0 :: bs) (v0 :: vs)) v0)
            (default [] (collections g !! LOSSES)) total_loss global_step
            (default [] (collections g !! TRAINABLE_VARIABLES))
            (default [] (collections g !! UPDATE_OPS)).
Proof.
  unfold train. unfold bind at 1.
  destruct (batch_size F =? 0) eqn:Hbatch; [discriminate |].
  unfold ret at 1. unfold bind at 1. rewrite parse_all_mapM.
  destruct (mapM np_float64 _) as [boundaries |] eqn:Hb; [| discriminate].
  unfold bind at 1. rewrite parse_all_mapM.
  destruct (mapM float _) as [values |] eqn:Hv; [| discriminate].
  unfold bind at 1.
  destruct (length boundaries + 1 =? length values)%nat eqn:Hlen;
    [| discriminate].
  unfold ret at 1. unfold bind at 1. unfold tf_train.piecewise_constant.
  apply Nat.eqb_eq in Hlen.
  replace (negb (length boundaries =? length values - 1)%nat
           || (length values =? 0)%nat) with false
    by (symmetry; apply orb_false_iff; split;
        [apply negb_false_iff, Nat.eqb_eq | apply Nat.eqb_neq]; lia).
  destruct boundaries as [| b0 bs].
  { apply mapM_Some_1 in Hb. inversion Hb as [Hsplit |].
    destruct (lr_boundaries F) as [| c s]; [discriminate |].
    cbn [split] in Hsplit.
    destruct (Ascii.eqb c ","); [discriminate |].
    destruct (split "," s); discriminate. }
  destruct values as [| v0 vs]; [simpl in Hlen; lia |].
  unfold ret at 1. unfold bind at 1. unfold _add_loss_summaries, bind.
  unfold tf.get_collection at 1. unfold ret at 1.
  unfold tf_train.compute_gradients, bind, tf.trainable_variables.
  unfold tf.get_collection at 1.
  destruct (default [] (collections g !! TRAINABLE_VARIABLES))
    as [| var vars] eqn:Hvars; [discriminate |].
  unfold ret at 1. unfold tf_train.apply_gradients. cbn [kind].
  destruct (existsb _ (var :: vars)); [| discriminate].
  unfold ret at 1. unfold tf.get_collection. rewrite Hvars.
  unfold ret. intros Heq. injection Heq as <- <-.
  exists b0, bs, v0, vs. repeat split; try assumption.
  - intros H0. rewrite H0 in Hbatch. discriminate.
  - simpl in Hlen. lia.
  - unfold train_ops. cbn [name]. rewrite update_node_names. reflexivity.
Qed.

End TrainBuilds.

Section Schedule.

Variable F : Flags.
Variable N : positive.
Variable float np_float64 : string -> option Qc.
Variable total_loss global_step : tensor.

Lemma train_raises_on_length_mismatch (g : graph) :
  length (split ","%char (lr_values F))
  <> (length (split ","%char (lr_boundaries F)) + 1)%nat ->
  exists e,
    train F N float np_float64 total_loss global_step g = Raise e /\
    (batch_size F <> 0 ->
     is_Some (mapM np_float64 (split ","%char (lr_boundaries F))) ->
     is_Some (mapM float (split ","%char (lr_values F))) ->
     e = AssertionError).
Proof.
  intros Hlen. unfold train. unfold bind at 1.
  destruct (batch_size F =? 0) eqn:Hbatch.
  { exists ZeroDivisionError. split; [reflexivity |]. intros H0. lia. }
  unfold ret at 1. unfold bind at 1. rewrite parse_all_mapM.
  destruct (mapM np_float64 _) as [boundaries |] eqn:Hb.
  2:{ exists ValueError. split; [reflexivity |].
      intros _ [? Hsome]. discriminate. }
  unfold bind at 1. rewrite parse_all_mapM.
  destruct (mapM float _) as [values |] eqn:Hv.
  2:{ exists ValueError. split; [reflexivity |].
      intros _ _ [? Hsome]. discriminate. }
  apply length_mapM in Hb. apply length_mapM in Hv.
  unfold bind at 1.
  destruct (length boundaries + 1 =? length values)%nat eqn:Heq.
  { apply Nat.eqb_eq in Heq. lia. }
  exists AssertionError. split; reflexivity.
Qed.

Lemma num_epoch_counter (truediv : Z -> Z -> Qc) (counter : tensor)
    (bits step batch : Z) (examples : positive) :
  counter_bits counter = Some bits ->
  num_epoch truediv counter step batch examples
  = truediv (wrap bits true (step * batch)) (Z.pos examples).
Proof.
  unfold counter_bits, num_epoch.
  destruct (get_dtype_of counter); try discriminate;
    intros H; injection H as <-; reflexivity.
Qed.

Lemma step_function_ext (x y : Qc) (boundaries : list Qc) :
  forall values,
    Forall (fun b => (x <= b)%Qc <-> (y <= b)%Qc) boundaries ->
    step_function x boundaries values = step_function y boundaries values.
Proof.
  induction boundaries as [| b bs IH]; intros values Hall.
  - reflexivity.
  - apply Forall_cons in Hall as [Hb Hall].
    destruct values as [| v vs]; [reflexivity |]. cbn [step_function].
    rewrite (bool_decide_ext _ _ Hb), (IH vs Hall). reflexivity.
Qed.

Lemma same_side_of_a_boundary (r q low high b : Qc) :
  (low <= r)%Qc -> (r <= high)%Qc -> (low <= q)%Qc -> (q <= high)%Qc ->
  (high <= b)%Qc \/ (b < low)%Qc ->
  ((q <= b)%Qc <-> (r <= b)%Qc).
Proof.
  intros Hr1 Hr2 Hq1 Hq2 [Hfar | Hfar].
  - split; intros _; apply (Qcle_trans _ high); assumption.
  - split; intros Hle; exfalso; apply (Qclt_not_le _ _ Hfar).
    + apply (Qcle_trans _ q); assumption.
    + apply (Qcle_trans _ r); assumption.
Qed.

(** C6: [train] raises as soon as the number of learning-rate values is
    not the number of boundaries plus one (an [AssertionError] when the
    batch size is not zero and every entry is a number).  When [train]
    returns, with a counter of type int32 or int64 and increasing
    boundaries, the learning rate of a step is the piecewise-constant
    function, over the boundaries and values of the flags, of the number
    of epochs that the runtime computes: the float64 quotient of
    [global_step * batch_size], taken in the type of the counter, by the
    number of examples per epoch.  Where that product does not wrap
    around, and the quotient computed and the exact ratio
    [global_step * batch_size / examples_per_epoch] lie in an interval
    that holds no boundary, it is the piecewise-constant function of
    the exact ratio. *)
Theorem train_learning_rate_schedule (g : graph) :
  (length (split ","%char (lr_values F))
   <> (length (split ","%char (lr_boundaries F)) + 1)%nat ->
   exists e,
     train F N float np_float64 total_loss global_step g = Raise e /\
     (batch_size F <> 0 ->
      is_Some (mapM np_float64 (split ","%char (lr_boundaries F))) ->
      is_Some (mapM float (split ","%char (lr_values F))) ->
      e = AssertionError)) /\
  (forall ops g',
     train F N float np_float64 total_loss global_step g = Ok (ops, g') ->
     exists boundaries values node,
       mapM np_float64 (split ","%char (lr_boundaries F)) = Some boundaries /\
       mapM float (split ","%char (lr_values F)) = Some values /\
       length values = S (length boundaries) /\
       find_op ops lr = Some node /\
       forall truediv evaluate gradient batch_statistic (s : state)
              (bits : Z),
         counter_bits global_step = Some bits ->
         StronglySorted Qclt boundaries ->
         (exists rate,
            step_function
              (truediv
                 (wrap bits true (global_step_value s * batch_size F))
                 (Z.pos N))
              boundaries values = Some rate /\
            exec truediv evaluate gradient batch_statistic (kind node) s
            = Some (set_lr_value s rate)) /\
         (forall low high : Qc,
            wrap bits true (global_step_value s * batch_size F)
            = global_step_value s * batch_size F ->
            (low <= Q2Qc (global_step_value s * batch_size F # N))%Qc ->
            (Q2Qc (global_step_value s * batch_size F # N) <= high)%Qc ->
            (low <= truediv (global_step_value s * batch_size F)%Z (Z.pos N))%Qc ->
            (truediv (global_step_value s * batch_size F)%Z (Z.pos N) <= high)%Qc ->
            Forall (fun b => (high <= b)%Qc \/ (b < low)%Qc) boundaries ->
            exists rate,
              step_function
                (Q2Qc (global_step_value s * batch_size F # N))
                boundaries values = Some rate /\
              exec truediv evaluate gradient batch_statistic (kind node) s
              = Some (set_lr_value s rate))).
Proof.
  split; [apply train_raises_on_length_mismatch |].
  intros ops g' Htrain.
  destruct (train_inv F N float np_float64 total_loss global_step g g' ops
              Htrain)
    as (b0 & bs & v0 & vs & _ & Hb & Hv & Hlen & _ & ->).
  eexists (b0 :: bs), (v0 :: vs), _.
  split; [exact Hb |]. split; [exact Hv |].
  split; [simpl; rewrite Hlen; reflexivity |].
  split; [reflexivity |].
  intros truediv evaluate gradient batch_statistic s bits Hint Hsorted.
  cbn [kind exec]. rewrite (num_epoch_counter _ _ _ _ _ _ Hint).
  destruct (case_is_step_function
              (truediv (wrap bits true (global_step_value s * batch_size F))
                 (Z.pos N))
              b0 v0 bs vs Hsorted Hlen) as [Hcase [rate Hrate]].
  split.
  - exists rate. split; [exact Hrate |]. rewrite Hcase, Hrate. reflexivity.
  - intros low high Hwrap Hr1 Hr2 Hq1 Hq2 Hfar. exists rate. split.
    + rewrite <- Hrate, Hwrap. symmetry. apply step_function_ext.
      eapply Forall_impl; [exact Hfar |].
      intros b Hb'. apply (same_side_of_a_boundary _ _ low high); assumption.
    + rewrite Hcase, Hrate. reflexivity.
Qed.

End Schedule.

(** ** The operations of a training step *)

Lemma find_op_name (ops : list op_node) (n : op_name) (o : op_node) :
  find_op ops n = Some o -> o ∈ ops /\ name o = n.
Proof.
  unfold find_op. intros H. apply find_some in H as [Hin Hname].
  split; [apply list_elem_of_In; exact Hin |].
  apply bool_decide_eq_true in Hname. exact Hname.
Qed.

Lemma find_op_intro (ops : list op_node) (o : op_node) :
  NoDup (map name ops) -> o ∈ ops -> find_op ops (name o) = Some o.
Proof.
  unfold find_op. induction ops as [| o' ops IH]; intros Hnodup Hin.
  - apply elem_of_nil in Hin. contradiction.
  - cbn [map] in Hnodup. apply NoDup_cons in Hnodup as [Hfresh Hnodup].
    cbn [find]. destruct (decide (name o' = name o)) as [Heq | Hne].
    + rewrite bool_decide_eq_true_2 by exact Heq.
      apply elem_of_cons in Hin as [-> | Hin]; [reflexivity |].
      exfalso. apply Hfresh. rewrite Heq.
      change (map name ops) with (name <$> ops).
      apply list_elem_of_fmap. exists o. auto.
    + rewrite bool_decide_eq_false_2 by exact Hne.
      apply elem_of_cons in Hin as [-> | Hin]; [contradiction |].
      apply IH; assumption.
Qed.

Section TrainOps.

Variable lr_kind : op_kind.
Variable losses : list tensor.
Variable total_loss global_step : tensor.
Variable var_list update_ops : list tensor.

Abbreviation ops :=
  (train_ops lr_kind losses total_loss global_step var_list update_ops).

Lemma train_ops_names :
  map name ops
  = [lr; loss_averages_op; grads; apply_gradient_op; variables_averages_op]
    ++ map update_op (seq 0 (length update_ops)) ++ [train_op].
Proof.
  unfold train_ops. rewrite !map_app, update_node_names. reflexivity.
Qed.

Lemma train_ops_NoDup : NoDup (map name ops).
Proof.
  rewrite train_ops_names. apply NoDup_app. split; [| split].
  - by_computation.
  - intros n Hn Hn'. apply elem_of_app in Hn' as [Hn' | Hn'].
    + change (map update_op ?l) with (update_op <$> l) in Hn'.
      apply list_elem_of_fmap in Hn' as (k & -> & _).
      repeat (apply elem_of_cons in Hn as [Hn | Hn]; [discriminate |]).
      apply elem_of_nil in Hn. contradiction.
    + apply list_elem_of_singleton in Hn'. subst n.
      repeat (apply elem_of_cons in Hn as [Hn | Hn]; [discriminate |]).
      apply elem_of_nil in Hn. contradiction.
  - apply NoDup_app. split; [| split].
    + change (map update_op ?l) with (update_op <$> l).
      apply NoDup_fmap_2; [| apply NoDup_seq].
      intros a b Hab. injection Hab as ->. reflexivity.
    + intros n Hn Hn'. apply list_elem_of_singleton in Hn'. subst n.
      change (map update_op ?l) with (update_op <$> l) in Hn.
      apply list_elem_of_fmap in Hn as (k & Hk & _). discriminate.
    + apply NoDup_singleton.
Qed.

Lemma train_op_of_elem (n : op_name) (o : op_node) :
  train_op_of lr_kind losses total_loss global_step var_list update_ops n
  = Some o
  <-> o ∈ ops /\ name o = n.
Proof.
  unfold train_ops. split.
  - intros H. destruct n; cbn [train_op_of] in H;
      try (injection H as <-; split; [| reflexivity];
           rewrite ?elem_of_app, ?elem_of_cons; tauto).
    destruct (update_ops !! k) as [u |] eqn:Hk; [| discriminate].
    injection H as <-. split; [| reflexivity].
    apply elem_of_app. right. apply elem_of_app. left.
    apply elem_of_lookup_imap. exists k, u. auto.
  - intros [Hin Hname].
    apply elem_of_app in Hin as [Hin | Hin].
    { repeat (apply elem_of_cons in Hin as [-> | Hin];
              [cbn [name] in Hname; subst n; reflexivity |]).
      apply elem_of_nil in Hin. contradiction. }
    apply elem_of_app in Hin as [Hin | Hin].
    { apply elem_of_lookup_imap in Hin as (k & u & -> & Hk).
      cbn [name] in Hname. subst n. cbn [train_op_of]. rewrite Hk.
      reflexivity. }
    apply list_elem_of_singleton in Hin. subst o.
    cbn [name] in Hname. subst n. reflexivity.
Qed.

Lemma find_train_op (n : op_name) :
  find_op ops n
  = train_op_of lr_kind losses total_loss global_step var_list update_ops n.
Proof.
  destruct (train_op_of lr_kind losses total_loss global_step var_list
              update_ops n) as [o |] eqn:Ho.
  - apply train_op_of_elem in Ho as [Hin <-].
    apply find_op_intro; [apply train_ops_NoDup | exact Hin].
  - destruct (find_op ops n) as [o |] eqn:Hfind; [| reflexivity].
    apply find_op_name in Hfind. apply train_op_of_elem in Hfind.
    congruence.
Qed.

End TrainOps.

(** ** Schedules of a training step *)

Lemma respects_app (ops : list op_node) (l1 l2 : list op_name) :
  forall done,
    respects ops done (l1 ++ l2)
    = respects ops done l1 && respects ops (rev l1 ++ done) l2.
Proof.
  induction l1 as [| n l1 IH]; intros done; [reflexivity |].
  cbn [app respects rev]. destruct (find_op ops n) as [o |]; [| reflexivity].
  rewrite IH, <- app_assoc. cbn [app].
  rewrite !andb_assoc. reflexivity.
Qed.

Arguments case : simpl never.
Arguments apply_variable_averages : simpl never.
Arguments apply_gradient_descent : simpl never.
Arguments gradients : simpl never.
Arguments moving_average : simpl never.
Arguments effective_decay : simpl never.
Arguments num_epoch : simpl never.

Section Steps.

Variable truediv : Z -> Z -> Qc.
Variable evaluate : tensor -> gmap nat (list Qc) -> Qc.
Variable gradient : tensor -> gmap nat (list Qc) -> nat -> list Qc.
Variable batch_statistic : tensor -> gmap nat (list Qc) -> list Qc.

Lemma exec_update_inv (u : tensor) (st st' : state) :
  exec truediv evaluate gradient batch_statistic (Update u) st = Some st' ->
  exists id w,
    update_target u = Some id /\
    var_values st !! id = Some w /\
    st' = set_var_values st
            (<[id := moving_average
                       (match u with
                        | Op (AssignMovingAvg m) _ _ _ => m
                        | _ => Q2Qc 0
                        end) w (batch_statistic u (var_values st))]>
               (var_values st)).
Proof.
  cbn [exec]. destruct u as [| | o inputs dt sh]; try discriminate.
  destruct o; try discriminate.
  destruct inputs as [| [| id ? ? |] ?]; try discriminate.
  destruct (var_values st !! id) as [w |] eqn:Hw; [| discriminate].
  cbn [mbind option_bind]. intros H. injection H as <-.
  exists id, w. auto.
Qed.

Variable global_step : tensor.
Variable batch : Z.
Variable N : positive.
Variable pairs : list (predicate * Qc).
Variable default_rate : Qc.
Variable losses : list tensor.
Variable total_loss : tensor.
Variable var_list update_ops : list tensor.

Abbreviation ops :=
  (train_ops (PiecewiseConstant global_step batch N pairs default_rate)
     losses total_loss global_step var_list update_ops).

Lemma respects_updates (m : nat) :
  forall (k : nat) (done : list op_name),
    (k + m)%nat = length update_ops ->
    apply_gradient_op ∈ done ->
    variables_averages_op ∈ done ->
    train_op ∉ done ->
    (forall j, (j < k)%nat -> update_op j ∈ done) ->
    (forall j, (k <= j)%nat -> update_op j ∉ done) ->
    respects ops done (map update_op (seq k m) ++ [train_op]) = true.
Proof.
  induction m as [| m IH]; intros k done Hk Ha Hv Ht Hbelow Habove.
  - cbn [seq map app respects]. rewrite find_train_op. cbn [train_op_of].
    cbn [data_inputs control_inputs]. rewrite andb_true_r.
    apply andb_true_iff. split.
    + apply forallb_forall. intros n Hn. apply bool_decide_eq_true.
      apply list_elem_of_In in Hn. cbn [app] in Hn.
      apply elem_of_cons in Hn as [-> | Hn]; [exact Ha |].
      apply elem_of_cons in Hn as [-> | Hn]; [exact Hv |].
      change (map update_op ?l) with (update_op <$> l) in Hn.
      apply list_elem_of_fmap in Hn as (j & -> & Hj).
      apply elem_of_seq in Hj. apply Hbelow. lia.
    + apply negb_true_iff, bool_decide_eq_false. exact Ht.
  - cbn [seq map app respects]. rewrite find_train_op. cbn [train_op_of].
    destruct (lookup_lt_is_Some_2 update_ops k ltac:(lia)) as [u Hu].
    rewrite Hu. cbn [fmap option_fmap option_map data_inputs control_inputs
                     app forallb andb].
    rewrite bool_decide_eq_false_2 by (apply Habove; lia). cbn [negb].
    apply IH.
    + lia.
    + apply elem_of_cons. right. exact Ha.
    + apply elem_of_cons. right. exact Hv.
    + intros Hin. apply elem_of_cons in Hin as [Hin | Hin];
        [discriminate | contradiction].
    + intros j Hj. apply elem_of_cons.
      destruct (decide (j = k)) as [-> | Hne]; [left; reflexivity |].
      right. apply Hbelow. lia.
    + intros j Hj Hin. apply elem_of_cons in Hin as [Hin | Hin].
      * injection Hin as ->. lia.
      * apply (Habove j); [lia | exact Hin].
Qed.

Lemma elem_of_schedule_tail (n : nat) :
  train_op ∈ map update_op (seq 0 n) ++ [train_op].
Proof. apply elem_of_app. right. apply list_elem_of_singleton. reflexivity. Qed.

Lemma schedule_averages_first_valid :
  valid_schedule ops train_op (schedule_averages_first (length update_ops))
  = true.
Proof.
  unfold valid_schedule, schedule_averages_first.
  apply andb_true_iff. split.
  - rewrite respects_app. apply andb_true_iff. split.
    + cbn [respects]. rewrite !find_train_op. reflexivity.
    + cbn [rev app]. apply respects_updates; try reflexivity.
      * by_computation.
      * by_computation.
      * intros Hin. repeat (apply elem_of_cons in Hin as [Hin | Hin];
                            [discriminate |]).
        apply elem_of_nil in Hin. exact Hin.
      * intros j Hj. lia.
      * intros j _ Hin. repeat (apply elem_of_cons in Hin as [Hin | Hin];
                                [discriminate |]).
        apply elem_of_nil in Hin. exact Hin.
  - apply bool_decide_eq_true. apply elem_of_app. right.
    apply elem_of_schedule_tail.
Qed.

Lemma schedule_averages_last_valid :
  valid_schedule ops train_op (schedule_averages_last (length update_ops))
  = true.
Proof.
  unfold valid_schedule, schedule_averages_last.
  apply andb_true_iff. split.
  - rewrite respects_app. apply andb_true_iff. split.
    + cbn [respects]. rewrite !find_train_op. reflexivity.
    + cbn [rev app]. apply respects_updates; try reflexivity.
      * by_computation.
      * by_computation.
      * intros Hin. repeat (apply elem_of_cons in Hin as [Hin | Hin];
                            [discriminate |]).
        apply elem_of_nil in Hin. exact Hin.
      * intros j Hj. lia.
      * intros j _ Hin. repeat (apply elem_of_cons in Hin as [Hin | Hin];
                                [discriminate |]).
        apply elem_of_nil in Hin. exact Hin.
  - apply bool_decide_eq_true. apply elem_of_app. right.
    apply elem_of_schedule_tail.
Qed.

Lemma run_updates_preserve (names : list op_name) :
  forall st st',
    Forall (fun n => n = train_op \/ exists k, n = update_op k) names ->
    run_schedule truediv evaluate gradient batch_statistic ops names st = Some st' ->
    variable_shadows st' = variable_shadows st.
Proof.
  induction names as [| n names IH]; intros st st' Hnames Hrun.
  - injection Hrun as <-. reflexivity.
  - apply Forall_cons in Hnames as [Hn Hnames].
    cbn [run_schedule] in Hrun. rewrite find_train_op in Hrun.
    destruct Hn as [-> | [k ->]]; cbn [train_op_of] in Hrun.
    + cbn [mbind option_bind kind exec] in Hrun. apply (IH _ _ Hnames Hrun).
    + destruct (update_ops !! k) as [u |]; [| discriminate].
      cbn [fmap option_fmap option_map mbind option_bind kind] in Hrun.
      destruct (exec truediv evaluate gradient batch_statistic (Update u) st)
        as [st1 |] eqn:Hexec; [| discriminate].
      cbn [mbind option_bind] in Hrun.
      rewrite (IH _ _ Hnames Hrun).
      apply exec_update_inv in Hexec as (id & w & _ & _ & ->). reflexivity.
Qed.

Lemma schedule_tail_names (n : nat) :
  Forall (fun m => m = train_op \/ exists k, m = update_op k)
    (map update_op (seq 0 n) ++ [train_op]).
Proof.
  apply Forall_app. split.
  - apply Forall_forall. intros m Hm.
    change (map update_op ?l) with (update_op <$> l) in Hm.
    apply list_elem_of_fmap in Hm as (k & -> & _). right. eauto.
  - repeat constructor.
Qed.

Lemma run_averages_first (s s' : state) :
  run truediv evaluate gradient batch_statistic ops train_op
    (schedule_averages_first (length update_ops)) s = Some s' ->
  apply_variable_averages
    (effective_decay MOVING_AVERAGE_DECAY (global_step_value s))
    var_list (var_values s) (variable_shadows s)
  = Some (variable_shadows s').
Proof.
  unfold run. rewrite schedule_averages_first_valid.
  unfold schedule_averages_first. cbn [app run_schedule].
  rewrite !find_train_op. cbn [train_op_of mbind option_bind kind exec].
  simpl.
  destruct (case pairs default_rate _) as [rate |]; [| discriminate].
  simpl.
  destruct (apply_variable_averages _ var_list _ _) as [sh |] eqn:Hsh;
    [| discriminate].
  simpl.
  destruct (apply_gradient_descent _ _ _) as [vs |]; [| discriminate].
  cbn [mbind option_bind]. intros Hrun.
  apply run_updates_preserve in Hrun; [| apply schedule_tail_names].
  rewrite Hrun. reflexivity.
Qed.

Lemma run_averages_last (s s' : state) :
  run truediv evaluate gradient batch_statistic ops train_op
    (schedule_averages_last (length update_ops)) s = Some s' ->
  exists rate updated,
    case pairs default_rate (num_epoch truediv global_step (global_step_value s) batch N)
    = Some rate /\
    apply_gradient_descent rate
      (gradients gradient total_loss var_list (var_values s)) (var_values s)
    = Some updated /\
    apply_variable_averages
      (effective_decay MOVING_AVERAGE_DECAY (global_step_value s + 1))
      var_list updated (variable_shadows s)
    = Some (variable_shadows s').
Proof.
  unfold run. rewrite schedule_averages_last_valid.
  unfold schedule_averages_last. cbn [app run_schedule].
  rewrite !find_train_op. cbn [train_op_of mbind option_bind kind exec].
  simpl.
  destruct (case pairs default_rate _) as [rate |] eqn:Hrate; [| discriminate].
  simpl.
  destruct (apply_gradient_descent _ _ _) as [vs |] eqn:Hvs; [| discriminate].
  simpl.
  destruct (apply_variable_averages _ var_list _ _) as [sh |] eqn:Hsh;
    [| discriminate].
  cbn [mbind option_bind]. intros Hrun.
  apply run_updates_preserve in Hrun; [| apply schedule_tail_names].
  exists rate, vs. repeat split; try assumption.
  rewrite Hrun. exact Hsh.
Qed.

End Steps.

(** ** Moving averages of the variables *)

Lemma example_train_builds :
  train default_flags example_examples_per_epoch decimal decimal
    example_total_loss example_global_step example_loss_graph
  = Ok (example_ops default_flags, example_loss_graph).
Proof. vm_compute. reflexivity. Qed.

(** C5, as the code has it: the train op takes both the application of
    the gradients and the update of the moving averages of the variables
    (nominal decay 0.9999) as control inputs, and the update of the
    moving averages has no data or control input of its own, so nothing
    orders it after the application of the gradients.  Both orders are
    schedules of a training step: when the averages run first they are
    computed from the values of the variables before the update, when
    they run last from the values after it. *)
Theorem variable_averages_are_not_ordered (F : Flags) (N : positive)
    (float np_float64 : string -> option Qc)
    (total_loss global_step : tensor) (g g' : graph) (ops : list op_node) :
  train F N float np_float64 total_loss global_step g = Ok (ops, g') ->
  (exists node,
     find_op ops train_op = Some node /\
     apply_gradient_op ∈ control_inputs node /\
     variables_averages_op ∈ control_inputs node) /\
  (exists node,
     find_op ops variables_averages_op = Some node /\
     kind node
     = VariableAverages MOVING_AVERAGE_DECAY global_step
         (default [] (collections g !! TRAINABLE_VARIABLES)) /\
     data_inputs node = [] /\ control_inputs node = []) /\
  valid_schedule ops train_op
    (schedule_averages_first
       (length (default [] (collections g !! UPDATE_OPS)))) = true /\
  valid_schedule ops train_op
    (schedule_averages_last
       (length (default [] (collections g !! UPDATE_OPS)))) = true /\
  (forall truediv evaluate gradient batch_statistic (s s' : state),
     run truediv evaluate gradient batch_statistic ops train_op
       (schedule_averages_first
          (length (default [] (collections g !! UPDATE_OPS)))) s = Some s' ->
     apply_variable_averages
       (effective_decay MOVING_AVERAGE_DECAY (global_step_value s))
       (default [] (collections g !! TRAINABLE_VARIABLES))
       (var_values s) (variable_shadows s)
     = Some (variable_shadows s')) /\
  (forall truediv evaluate gradient batch_statistic (s s' : state),
     run truediv evaluate gradient batch_statistic ops train_op
       (schedule_averages_last
          (length (default [] (collections g !! UPDATE_OPS)))) s = Some s' ->
     exists rate updated,
       apply_gradient_descent rate
         (gradients gradient total_loss
            (default [] (collections g !! TRAINABLE_VARIABLES))
            (var_values s))
         (var_values s)
       = Some updated /\
       apply_variable_averages
         (effective_decay MOVING_AVERAGE_DECAY (global_step_value s + 1))
         (default [] (collections g !! TRAINABLE_VARIABLES))
         updated (variable_shadows s)
       = Some (variable_shadows s')).
Proof.
  intros Htrain.
  destruct (train_inv F N float np_float64 total_loss global_step g g' ops
              Htrain)
    as (b0 & bs & v0 & vs & _ & _ & _ & _ & _ & ->).
  split; [| split; [| split; [| split; [| split]]]].
  - rewrite find_train_op. cbn [train_op_of]. eexists.
    split; [reflexivity |]. cbn [control_inputs app].
    split; [apply elem_of_cons; left; reflexivity |].
    apply elem_of_cons. right. apply elem_of_cons. left. reflexivity.
  - rewrite find_train_op. cbn [train_op_of]. eexists.
    split; [reflexivity |]. repeat split.
  - apply schedule_averages_first_valid.
  - apply schedule_averages_last_valid.
  - intros truediv evaluate gradient batch_statistic s s' Hrun.
    apply (run_averages_first _ _ _ _ _ _ _ _ _ _ _ _ _ _ _ Hrun).
  - intros truediv evaluate gradient batch_statistic s s' Hrun.
    destruct (run_averages_last _ _ _ _ _ _ _ _ _ _ _ _ _ _ _ Hrun)
      as (rate & updated & _ & Hupdated & Haverages).
    exists rate, updated. split; assumption.
Qed.

Lemma variable_averages_are_not_ordered_example :
  valid_schedule (example_ops default_flags) train_op
    (schedule_averages_first 1) = true /\
  valid_schedule (example_ops default_flags) train_op
    (schedule_averages_last 1) = true.
Proof.
  destruct (variable_averages_are_not_ordered default_flags
              example_examples_per_epoch decimal decimal example_total_loss
              example_global_step example_loss_graph example_loss_graph
              (example_ops default_flags) example_train_builds)
    as (_ & _ & Hfirst & Hlast & _).
  split; [exact Hfirst | exact Hlast].
Defined.

(** C5, as stated, fails: in the schedule of a training step in which
    the moving averages run before the gradients are applied, the shadow
    of the weights (1, 2), which starts at (0, 0), becomes (0.9, 1.8),
    the average of the values before the update, while the update takes
    the weights to (0.9, 1.9), whose average would be another one. *)
Lemma variable_averages_may_use_old_values :
  valid_schedule (example_ops default_flags) train_op
    (schedule_averages_first 1) = true /\
  (run example_truediv example_evaluate example_gradient example_batch_statistic
     (example_ops default_flags) train_op (schedule_averages_first 1)
     example_state
   ≫= fun s' => variable_shadows s' !! 0%nat)
  = Some [Q2Qc 0.9; Q2Qc 1.8] /\
  (run example_truediv example_evaluate example_gradient example_batch_statistic
     (example_ops default_flags) train_op (schedule_averages_first 1)
     example_state
   ≫= fun s' => var_values s' !! 0%nat)
  = Some [Q2Qc 0.9; Q2Qc 1.9] /\
  moving_average (effective_decay MOVING_AVERAGE_DECAY 0)
    [Q2Qc 0; Q2Qc 0] [Q2Qc 1; Q2Qc 2]
  = [Q2Qc 0.9; Q2Qc 1.8] /\
  moving_average (effective_decay MOVING_AVERAGE_DECAY 0)
    [Q2Qc 0; Q2Qc 0] [Q2Qc 0.9; Q2Qc 1.9]
  = [Q2Qc 0.81; Q2Qc 1.71] /\
  moving_average (effective_decay MOVING_AVERAGE_DECAY 1)
    [Q2Qc 0; Q2Qc 0] [Q2Qc 0.9; Q2Qc 1.9]
  = [Q2Qc (81 # 110); Q2Qc (171 # 110)].
Proof. repeat split; by_computation. Qed.

Lemma train_learning_rate_schedule_example :
  train (with_lr default_flags "150,225" "0.1,0.01")
    example_examples_per_epoch decimal decimal example_total_loss
    example_global_step example_loss_graph
  = Raise AssertionError /\
  exists node,
    find_op (example_ops default_flags) lr = Some node /\
    exec float64_truediv example_evaluate example_gradient
      example_batch_statistic (kind node)
      (set_global_step example_state 58593)
    = Some (set_lr_value (set_global_step example_state 58593) (Q2Qc 0.1)) /\
    exec float64_mul_reciprocal example_evaluate example_gradient
      example_batch_statistic (kind node)
      (set_global_step example_state 58594)
    = Some (set_lr_value (set_global_step example_state 58594) (Q2Qc 0.01)).
Proof.
  split.
  - destruct (proj1 (train_learning_rate_schedule
                       (with_lr default_flags "150,225" "0.1,0.01")
                       example_examples_per_epoch decimal decimal
                       example_total_loss example_global_step
                       example_loss_graph)
                ltac:(vm_compute; discriminate))
      as (e & Hraise & He).
    rewrite Hraise. f_equal. apply He.
    + discriminate.
    + eexists. vm_compute. reflexivity.
    + eexists. vm_compute. reflexivity.
  - destruct (proj2 (train_learning_rate_schedule default_flags
                       example_examples_per_epoch decimal decimal
                       example_total_loss example_global_step
                       example_loss_graph)
                _ _ example_train_builds)
      as (boundaries & values & node & Hb & Hv & _ & Hfind & Hexec).
    exists node. split; [exact Hfind |].
    assert (Hbs : boundaries = [Q2Qc 150; Q2Qc 225]).
    { apply (inj Some). rewrite <- Hb. by_computation. }
    assert (Hvs : values = [Q2Qc 0.1; Q2Qc 0.01; Q2Qc 0.001]).
    { apply (inj Some). rewrite <- Hv. by_computation. }
    subst boundaries values.
    assert (Hsorted : StronglySorted Qclt [Q2Qc 150; Q2Qc 225])
      by (repeat constructor; by_computation).
    split.
    + destruct (Hexec float64_truediv example_evaluate example_gradient
                  example_batch_statistic
                  (set_global_step example_state 58593) 64 eq_refl
                  Hsorted)
        as [(rate & Hstep & Hrun) _].
      rewrite Hrun. f_equal. f_equal.
      apply (inj Some). rewrite <- Hstep. by_computation.
    + destruct (Hexec float64_mul_reciprocal example_evaluate example_gradient
                  example_batch_statistic
                  (set_global_step example_state 58594) 64 eq_refl
                  Hsorted)
        as [_ Hexact].
      destruct (Hexact (Q2Qc 150.0001) (Q2Qc 150.001))
        as (rate & Hstep & Hrun).
      * reflexivity.
      * by_computation.
      * by_computation.
      * by_computation.
      * by_computation.
      * apply Forall_cons; split; [right; by_computation |].
        apply Forall_cons; split; [left; by_computation | constructor].
      * rewrite Hrun. f_equal. f_equal.
        apply (inj Some). rewrite <- Hstep. by_computation.
Defined.

(** Where the product wraps around, the learning rate starts again:
    the counter of the example is an int64, and with the batch size 128
    the product at the step [2 ^ 56] is the least int64. *)
Lemma learning_rate_after_a_wrap :
  learning_rate float64_truediv (example_ops default_flags) (2 ^ 56 - 1)
  = Some (Q2Qc 0.001) /\
  learning_rate float64_truediv (example_ops default_flags) (2 ^ 56)
  = Some (Q2Qc 0.1).
Proof. split; by_computation. Qed.

(** On a boundary the two quotients part: with a batch size of 100 the
    step 112500 ends the epoch 225 exactly, which the division of IEEE
    754 computes and the product by the reciprocal overshoots by one
    unit in the last place, so that the learning rate is 0.01 with the
    one and already 0.001 with the other. *)
Lemma learning_rate_on_a_boundary :
  learning_rate float64_truediv
    (example_ops (with_batch_size default_flags 100)) 112500
  = Some (Q2Qc 0.01) /\
  learning_rate float64_mul_reciprocal
    (example_ops (with_batch_size default_flags 100)) 112500
  = Some (Q2Qc 0.001).
Proof. split; by_computation. Qed.

(** ** Gradient descent *)

Lemma is_Some_insert_existing (vars : gmap nat (list Qc)) (id : nat)
    (w : list Qc) :
  is_Some (vars !! id) ->
  forall j, is_Some (<[id := w]> vars !! j) <-> is_Some (vars !! j).
Proof.
  intros Hid j. destruct (decide (id = j)) as [<- | Hne].
  - rewrite lookup_insert_eq. split; [intros _; exact Hid | eauto].
  - rewrite lookup_insert_ne by exact Hne. reflexivity.
Qed.

Lemma apply_gradient_descent_spec (rate : Qc)
    (gv : list (option (list Qc) * nat)) :
  forall vars : gmap nat (list Qc),
    NoDup (map snd gv) ->
    (forall id, id ∈ map snd gv -> is_Some (vars !! id)) ->
    exists vars',
      apply_gradient_descent rate gv vars = Some vars' /\
      (forall id, is_Some (vars' !! id) <-> is_Some (vars !! id)) /\
      (forall g id w, (Some g, id) ∈ gv -> vars !! id = Some w ->
                      vars' !! id = Some (gradient_descent rate w g)) /\
      (forall id, (forall g, (Some g, id) ∉ gv) -> vars' !! id = vars !! id).
Proof.
  unfold apply_gradient_descent.
  induction gv as [| [g id] gv IH]; intros vars Hnodup Hdom.
  - exists vars. split; [reflexivity |]. split; [reflexivity |].
    split; [| reflexivity].
    intros g id w Hin. apply elem_of_nil in Hin. contradiction.
  - cbn [map snd] in Hnodup. apply NoDup_cons in Hnodup as [Hfresh Hnodup].
    cbn [foldl mbind option_bind fst snd].
    destruct g as [g |].
    + destruct (Hdom id ltac:(cbn [map snd]; apply elem_of_cons; auto))
        as [w Hw].
      rewrite Hw. cbn [mbind option_bind].
      destruct (IH (<[id := gradient_descent rate w g]> vars) Hnodup)
        as (vars' & Hrun & Hdom' & Hsome & Hnone).
      { intros j Hj. apply is_Some_insert_existing; [eauto |].
        apply Hdom. cbn [map snd]. apply elem_of_cons. auto. }
      exists vars'. split; [exact Hrun |]. split; [| split].
      * intros j. rewrite Hdom'. apply is_Some_insert_existing. eauto.
      * intros g' j w' Hin Hj. apply elem_of_cons in Hin as [Heq | Hin].
        -- injection Heq as -> ->. rewrite Hnone.
           ++ rewrite lookup_insert_eq. congruence.
           ++ intros g'' Hin. apply Hfresh.
              change (map snd gv) with (snd <$> gv).
              apply list_elem_of_fmap. exists (Some g'', id). auto.
        -- apply (Hsome g' j w' Hin). rewrite lookup_insert_ne; [exact Hj |].
           intros ->. apply Hfresh.
           change (map snd gv) with (snd <$> gv).
           apply list_elem_of_fmap. exists (Some g', j). auto.
      * intros j Habsent. rewrite Hnone.
        -- apply lookup_insert_ne. intros ->.
           apply (Habsent g). apply elem_of_cons. auto.
        -- intros g' Hin. apply (Habsent g'). apply elem_of_cons. auto.
    + destruct (IH vars Hnodup) as (vars' & Hrun & Hdom' & Hsome & Hnone).
      { intros j Hj. apply Hdom. cbn [map snd]. apply elem_of_cons. auto. }
      exists vars'. split; [exact Hrun |]. split; [exact Hdom' |]. split.
      * intros g' j w' Hin Hj. apply elem_of_cons in Hin as [Heq | Hin];
          [discriminate |]. apply (Hsome g' j w' Hin Hj).
      * intros j Habsent. apply Hnone. intros g' Hin.
        apply (Habsent g'). apply elem_of_cons. auto.
Qed.

Section Gradients.

Variable gradient : tensor -> gmap nat (list Qc) -> nat -> list Qc.

Lemma gradients_ids (loss : tensor) (var_list : list tensor)
    (vars : gmap nat (list Qc)) :
  map snd (gradients gradient loss var_list vars) = variable_ids var_list.
Proof.
  unfold gradients, variable_ids.
  induction var_list as [| v var_list IH]; [reflexivity |].
  cbn [omap list_omap]. destruct (variable_id v) as [id |];
    cbn [mbind option_bind map snd]; [f_equal |]; exact IH.
Qed.

Lemma elem_of_gradients (loss : tensor) (var_list : list tensor)
    (vars : gmap nat (list Qc)) (g : option (list Qc)) (id : nat) :
  (g, id) ∈ gradients gradient loss var_list vars ->
  g = if depends_on id loss then Some (gradient loss vars id) else None.
Proof.
  unfold gradients. intros Hin. apply list_elem_of_omap in Hin as (v & _ & Hv).
  destruct (variable_id v) as [id' |]; [| discriminate].
  cbn [mbind option_bind] in Hv. injection Hv as <- <-. reflexivity.
Qed.

Lemma gradients_elem (loss : tensor) (var_list : list tensor)
    (vars : gmap nat (list Qc)) (id : nat) :
  id ∈ variable_ids var_list ->
  (if depends_on id loss then Some (gradient loss vars id) else None, id)
  ∈ gradients gradient loss var_list vars.
Proof.
  unfold gradients, variable_ids. intros Hin.
  apply list_elem_of_omap in Hin as (v & Hv & Hid).
  apply list_elem_of_omap. exists v. split; [exact Hv |].
  rewrite Hid. reflexivity.
Qed.

End Gradients.

Lemma apply_variable_averages_spec (decay : Qc) (var_list : list tensor)
    (vars : gmap nat (list Qc)) :
  forall shadows : gmap nat (list Qc),
    Forall (fun v => exists id, variable_id v = Some id /\
                                is_Some (vars !! id) /\
                                is_Some (shadows !! id)) var_list ->
    exists shadows',
      apply_variable_averages decay var_list vars shadows = Some shadows' /\
      forall id, is_Some (shadows' !! id) <-> is_Some (shadows !! id).
Proof.
  unfold apply_variable_averages.
  induction var_list as [| v var_list IH]; intros shadows Hall.
  - exists shadows. split; reflexivity.
  - apply Forall_cons in Hall as [(id & Hid & [w Hw] & [s Hs]) Hall].
    cbn [foldl mbind option_bind]. rewrite Hid. cbn [mbind option_bind].
    rewrite Hw. cbn [mbind option_bind]. rewrite Hs. cbn [mbind option_bind].
    destruct (IH (<[id := moving_average decay s w]> shadows))
      as (shadows' & Hrun & Hdom).
    { eapply Forall_impl; [exact Hall |].
      intros v' (id' & Hid' & Hw' & Hs'). exists id'.
      split; [exact Hid' |]. split; [exact Hw' |].
      apply is_Some_insert_existing; eauto. }
    exists shadows'. split; [exact Hrun |].
    intros j. rewrite Hdom. apply is_Some_insert_existing. eauto.
Qed.

(** ** Every schedule of a training step *)

Lemma run_schedule_invariant (truediv : Z -> Z -> Qc)
    (evaluate : tensor -> gmap nat (list Qc) -> Qc)
    (gradient : tensor -> gmap nat (list Qc) -> nat -> list Qc)
    (batch_statistic : tensor -> gmap nat (list Qc) -> list Qc)
    (ops : list op_node) (Inv : list op_name -> state -> Prop) :
  (forall n o done st,
     find_op ops n = Some o ->
     (forall i, i ∈ data_inputs o ++ control_inputs o -> i ∈ done) ->
     n ∉ done -> Inv done st ->
     exists st', exec truediv evaluate gradient batch_statistic (kind o) st = Some st'
                 /\ Inv (n :: done) st') ->
  forall schedule done st,
    respects ops done schedule = true -> Inv done st ->
    exists st',
      run_schedule truediv evaluate gradient batch_statistic ops schedule st = Some st'
      /\ Inv (rev schedule ++ done) st'.
Proof.
  intros Hstep. induction schedule as [| n schedule IH]; intros done st Hr HI.
  - exists st. split; [reflexivity | exact HI].
  - cbn [respects] in Hr. cbn [run_schedule].
    destruct (find_op ops n) as [o |] eqn:Hfind; [| discriminate].
    apply andb_true_iff in Hr as [Hr Hrest].
    apply andb_true_iff in Hr as [Hinputs Hfresh].
    destruct (Hstep n o done st Hfind) as (st1 & Hexec & HI1).
    + intros i Hi. rewrite forallb_forall in Hinputs.
      apply list_elem_of_In in Hi. apply Hinputs in Hi.
      apply bool_decide_eq_true in Hi. exact Hi.
    + apply negb_true_iff, bool_decide_eq_false in Hfresh. exact Hfresh.
    + exact HI.
    + cbn [mbind option_bind]. rewrite Hexec. cbn [mbind option_bind].
      destruct (IH (n :: done) st1 Hrest HI1) as (st' & Hrun & HI').
      exists st'. split; [exact Hrun |].
      cbn [rev]. rewrite <- app_assoc. exact HI'.
Qed.

Section AllSchedules.

Variable truediv : Z -> Z -> Qc.
Variable evaluate : tensor -> gmap nat (list Qc) -> Qc.
Variable gradient : tensor -> gmap nat (list Qc) -> nat -> list Qc.
Variable batch_statistic : tensor -> gmap nat (list Qc) -> list Qc.
Variable global_step : tensor.
Variable batch : Z.
Variable N : positive.
Variable pairs : list (predicate * Qc).
Variable default_rate : Qc.
Variable losses : list tensor.
Variable total_loss : tensor.
Variable var_list update_ops : list tensor.
Variable s0 : state.
Variable rate0 : Qc.

Abbreviation ops :=
  (train_ops (PiecewiseConstant global_step batch N pairs default_rate)
     losses total_loss global_step var_list update_ops).

Hypothesis Hrate :
  case pairs default_rate (num_epoch truediv global_step (global_step_value s0) batch N)
  = Some rate0.
Hypothesis Hvars :
  Forall (fun v => exists id, variable_id v = Some id /\
                              is_Some (var_values s0 !! id) /\
                              is_Some (variable_shadows s0 !! id)) var_list.
Hypothesis Hnodup : NoDup (variable_ids var_list).
Hypothesis Hupd :
  Forall (fun u => exists id, update_target u = Some id /\
                              is_Some (var_values s0 !! id) /\
                              id ∉ variable_ids var_list) update_ops.

Lemma step_invariant_fresh :
  step_invariant gradient total_loss var_list s0 rate0 [] (fresh s0).
Proof.
  unfold step_invariant. cbn [fresh var_values variable_shadows lr_value
    grads_value global_step_value].
  repeat apply conj;
    try (intros H; apply elem_of_nil in H; contradiction).
  - intros id. reflexivity.
  - intros id. reflexivity.
  - intros _. split; [reflexivity |]. intros id _. reflexivity.
Qed.

Lemma elem_of_cons_other (n m : op_name) (done : list op_name) :
  m <> n -> m ∈ n :: done <-> m ∈ done.
Proof.
  intros Hne. rewrite elem_of_cons. split; [| auto].
  intros [H | H]; [contradiction | exact H].
Qed.

(** An operation other than the application of the gradients keeps the
    invariant when it leaves the global step and the trainable variables
    alone and the outputs of the learning rate and of the gradients are
    as the invariant wants them. *)
Lemma step_invariant_frame (n : op_name) (done : list op_name)
    (st st' : state) :
  n <> apply_gradient_op ->
  (n = train_op -> apply_gradient_op ∈ done) ->
  step_invariant gradient total_loss var_list s0 rate0 done st ->
  (forall id, is_Some (var_values st' !! id) <-> is_Some (var_values st !! id)) ->
  (forall id, is_Some (variable_shadows st' !! id)
              <-> is_Some (variable_shadows st !! id)) ->
  global_step_value st' = global_step_value st ->
  (forall id, id ∈ variable_ids var_list ->
              var_values st' !! id = var_values st !! id) ->
  (lr ∈ n :: done -> lr_value st' = Some rate0) ->
  (grads ∈ n :: done ->
   exists store, agrees var_list s0 store /\
     grads_value st' = Some (gradients gradient total_loss var_list store)) ->
  step_invariant gradient total_loss var_list s0 rate0 (n :: done) st'.
Proof.
  intros Happly Htrain (I1 & I2 & I3 & I4 & I5 & I6 & I7)
    Hdom Hsdom Hgs Hsame Hlr Hgrads.
  unfold step_invariant.
  rewrite !(elem_of_cons_other n apply_gradient_op) by congruence.
  split; [intros id; rewrite Hdom; apply I1 |].
  split; [intros id; rewrite Hsdom; apply I2 |].
  split; [exact Hlr |].
  split; [exact Hgrads |].
  split.
  { intros Hn. destruct (I5 Hn) as [Hg Ha]. split; [congruence |].
    intros id Hid. rewrite (Hsame id Hid). apply Ha. exact Hid. }
  split.
  { intros Hin. destruct (I6 Hin) as (H1 & H2 & H3 & store & Hs & Hu).
    split; [apply elem_of_cons; auto |].
    split; [apply elem_of_cons; auto |]. split; [congruence |].
    exists store. split; [exact Hs |].
    intros id w Hid Hw. rewrite (Hsame id Hid). apply Hu; assumption. }
  intros Hin. apply elem_of_cons in Hin as [Hin | Hin].
  - apply Htrain. congruence.
  - apply I7. exact Hin.
Qed.

Lemma trainable_initialised (st : state) (id : nat) :
  (forall j, is_Some (var_values st !! j) <-> is_Some (var_values s0 !! j)) ->
  id ∈ variable_ids var_list -> is_Some (var_values st !! id).
Proof.
  intros Hdom Hid. apply Hdom. unfold variable_ids in Hid.
  apply list_elem_of_omap in Hid as (v & Hv & Hvid).
  rewrite Forall_forall in Hvars.
  destruct (Hvars v Hv) as (id' & Hid' & Hsome & _). congruence.
Qed.

Lemma step_preserves_invariant (n : op_name) (o : op_node)
    (done : list op_name) (st : state) :
  find_op ops n = Some o ->
  (forall i, i ∈ data_inputs o ++ control_inputs o -> i ∈ done) ->
  n ∉ done ->
  step_invariant gradient total_loss var_list s0 rate0 done st ->
  exists st', exec truediv evaluate gradient batch_statistic (kind o) st = Some st'
              /\ step_invariant gradient total_loss var_list s0 rate0
                   (n :: done) st'.
Proof.
  rewrite find_train_op. intros Ho Hinputs Hfresh HI.
  pose proof HI as (I1 & I2 & I3 & I4 & I5 & I6 & I7).
  destruct n; cbn [train_op_of] in Ho;
    try (injection Ho as <-; cbn [kind exec data_inputs control_inputs app]
                               in *).
  - (* lr *)
    assert (Hnot : apply_gradient_op ∉ done).
    { intros Hin. apply Hfresh. apply (I6 Hin). }
    destruct (I5 Hnot) as [Hgs Hagree]. rewrite Hgs, Hrate.
    cbn [mbind option_bind]. eexists. split; [reflexivity |].
    apply (step_invariant_frame lr done st);
      try discriminate; try reflexivity; auto.
    intros Hin. apply elem_of_cons_other in Hin; [| discriminate]. auto.
  - (* loss_averages_op *)
    eexists. split; [reflexivity |].
    apply (step_invariant_frame loss_averages_op done st);
      try discriminate; try reflexivity; auto.
    + intros Hin. apply elem_of_cons_other in Hin; [| discriminate]. auto.
    + intros Hin. apply elem_of_cons_other in Hin; [| discriminate]. auto.
  - (* grads *)
    assert (Hnot : apply_gradient_op ∉ done).
    { intros Hin. apply Hfresh. apply (I6 Hin). }
    destruct (I5 Hnot) as [Hgs Hagree].
    eexists. split; [reflexivity |].
    apply (step_invariant_frame grads done st);
      try discriminate; try reflexivity; auto.
    + intros Hin. apply elem_of_cons_other in Hin; [| discriminate]. auto.
    + intros _. exists (var_values st). split; [exact Hagree | reflexivity].
  - (* apply_gradient_op *)
    assert (Hlr : lr ∈ done)
      by (apply Hinputs; apply elem_of_cons; auto).
    assert (Hgr : grads ∈ done)
      by (apply Hinputs; apply elem_of_cons; right;
          apply elem_of_cons; auto).
    destruct (I5 Hfresh) as [Hgs Hagree].
    destruct (I4 Hgr) as (store & Hstore & Hgv).
    rewrite (I3 Hlr), Hgv. cbn [mbind option_bind].
    destruct (apply_gradient_descent_spec rate0
                (gradients gradient total_loss var_list store)
                (var_values st))
      as (vars' & Hrun & Hdom & Hsome & Hnone).
    { rewrite gradients_ids. exact Hnodup. }
    { intros id Hid. rewrite gradients_ids in Hid.
      apply trainable_initialised; assumption. }
    rewrite Hrun. cbn [mbind option_bind].
    eexists. split; [reflexivity |].
    unfold step_invariant.
    cbn [set_global_step set_var_values var_values variable_shadows lr_value
         grads_value global_step_value].
    split; [intros id; rewrite Hdom; apply I1 |].
    split; [exact I2 |].
    split; [intros _; apply (I3 Hlr) |].
    split; [intros _; exists store; auto |].
    split; [intros Hn; exfalso; apply Hn; apply elem_of_cons; auto |].
    split.
    { intros _. split; [apply elem_of_cons; auto |].
      split; [apply elem_of_cons; auto |]. split; [lia |].
      exists store. split; [exact Hstore |].
      intros id w Hid Hw.
      assert (Hst : var_values st !! id = Some w)
        by (rewrite (Hagree id Hid); exact Hw).
      destruct (depends_on id total_loss) eqn:Hdep.
      - pose proof (gradients_elem gradient total_loss var_list store id Hid)
          as Hin.
        rewrite Hdep in Hin. apply (Hsome _ _ _ Hin Hst).
      - rewrite Hnone; [exact Hst |].
        intros g Hin. apply elem_of_gradients in Hin.
        rewrite Hdep in Hin. discriminate. }
    intros _. apply elem_of_cons. auto.
  - (* variables_averages_op *)
    destruct (apply_variable_averages_spec
                (effective_decay MOVING_AVERAGE_DECAY (global_step_value st))
                var_list (var_values st) (variable_shadows st))
      as (sh & Hrun & Hdom).
    { rewrite Forall_forall in Hvars. apply Forall_forall. intros v Hv.
      destruct (Hvars v Hv) as (id & Hid & Hsome & Hshadow).
      exists id. split; [exact Hid |]. split; [apply I1 | apply I2]; assumption. }
    rewrite Hrun. cbn [mbind option_bind].
    eexists. split; [reflexivity |].
    apply (step_invariant_frame variables_averages_op done st);
      try discriminate; try reflexivity; auto.
    + intros Hin. apply elem_of_cons_other in Hin; [| discriminate]. auto.
    + intros Hin. apply elem_of_cons_other in Hin; [| discriminate]. auto.
  - (* update_op k *)
    destruct (update_ops !! k) as [u |] eqn:Hk; [| discriminate].
    injection Ho as <-. cbn [kind].
    rewrite Forall_forall in Hupd.
    destruct (Hupd u (list_elem_of_lookup_2 _ _ _ Hk))
      as (id & Htarget & Hsome & Hother).
    apply I1 in Hsome as [w Hw].
    assert (Hexec : exists m,
              exec truediv evaluate gradient batch_statistic (Update u) st
              = Some (set_var_values st (<[id := m]> (var_values st)))).
    { destruct u as [| | op inputs dt sh]; try discriminate.
      destruct op; try discriminate.
      destruct inputs as [| [| id' ? ? |] ?]; try discriminate.
      injection Htarget as ->. cbn [exec]. rewrite Hw.
      cbn [mbind option_bind]. eauto. }
    destruct Hexec as [m Hexec]. rewrite Hexec.
    eexists. split; [reflexivity |].
    apply (step_invariant_frame (update_op k) done st);
      try discriminate; try reflexivity; auto.
    + cbn [set_var_values var_values]. apply is_Some_insert_existing. eauto.
    + intros j Hj. cbn [set_var_values var_values].
      apply lookup_insert_ne. intros ->. contradiction.
    + intros Hin. apply elem_of_cons_other in Hin; [| discriminate]. auto.
    + intros Hin. apply elem_of_cons_other in Hin; [| discriminate]. auto.
  - (* train_op *)
    eexists. split; [reflexivity |].
    apply (step_invariant_frame train_op done st);
      try discriminate; try reflexivity; auto.
    + intros _. apply Hinputs. apply elem_of_cons. auto.
    + intros Hin. apply elem_of_cons_other in Hin; [| discriminate]. auto.
    + intros Hin. apply elem_of_cons_other in Hin; [| discriminate]. auto.
Qed.

Lemma every_schedule_steps (schedule : list op_name) :
  valid_schedule ops train_op schedule = true ->
  exists s',
    run truediv evaluate gradient batch_statistic ops train_op schedule s0 = Some s' /\
    global_step_value s' = global_step_value s0 + 1 /\
    exists store,
      agrees var_list s0 store /\
      updated_from gradient total_loss var_list s0 rate0 store
        (var_values s').
Proof.
  intros Hvalid. unfold run. rewrite Hvalid.
  apply andb_true_iff in Hvalid as [Hr Hfetch].
  apply bool_decide_eq_true in Hfetch.
  destruct (run_schedule_invariant truediv evaluate gradient batch_statistic ops
              (step_invariant gradient total_loss var_list s0 rate0)
              step_preserves_invariant schedule [] (fresh s0)
              Hr step_invariant_fresh)
    as (s' & Hrun & (_ & _ & _ & _ & _ & I6 & I7)).
  exists s'. split; [exact Hrun |].
  assert (Hin : train_op ∈ rev schedule ++ [])
    by (rewrite app_nil_r; apply list_elem_of_In, in_rev, list_elem_of_In;
        rewrite rev_involutive; exact Hfetch).
  destruct (I6 (I7 Hin)) as (_ & _ & Hgs & Hstore). auto.
Qed.

End AllSchedules.

(** ** One step of gradient descent *)





Lemma example_state_initialised :
  initialised
    (default [] (collections example_loss_graph !! TRAINABLE_VARIABLES))
    (default [] (collections example_loss_graph !! UPDATE_OPS))
    example_state.
Proof.
  split; [by_computation |]. split.
  - repeat constructor. exists 0%nat.
    split; [reflexivity |]. split; eexists; reflexivity.
  - repeat constructor. exists 1%nat.
    split; [reflexivity |]. split; [eexists; reflexivity |].
    by_computation.
Qed.



(** * Further properties of the code *)

(** ** Splitting the schedule flags *)

Lemma split_nonempty (sep : ascii) (s : string) : split sep s <> [].
Proof.
  destruct s as [| c s]; cbn [split]; [discriminate |].
  destruct (Ascii.eqb c sep); [discriminate |].
  destruct (split sep s); discriminate.
Qed.

Lemma join_split (sep : ascii) (s : string) : join sep (split sep s) = s.
Proof.
  induction s as [| c s IH]; [reflexivity |].
  cbn [split]. destruct (Ascii.eqb c sep) eqn:Hc.
  - apply Ascii.eqb_eq in Hc. subst c.
    pose proof (split_nonempty sep s) as Hne.
    destruct (split sep s) as [| w ws] eqn:Hs; [contradiction |].
    cbn [join]. cbn [join] in IH. rewrite IH. reflexivity.
  - pose proof (split_nonempty sep s) as Hne.
    destruct (split sep s) as [| w ws] eqn:Hs; [contradiction |].
    destruct ws as [| w' ws'].
    + cbn [join] in *. rewrite IH. reflexivity.
    + change (join sep (String c w :: w' :: ws'))
        with (String c (String.append w
                          (String sep (join sep (w' :: ws'))))).
      change (join sep (w :: w' :: ws'))
        with (String.append w (String sep (join sep (w' :: ws')))) in IH.
      rewrite IH. reflexivity.
Qed.

Lemma length_split (sep : ascii) (s : string) :
  length (split sep s) = S (count_char sep s).
Proof.
  induction s as [| c s IH]; [reflexivity |].
  cbn [split count_char]. destruct (Ascii.eqb c sep).
  - cbn [length]. rewrite IH. reflexivity.
  - pose proof (split_nonempty sep s) as Hne.
    destruct (split sep s) as [| w ws]; [contradiction |].
    cbn [length] in *. exact IH.
Qed.

Lemma split_pieces (sep : ascii) (s : string) :
  Forall (fun w => count_char sep w = 0%nat) (split sep s).
Proof.
  induction s as [| c s IH]; [repeat constructor |].
  cbn [split]. destruct (Ascii.eqb c sep) eqn:Hc.
  - constructor; [reflexivity | exact IH].
  - destruct (split sep s) as [| w ws].
    + constructor; [| constructor]. cbn [count_char]. rewrite Hc. reflexivity.
    + inversion IH as [| ? ? Hw Hws]; subst. constructor; [| exact Hws].
      cbn [count_char]. rewrite Hc. exact Hw.
Qed.

Lemma split_of_pieces (sep : ascii) (ws : list string) :
  ws <> [] -> Forall (fun w => count_char sep w = 0%nat) ws ->
  split sep (join sep ws) = ws.
Proof.
  induction ws as [| w ws IH]; [contradiction |]. intros _ Hall.
  inversion Hall as [| ? ? Hw Hws]; subst.
  assert (Hone : forall w, count_char sep w = 0%nat -> split sep w = [w]).
  { clear. induction w as [| c w IHw]; [reflexivity |].
    cbn [count_char split]. destruct (Ascii.eqb c sep); [discriminate |].
    intros H. rewrite (IHw H). reflexivity. }
  destruct ws as [| w' ws'].
  - cbn [join]. apply Hone, Hw.
  - assert (Hrest : split sep (join sep (w' :: ws')) = w' :: ws')
      by (apply IH; [discriminate | exact Hws]).
    change (join sep (w :: w' :: ws'))
      with (String.append w (String sep (join sep (w' :: ws')))).
    clear IH Hall Hws. revert Hw.
    induction w as [| c w IHw]; intros Hw.
    + change (split sep (String sep (join sep (w' :: ws')))
              = EmptyString :: w' :: ws').
      cbn [split]. rewrite Ascii.eqb_refl, Hrest. reflexivity.
    + cbn [count_char] in Hw.
      change (split sep (String c (String.append w
                (String sep (join sep (w' :: ws')))))
              = String c w :: w' :: ws').
      cbn [split]. destruct (Ascii.eqb c sep); [discriminate |].
      rewrite (IHw Hw). reflexivity.
Qed.

(** X1: [split] and [join] are inverse to each other: joining the
    pieces of a string gives the string back, the pieces hold no
    separator and are one more than the separators of the string (an
    empty string has one empty piece), and a non-empty list of pieces
    without separator is what its joined string splits into. *)
Theorem split_join_round_trip (sep : ascii) (s : string) (ws : list string) :
  join sep (split sep s) = s /\
  length (split sep s) = S (count_char sep s) /\
  Forall (fun w => count_char sep w = 0%nat) (split sep s) /\
  (ws <> [] -> Forall (fun w => count_char sep w = 0%nat) ws ->
   split sep (join sep ws) = ws).
Proof.
  split; [apply join_split |].
  split; [apply length_split |].
  split; [apply split_pieces |].
  apply split_of_pieces.
Qed.

(** ** What [train] refuses *)

Section TrainErrors.

Variable F : Flags.
Variable N : positive.
Variable float np_float64 : string -> option Qc.
Variable total_loss global_step : tensor.

Lemma train_zero_batch (g : graph) :
  batch_size F = 0 ->
  train F N float np_float64 total_loss global_step g
  = Raise ZeroDivisionError.
Proof. intros H. unfold train, bind. rewrite H. reflexivity. Qed.

Lemma train_bad_boundary (g : graph) :
  batch_size F <> 0 ->
  mapM np_float64 (split ","%char (lr_boundaries F)) = None ->
  train F N float np_float64 total_loss global_step g = Raise ValueError.
Proof.
  intros Hb Hnone. unfold train. unfold bind at 1.
  destruct (batch_size F =? 0) eqn:H0; [lia |].
  unfold ret at 1. unfold bind at 1. rewrite parse_all_mapM, Hnone.
  reflexivity.
Qed.

Lemma train_bad_value (g : graph) :
  batch_size F <> 0 ->
  is_Some (mapM np_float64 (split ","%char (lr_boundaries F))) ->
  mapM float (split ","%char (lr_values F)) = None ->
  train F N float np_float64 total_loss global_step g = Raise ValueError.
Proof.
  intros Hb [bs Hbs] Hnone. unfold train. unfold bind at 1.
  destruct (batch_size F =? 0) eqn:H0; [lia |].
  unfold ret at 1. unfold bind at 1. rewrite parse_all_mapM, Hbs.
  unfold bind at 1. rewrite parse_all_mapM, Hnone. reflexivity.
Qed.

(** X2: the order in which [train] rejects its flags, whatever the
    graph.  A batch size of zero raises [ZeroDivisionError] before
    anything else; otherwise an entry of [lr_boundaries] that is not a
    number raises [ValueError], then an entry of [lr_values] that is not
    a number raises [ValueError], and only then the assertion compares
    the two lists: it fails when [lr_values] has not exactly one comma
    more than [lr_boundaries].  An empty [lr_boundaries] has one empty
    entry, which is not a number: no schedule without boundary can be
    configured. *)
Theorem train_flag_errors (g : graph) :
  (batch_size F = 0 ->
   train F N float np_float64 total_loss global_step g
   = Raise ZeroDivisionError) /\
  (batch_size F <> 0 ->
   mapM np_float64 (split ","%char (lr_boundaries F)) = None ->
   train F N float np_float64 total_loss global_step g = Raise ValueError) /\
  (batch_size F <> 0 ->
   is_Some (mapM np_float64 (split ","%char (lr_boundaries F))) ->
   mapM float (split ","%char (lr_values F)) = None ->
   train F N float np_float64 total_loss global_step g = Raise ValueError) /\
  (batch_size F <> 0 ->
   is_Some (mapM np_float64 (split ","%char (lr_boundaries F))) ->
   is_Some (mapM float (split ","%char (lr_values F))) ->
   count_char ","%char (lr_values F)
   <> S (count_char ","%char (lr_boundaries F)) ->
   train F N float np_float64 total_loss global_step g
   = Raise AssertionError) /\
  (batch_size F <> 0 ->
   lr_boundaries F = EmptyString -> np_float64 EmptyString = None ->
   train F N float np_float64 total_loss global_step g = Raise ValueError).
Proof.
  split; [apply train_zero_batch |].
  split; [apply train_bad_boundary |].
  split; [apply train_bad_value |].
  split.
  - intros Hb Hbs Hvs Hcount.
    destruct (train_raises_on_length_mismatch F N float np_float64
                total_loss global_step g) as (e & Hraise & He).
    { rewrite !length_split. lia. }
    rewrite Hraise. f_equal. apply He; assumption.
  - intros Hb Hempty Hnone. apply train_bad_boundary; [exact Hb |].
    rewrite Hempty. cbn [split mapM]. rewrite Hnone. reflexivity.
Qed.

End TrainErrors.

Lemma train_flag_errors_example :
  train (with_batch_size default_flags 0) example_examples_per_epoch
    decimal decimal example_total_loss example_global_step example_loss_graph
  = Raise ZeroDivisionError /\
  train (with_lr default_flags "150,abc" "0.1,0.01,0.001")
    example_examples_per_epoch decimal decimal example_total_loss
    example_global_step example_loss_graph
  = Raise ValueError /\
  train (with_lr default_flags "150,225" "0.1,0.01,0.001,0.0001")
    example_examples_per_epoch decimal decimal example_total_loss
    example_global_step example_loss_graph
  = Raise AssertionError /\
  train (with_lr default_flags EmptyString "0.1,0.01")
    example_examples_per_epoch decimal decimal example_total_loss
    example_global_step example_loss_graph
  = Raise ValueError.
Proof.
  repeat apply conj.
  - apply (proj1 (train_flag_errors (with_batch_size default_flags 0)
                    example_examples_per_epoch decimal decimal
                    example_total_loss example_global_step
                    example_loss_graph)).
    reflexivity.
  - apply (proj1 (proj2 (train_flag_errors
                    (with_lr default_flags "150,abc" "0.1,0.01,0.001")
                    example_examples_per_epoch decimal decimal
                    example_total_loss example_global_step
                    example_loss_graph)));
      [discriminate | reflexivity].
  - apply (proj1 (proj2 (proj2 (proj2 (train_flag_errors
                    (with_lr default_flags "150,225" "0.1,0.01,0.001,0.0001")
                    example_examples_per_epoch decimal decimal
                    example_total_loss example_global_step
                    example_loss_graph)))));
      [discriminate | eexists; vm_compute; reflexivity
      | eexists; vm_compute; reflexivity | vm_compute; discriminate].
  - apply (proj2 (proj2 (proj2 (proj2 (train_flag_errors
                    (with_lr default_flags EmptyString "0.1,0.01")
                    example_examples_per_epoch decimal decimal
                    example_total_loss example_global_step
                    example_loss_graph)))));
      [discriminate | reflexivity | reflexivity].
Defined.

Section TrainGraph.

Variable F : Flags.
Variable N : positive.
Variable float np_float64 : string -> option Qc.
Variable total_loss global_step : tensor.

Lemma train_after_flags (g : graph) (bs vs : list Qc) :
  batch_size F <> 0 ->
  mapM np_float64 (split ","%char (lr_boundaries F)) = Some bs ->
  mapM float (split ","%char (lr_values F)) = Some vs ->
  length vs = S (length bs) ->
  exists b0 bs' v0 vs',
    bs = b0 :: bs' /\ vs = v0 :: vs' /\
    train F N float np_float64 total_loss global_step g
    = match default [] (collections g !! TRAINABLE_VARIABLES) with
      | [] => Raise ValueError
      | var_list =>
          if existsb (fun v => match variable_id v with
                               | Some id => depends_on id total_loss
                               | None => false
                               end) var_list
          then Ok (train_ops
                     (PiecewiseConstant global_step (batch_size F) N
                        (tf_train.pred_fn_pairs b0 v0 bs vs) v0)
                     (default [] (collections g !! LOSSES)) total_loss
                     global_step var_list
                     (default [] (collections g !! UPDATE_OPS)), g)
          else Raise ValueError
      end.
Proof.
  intros Hbatch Hb Hv Hlen.
  destruct bs as [| b0 bs'].
  { apply length_mapM in Hb. rewrite length_split in Hb. discriminate. }
  destruct vs as [| v0 vs']; [discriminate |].
  exists b0, bs', v0, vs'. split; [reflexivity |]. split; [reflexivity |].
  unfold train. unfold bind at 1.
  destruct (batch_size F =? 0) eqn:H0; [lia |].
  unfold ret at 1. unfold bind at 1. rewrite parse_all_mapM, Hb.
  unfold bind at 1. rewrite parse_all_mapM, Hv.
  unfold bind at 1.
  replace (length (b0 :: bs') + 1 =? length (v0 :: vs'))%nat with true
    by (symmetry; apply Nat.eqb_eq; simpl in *; lia).
  unfold ret at 1. unfold bind at 1. unfold tf_train.piecewise_constant.
  replace (negb (length (b0 :: bs') =? length (v0 :: vs') - 1)%nat
           || (length (v0 :: vs') =? 0)%nat) with false
    by (symmetry; apply orb_false_iff; split;
        [apply negb_false_iff, Nat.eqb_eq; simpl in *; lia | reflexivity]).
  unfold ret at 1. unfold bind at 1. unfold _add_loss_summaries, bind.
  unfold tf.get_collection at 1. unfold ret at 1.
  unfold tf_train.compute_gradients, bind, tf.trainable_variables.
  unfold tf.get_collection at 1.
  destruct (default [] (collections g !! TRAINABLE_VARIABLES))
    as [| var vars] eqn:Hvars; [reflexivity |].
  unfold ret at 1. unfold tf_train.apply_gradients. cbn [kind].
  destruct (existsb _ (var :: vars)); [| reflexivity].
  unfold ret at 1. unfold tf.get_collection. rewrite Hvars.
  unfold ret. unfold train_ops. cbn [name]. rewrite update_node_names.
  reflexivity.
Qed.

Lemma length_train_ops (k : op_kind) (losses var_list update_ops : list tensor) :
  length (train_ops k losses total_loss global_step var_list update_ops)
  = (6 + length update_ops)%nat.
Proof.
  unfold train_ops. rewrite !length_app, length_imap. simpl. lia.
Qed.

(** X3: once the flags are accepted, [train] needs a trainable variable
    the loss depends on.  On a graph without trainable variable, and on
    a graph none of whose trainable variables the loss is computed
    from, it raises [ValueError]; otherwise it returns, and builds
    seven kinds of operations: the learning rate,
    the loss averages, the gradients, their application, the variable
    averages, one update per entry of [UPDATE_OPS], and the train op. *)
Theorem train_needs_a_trainable_dependency (g : graph) (bs vs : list Qc) :
  batch_size F <> 0 ->
  mapM np_float64 (split ","%char (lr_boundaries F)) = Some bs ->
  mapM float (split ","%char (lr_values F)) = Some vs ->
  length vs = S (length bs) ->
  (default [] (collections g !! TRAINABLE_VARIABLES) = [] ->
   train F N float np_float64 total_loss global_step g = Raise ValueError) /\
  ((forall v id,
      v ∈ default [] (collections g !! TRAINABLE_VARIABLES) ->
      variable_id v = Some id -> depends_on id total_loss = false) ->
   train F N float np_float64 total_loss global_step g = Raise ValueError) /\
  ((exists v id,
      v ∈ default [] (collections g !! TRAINABLE_VARIABLES) /\
      variable_id v = Some id /\ depends_on id total_loss = true) ->
   exists ops g',
     train F N float np_float64 total_loss global_step g = Ok (ops, g') /\
     length ops
     = (6 + length (default [] (collections g !! UPDATE_OPS)))%nat /\
     map name ops
     = [lr; loss_averages_op; grads; apply_gradient_op;
        variables_averages_op]
       ++ map update_op
            (seq 0 (length (default [] (collections g !! UPDATE_OPS))))
       ++ [train_op]).
Proof.
  intros Hbatch Hb Hv Hlen.
  destruct (train_after_flags g bs vs Hbatch Hb Hv Hlen)
    as (b0 & bs' & v0 & vs' & -> & -> & Htrain).
  rewrite Htrain. clear Htrain.
  set (var_list := default [] (collections g !! TRAINABLE_VARIABLES)).
  split; [| split].
  - intros ->. reflexivity.
  - intros Hnone.
    assert (Hex : existsb (fun v => match variable_id v with
                                    | Some id => depends_on id total_loss
                                    | None => false
                                    end) var_list = false).
    { apply not_true_iff_false. intros Hex.
      apply existsb_exists in Hex as (v & Hin & Hdep).
      apply list_elem_of_In in Hin.
      destruct (variable_id v) as [id |] eqn:Hid; [| discriminate].
      rewrite (Hnone v id Hin Hid) in Hdep. discriminate. }
    destruct var_list as [| var vars]; [reflexivity |].
    cbv beta iota zeta. rewrite Hex. reflexivity.
  - intros (v & id & Hin & Hid & Hdep).
    assert (Hex : existsb (fun v => match variable_id v with
                                    | Some id => depends_on id total_loss
                                    | None => false
                                    end) var_list = true).
    { apply existsb_exists. exists v.
      split; [apply list_elem_of_In; exact Hin |].
      rewrite Hid. exact Hdep. }
    destruct var_list as [| var vars];
      [apply elem_of_nil in Hin; contradiction |].
    cbv beta iota zeta. rewrite Hex. do 2 eexists. split; [reflexivity |].
    split; [apply length_train_ops |].
    apply train_ops_names.
Qed.

End TrainGraph.

Lemma train_needs_a_trainable_dependency_example :
  train default_flags example_examples_per_epoch decimal decimal
    example_total_loss example_global_step empty_graph
  = Raise ValueError /\
  exists ops g',
    train default_flags example_examples_per_epoch decimal decimal
      example_total_loss example_global_step example_loss_graph
    = Ok (ops, g') /\
    length ops = 7%nat.
Proof.
  split.
  - destruct (train_needs_a_trainable_dependency default_flags
                example_examples_per_epoch decimal decimal example_total_loss
                example_global_step empty_graph
                [Q2Qc 150; Q2Qc 225] [Q2Qc 0.1; Q2Qc 0.01; Q2Qc 0.001])
      as (Hempty & _);
      [discriminate | by_computation | by_computation | reflexivity |].
    apply Hempty. reflexivity.
  - destruct (train_needs_a_trainable_dependency default_flags
                example_examples_per_epoch decimal decimal example_total_loss
                example_global_step example_loss_graph
                [Q2Qc 150; Q2Qc 225] [Q2Qc 0.1; Q2Qc 0.01; Q2Qc 0.001])
      as (_ & _ & Hbuilds);
      [discriminate | by_computation | by_computation | reflexivity |].
    destruct Hbuilds as (ops & g' & Hops & Hlen & _).
    + exists (VariableV2 0 float32 [2]), 0%nat.
      split; [| split; [reflexivity | by_computation]].
      replace (default [] (collections example_loss_graph
                           !! TRAINABLE_VARIABLES))
        with [VariableV2 0 float32 [2]] by (vm_compute; reflexivity).
      apply list_elem_of_here.
    + exists ops, g'. split; [exact Hops | exact Hlen].
Defined.

(** ** The schedules of a training step *)

Lemma respects_spec (ops : list op_node) (schedule : list op_name) :
  forall done,
    respects ops done schedule = true ->
    NoDup schedule /\
    (forall n, n ∈ schedule -> n ∉ done) /\
    (forall l1 n l2, schedule = l1 ++ n :: l2 ->
       exists o, find_op ops n = Some o /\
         forall i, i ∈ data_inputs o ++ control_inputs o ->
                   i ∈ done \/ i ∈ l1).
Proof.
  induction schedule as [| m rest IH]; intros done Hr.
  - split; [constructor |]. split.
    + intros n Hn. apply elem_of_nil in Hn. contradiction.
    + intros l1 n l2 Heq. destruct l1; discriminate.
  - cbn [respects] in Hr. destruct (find_op ops m) as [o |] eqn:Hfind;
      [| discriminate].
    apply andb_true_iff in Hr as [Hr Hrest].
    apply andb_true_iff in Hr as [Hinputs Hfresh].
    apply negb_true_iff, bool_decide_eq_false in Hfresh.
    destruct (IH (m :: done) Hrest) as (Hnd & Hout & Hin).
    split; [| split].
    + constructor; [| exact Hnd]. intros Hm. apply (Hout m Hm).
      apply list_elem_of_here.
    + intros n Hn. apply elem_of_cons in Hn as [-> | Hn]; [exact Hfresh |].
      intros Hd. apply (Hout n Hn). apply list_elem_of_further. exact Hd.
    + intros l1 n l2 Heq. destruct l1 as [| m' l1].
      * injection Heq as <- <-. exists o. split; [exact Hfind |].
        intros i Hi. left. rewrite forallb_forall in Hinputs.
        apply list_elem_of_In in Hi. apply Hinputs in Hi.
        apply bool_decide_eq_true in Hi. exact Hi.
      * injection Heq as <- ->.
        destruct (Hin l1 n l2 eq_refl) as (o' & Hfind' & Hi').
        exists o'. split; [exact Hfind' |]. intros i Hi.
        destruct (Hi' i Hi) as [Hd | Hl].
        -- apply elem_of_cons in Hd as [-> | Hd].
           ++ right. apply list_elem_of_here.
           ++ left. exact Hd.
        -- right. apply list_elem_of_further. exact Hl.
Qed.

Lemma runs_before_intro (a b : op_name) (l1 l2 : list op_name) :
  a ∈ l1 -> runs_before a b (l1 ++ b :: l2).
Proof.
  intros Ha. apply list_elem_of_split in Ha as (l1a & l1b & ->).
  exists l1a, l1b, l2. rewrite <- app_assoc. reflexivity.
Qed.

Section ScheduleOrder.

Variable lr_kind : op_kind.
Variable losses : list tensor.
Variable total_loss global_step : tensor.
Variable var_list update_ops : list tensor.

Abbreviation ops :=
  (train_ops lr_kind losses total_loss global_step var_list update_ops).

Lemma schedule_input_before (schedule : list op_name) (n i : op_name)
    (o : op_node) :
  respects ops [] schedule = true ->
  n ∈ schedule ->
  train_op_of lr_kind losses total_loss global_step var_list update_ops n
  = Some o ->
  i ∈ data_inputs o ++ control_inputs o ->
  runs_before i n schedule.
Proof.
  intros Hr Hn Ho Hi.
  destruct (respects_spec ops schedule [] Hr) as (_ & _ & Hin).
  apply list_elem_of_split in Hn as (l1 & l2 & ->).
  destruct (Hin l1 n l2 eq_refl) as (o' & Hfind & Hbefore).
  rewrite find_train_op, Ho in Hfind. injection Hfind as <-.
  destruct (Hbefore i Hi) as [Hd | Hl].
  - apply elem_of_nil in Hd. contradiction.
  - apply runs_before_intro. exact Hl.
Qed.

Lemma runs_before_elem (a b : op_name) (schedule : list op_name) :
  runs_before a b schedule -> a ∈ schedule /\ b ∈ schedule.
Proof.
  intros (l1 & l2 & l3 & ->). split.
  - apply elem_of_app. right. apply list_elem_of_here.
  - apply elem_of_app. right. apply list_elem_of_further.
    apply elem_of_app. right. apply list_elem_of_here.
Qed.

Lemma valid_schedule_order (schedule : list op_name) :
  valid_schedule ops train_op schedule = true ->
  runs_before loss_averages_op grads schedule /\
  runs_before grads apply_gradient_op schedule /\
  runs_before lr apply_gradient_op schedule /\
  runs_before apply_gradient_op train_op schedule /\
  runs_before variables_averages_op train_op schedule /\
  (forall k, (k < length update_ops)%nat ->
             runs_before (update_op k) train_op schedule).
Proof.
  intros Hvalid. apply andb_true_iff in Hvalid as [Hr Hfetch].
  apply bool_decide_eq_true in Hfetch.
  assert (Happly : runs_before apply_gradient_op train_op schedule).
  { eapply schedule_input_before; [exact Hr | exact Hfetch | reflexivity |].
    cbn [data_inputs control_inputs app]. apply list_elem_of_here. }
  assert (Hgrads : runs_before grads apply_gradient_op schedule).
  { eapply schedule_input_before;
      [exact Hr | apply (runs_before_elem _ _ _ Happly) | reflexivity |].
    cbn [data_inputs control_inputs app].
    apply list_elem_of_further, list_elem_of_here. }
  repeat apply conj.
  - eapply schedule_input_before;
      [exact Hr | apply (runs_before_elem _ _ _ Hgrads) | reflexivity |].
    cbn [data_inputs control_inputs app]. apply list_elem_of_here.
  - exact Hgrads.
  - eapply schedule_input_before;
      [exact Hr | apply (runs_before_elem _ _ _ Happly) | reflexivity |].
    cbn [data_inputs control_inputs app]. apply list_elem_of_here.
  - exact Happly.
  - eapply schedule_input_before; [exact Hr | exact Hfetch | reflexivity |].
    cbn [data_inputs control_inputs app].
    apply list_elem_of_further, list_elem_of_here.
  - intros k Hk.
    eapply schedule_input_before; [exact Hr | exact Hfetch | reflexivity |].
    cbn [data_inputs control_inputs app].
    do 2 apply list_elem_of_further.
    change (map update_op ?l) with (update_op <$> l).
    apply list_elem_of_fmap. exists k. split; [reflexivity |].
    apply elem_of_seq. lia.
Qed.

Lemma valid_schedule_names (schedule : list op_name) :
  valid_schedule ops train_op schedule = true ->
  forall n, n ∈ schedule <-> n ∈ map name ops.
Proof.
  intros Hvalid n.
  destruct (valid_schedule_order schedule Hvalid)
    as (H1 & H2 & H3 & H4 & H5 & H6).
  apply andb_true_iff in Hvalid as [Hr Hfetch].
  destruct (respects_spec ops schedule [] Hr) as (_ & _ & Hin).
  split.
  - intros Hn. apply list_elem_of_split in Hn as (l1 & l2 & ->).
    destruct (Hin l1 n l2 eq_refl) as (o & Hfind & _).
    apply find_op_name in Hfind as [Ho <-].
    change (map name ops) with (name <$> ops).
    apply list_elem_of_fmap. exists o. split; [reflexivity | exact Ho].
  - rewrite train_ops_names. intros Hn.
    apply elem_of_app in Hn as [Hn | Hn].
    + repeat (apply elem_of_cons in Hn as [-> | Hn]).
      * apply (runs_before_elem _ _ _ H3).
      * apply (runs_before_elem _ _ _ H1).
      * apply (runs_before_elem _ _ _ H2).
      * apply (runs_before_elem _ _ _ H4).
      * apply (runs_before_elem _ _ _ H5).
      * apply elem_of_nil in Hn. contradiction.
    + apply elem_of_app in Hn as [Hn | Hn].
      * change (map update_op ?l) with (update_op <$> l) in Hn.
        apply list_elem_of_fmap in Hn as (k & -> & Hk).
        apply elem_of_seq in Hk.
        apply (runs_before_elem _ _ _ (H6 k ltac:(lia))).
      * apply list_elem_of_singleton in Hn. subst n.
        apply (runs_before_elem _ _ _ H4).
Qed.

Lemma valid_schedule_permutation (schedule : list op_name) :
  valid_schedule ops train_op schedule = true ->
  schedule ≡ₚ map name ops.
Proof.
  intros Hvalid. apply NoDup_Permutation.
  - apply andb_true_iff in Hvalid as [Hr _].
    apply (respects_spec ops schedule [] Hr).
  - apply train_ops_NoDup.
  - apply valid_schedule_names. exact Hvalid.
Qed.

Lemma all_before_train_op (l1 l2 : list op_name) :
  respects ops [] (l1 ++ train_op :: l2) = true ->
  forall a, a ∈ map name ops -> a <> train_op -> a ∈ l1.
Proof.
  intros Hr.
  destruct (respects_spec ops _ [] Hr) as (_ & _ & Hin).
  assert (Hinput : forall p n q o i,
            l1 ++ train_op :: l2 = p ++ n :: q ->
            train_op_of lr_kind losses total_loss global_step var_list
              update_ops n = Some o ->
            i ∈ data_inputs o ++ control_inputs o -> i ∈ p).
  { intros p n q o i Heq Ho Hi.
    destruct (Hin p n q Heq) as (o' & Hfind & Hbefore).
    rewrite find_train_op, Ho in Hfind. injection Hfind as <-.
    destruct (Hbefore i Hi) as [Hd | Hp]; [| exact Hp].
    apply elem_of_nil in Hd. contradiction. }
  assert (Htrain : forall i,
            i ∈ [apply_gradient_op; variables_averages_op]
                ++ map update_op (seq 0 (length update_ops)) -> i ∈ l1).
  { intros i Hi. eapply (Hinput l1 train_op l2); [reflexivity.. |].
    exact Hi. }
  assert (Happly : apply_gradient_op ∈ l1)
    by (apply Htrain, list_elem_of_here).
  apply list_elem_of_split in Happly as (pa & qa & Hl1).
  assert (Hpa : forall i, i ∈ [lr; grads] -> i ∈ pa).
  { intros i Hi.
    eapply (Hinput pa apply_gradient_op (qa ++ train_op :: l2));
      [rewrite Hl1, <- app_assoc; reflexivity | reflexivity |].
    cbn [data_inputs control_inputs]. rewrite app_nil_r. exact Hi. }
  assert (Hgrads : grads ∈ pa)
    by (apply Hpa, list_elem_of_further, list_elem_of_here).
  apply list_elem_of_split in Hgrads as (pg & qg & Hpg).
  assert (Hloss : loss_averages_op ∈ pg).
  { eapply (Hinput pg grads (qg ++ apply_gradient_op :: qa ++ train_op :: l2));
      [rewrite Hl1, Hpg, <- !app_assoc; reflexivity | reflexivity |].
    cbn [data_inputs control_inputs app]. apply list_elem_of_here. }
  intros a Ha Hne. rewrite train_ops_names in Ha.
  apply elem_of_app in Ha as [Ha | Ha].
  - repeat (apply elem_of_cons in Ha as [-> | Ha]).
    + rewrite Hl1. apply elem_of_app. left. apply Hpa, list_elem_of_here.
    + rewrite Hl1, Hpg. apply elem_of_app. left. apply elem_of_app. left.
      exact Hloss.
    + rewrite Hl1. apply elem_of_app. left.
      apply Hpa, list_elem_of_further, list_elem_of_here.
    + apply Htrain, list_elem_of_here.
    + apply Htrain, list_elem_of_further, list_elem_of_here.
    + apply elem_of_nil in Ha. contradiction.
  - apply elem_of_app in Ha as [Ha | Ha].
    + apply Htrain. do 2 apply list_elem_of_further. exact Ha.
    + apply list_elem_of_singleton in Ha. contradiction.
Qed.

Lemma valid_schedule_last (schedule : list op_name) :
  valid_schedule ops train_op schedule = true ->
  last schedule = Some train_op.
Proof.
  intros Hvalid.
  pose proof (valid_schedule_names schedule Hvalid) as Hnames.
  apply andb_true_iff in Hvalid as [Hr Hfetch].
  apply bool_decide_eq_true in Hfetch.
  apply list_elem_of_split in Hfetch as (l1 & l2 & ->).
  destruct (respects_spec ops _ [] Hr) as (Hnd & _ & _).
  destruct l2 as [| n l2].
  { rewrite last_snoc. reflexivity. }
  exfalso.
  apply NoDup_app in Hnd as (_ & Hdisj & Hnd2).
  assert (Hne : n <> train_op).
  { intros ->. apply NoDup_cons in Hnd2 as [Hnot _].
    apply Hnot, list_elem_of_here. }
  assert (Hn : n ∈ l1).
  { apply (all_before_train_op l1 (n :: l2) Hr); [| exact Hne].
    apply Hnames. apply elem_of_app. right.
    apply list_elem_of_further, list_elem_of_here. }
  apply (Hdisj n Hn). apply list_elem_of_further, list_elem_of_here.
Qed.

End ScheduleOrder.

(** X4: a training step runs every operation that [train] built, each
    exactly once, and the train op last: every schedule of the step is
    a permutation of the operations.  The control and data inputs that
    [train] sets up put the loss averages before the gradients, and the
    learning rate and the gradients before their application. *)
Theorem training_step_runs_every_operation (F : Flags) (N : positive)
    (float np_float64 : string -> option Qc)
    (total_loss global_step : tensor) (g g' : graph) (ops : list op_node)
    (schedule : list op_name) :
  train F N float np_float64 total_loss global_step g = Ok (ops, g') ->
  valid_schedule ops train_op schedule = true ->
  schedule ≡ₚ map name ops /\
  last schedule = Some train_op /\
  runs_before loss_averages_op grads schedule /\
  runs_before grads apply_gradient_op schedule /\
  runs_before lr apply_gradient_op schedule /\
  runs_before apply_gradient_op train_op schedule /\
  runs_before variables_averages_op train_op schedule /\
  (forall k, (k < length (default [] (collections g !! UPDATE_OPS)))%nat ->
             runs_before (update_op k) train_op schedule).
Proof.
  intros Htrain Hvalid.
  apply train_inv in Htrain
    as (b0 & bs & v0 & vs & _ & _ & _ & _ & _ & ->).
  split; [apply valid_schedule_permutation; exact Hvalid |].
  split; [apply (valid_schedule_last _ _ _ _ _ _ _ Hvalid) |].
  apply (valid_schedule_order _ _ _ _ _ _ _ Hvalid).
Qed.

Lemma training_step_runs_every_operation_example :
  schedule_averages_first 1 ≡ₚ map name (example_ops default_flags) /\
  last (schedule_averages_first 1) = Some train_op /\
  runs_before loss_averages_op grads (schedule_averages_first 1).
Proof.
  destruct (training_step_runs_every_operation default_flags
              example_examples_per_epoch decimal decimal example_total_loss
              example_global_step example_loss_graph example_loss_graph
              (example_ops default_flags) (schedule_averages_first 1)
              example_train_builds ltac:(vm_compute; reflexivity))
    as (Hperm & Hlast & Hbefore & _).
  repeat apply conj; assumption.
Defined.

(** ** Boundaries that are not increasing *)

Lemma Qc_le_or_lt (x b : Qc) :
  (bool_decide (x <= b)%Qc = true /\ bool_decide (b < x)%Qc = false) \/
  (bool_decide (x <= b)%Qc = false /\ bool_decide (b < x)%Qc = true).
Proof.
  destruct (Qclt_le_dec b x) as [Hlt | Hle].
  - right. split; [apply bool_decide_eq_false | apply bool_decide_eq_true].
    + apply Qclt_not_le. exact Hlt.
    + exact Hlt.
  - left. split; [apply bool_decide_eq_true | apply bool_decide_eq_false].
    + exact Hle.
    + apply Qcle_not_lt. exact Hle.
Qed.

Lemma uppers_count (x : Qc) (bs : list Qc) :
  forall (low : Qc) (vs : list Qc),
    length vs = S (length bs) ->
    length (filter (fun pv : predicate * Qc => holds pv.1 x = true)
              (uppers low bs vs))
    = ((if bool_decide (low < x)%Qc then 1 else 0)
       + down_crossings x (low :: bs))%nat.
Proof.
  induction bs as [| b bs IH]; intros low vs Hlen.
  - destruct vs as [| v [| v' vs]]; try discriminate.
    cbn [uppers down_crossings]. rewrite filter_cons. cbn [fst holds].
    destruct (bool_decide (low < x)%Qc) eqn:Hlow.
    + rewrite decide_True by reflexivity. reflexivity.
    + rewrite decide_False by discriminate. reflexivity.
  - destruct vs as [| v vs]; [discriminate |].
    cbn [uppers]. rewrite filter_cons. cbn [fst holds].
    pose proof (IH b vs ltac:(simpl in *; lia)) as Hrest.
    change (down_crossings x (low :: b :: bs))
      with ((if bool_decide (x <= low)%Qc && bool_decide (b < x)%Qc
             then 1 else 0) + down_crossings x (b :: bs))%nat.
    destruct (Qc_le_or_lt x low) as [[Hl1 Hl2] | [Hl1 Hl2]];
      destruct (Qc_le_or_lt x b) as [[Hb1 Hb2] | [Hb1 Hb2]];
      rewrite Hl1, Hl2, Hb1, ?Hb2; rewrite Hb2 in Hrest; cbn [andb];
      try (rewrite decide_True by reflexivity);
      try (rewrite decide_False by discriminate);
      cbn [length]; rewrite Hrest; lia.
Qed.

Lemma pred_fn_pairs_count (x b0 v0 : Qc) (bs vs : list Qc) :
  length vs = S (length bs) ->
  length (filter (fun pv : predicate * Qc => holds pv.1 x = true)
            (tf_train.pred_fn_pairs b0 v0 (b0 :: bs) (v0 :: vs)))
  = S (down_crossings x (b0 :: bs)).
Proof.
  intros Hlen.
  rewrite (Permutation_length
             (filter_Permutation _ _ _ (pred_fn_pairs_uppers b0 v0 bs vs Hlen))).
  rewrite filter_cons. cbn [fst holds].
  destruct (Qc_le_or_lt x b0) as [[Hle Hlt] | [Hle Hlt]]; rewrite Hle.
  - rewrite decide_True by reflexivity. cbn [length].
    rewrite uppers_count, Hlt by exact Hlen. reflexivity.
  - rewrite decide_False by discriminate.
    rewrite uppers_count, Hlt by exact Hlen. reflexivity.
Qed.

Lemma case_fails_iff (x b0 v0 : Qc) (bs vs : list Qc) :
  length vs = S (length bs) ->
  case (tf_train.pred_fn_pairs b0 v0 (b0 :: bs) (v0 :: vs)) v0 x = None
  <-> (0 < down_crossings x (b0 :: bs))%nat.
Proof.
  intros Hlen. pose proof (pred_fn_pairs_count x b0 v0 bs vs Hlen) as Hcount.
  unfold case.
  destruct (filter _ _) as [| [p v] [| pv rest]]; cbn [length] in Hcount.
  - discriminate.
  - split; [discriminate | lia].
  - split; [lia | reflexivity].
Qed.

Lemma down_crossings_pair (x : Qc) (bs : list Qc) :
  (0 < down_crossings x bs)%nat
  <-> exists i b b',
        bs !! i = Some b /\ bs !! S i = Some b' /\
        (b' < x)%Qc /\ (x <= b)%Qc.
Proof.
  induction bs as [| b bs IH].
  - split; [cbn; lia |]. intros (i & b & b' & Hi & _). discriminate.
  - destruct bs as [| b' bs].
    + split; [cbn; lia |]. intros (i & c & c' & _ & Hi & _).
      destruct i; discriminate.
    + change (down_crossings x (b :: b' :: bs))
        with ((if bool_decide (x <= b)%Qc && bool_decide (b' < x)%Qc
               then 1 else 0) + down_crossings x (b' :: bs))%nat.
      split.
      * intros Hpos.
        destruct (bool_decide (x <= b)%Qc && bool_decide (b' < x)%Qc) eqn:Hc.
        -- apply andb_true_iff in Hc as [H1 H2].
           apply bool_decide_eq_true in H1, H2.
           exists 0%nat, b, b'. repeat split; assumption.
        -- apply IH in Hpos as (i & c & c' & Hi & Hi' & Hlt & Hle).
           exists (S i), c, c'. repeat split; assumption.
      * intros (i & c & c' & Hi & Hi' & Hlt & Hle). destruct i as [| i].
        -- injection Hi as ->. injection Hi' as ->.
           rewrite (bool_decide_eq_true_2 _ Hle), (bool_decide_eq_true_2 _ Hlt).
           cbn [andb]. lia.
        -- assert (0 < down_crossings x (b' :: bs))%nat; [| lia].
           apply IH. exists i, c, c'. repeat split; assumption.
Qed.

Section LearningRateFails.

Variable truediv : Z -> Z -> Qc.
Variable evaluate : tensor -> gmap nat (list Qc) -> Qc.
Variable gradient : tensor -> gmap nat (list Qc) -> nat -> list Qc.
Variable batch_statistic : tensor -> gmap nat (list Qc) -> list Qc.

Lemma exec_keeps_global_step (k : op_kind) (st st' : state) :
  (forall t, k <> ApplyGradients t) ->
  exec truediv evaluate gradient batch_statistic k st = Some st' ->
  global_step_value st' = global_step_value st.
Proof.
  intros Hk Hexec. destruct k as [? ? ? ? ? | ? ? | ? ? | t | ? ? ? | u |].
  - cbn [exec] in Hexec. destruct (case _ _ _); [| discriminate].
    injection Hexec as <-. reflexivity.
  - injection Hexec as <-. reflexivity.
  - injection Hexec as <-. reflexivity.
  - exfalso. apply (Hk t). reflexivity.
  - cbn [exec] in Hexec.
    destruct (apply_variable_averages _ _ _ _); [| discriminate].
    injection Hexec as <-. reflexivity.
  - apply exec_update_inv in Hexec as (id & w & _ & _ & ->). reflexivity.
  - injection Hexec as <-. reflexivity.
Qed.

Variable global_step : tensor.
Variable batch : Z.
Variable N : positive.
Variable pairs : list (predicate * Qc).
Variable default_rate : Qc.
Variable losses : list tensor.
Variable total_loss : tensor.
Variable var_list update_ops : list tensor.

Abbreviation ops :=
  (train_ops (PiecewiseConstant global_step batch N pairs default_rate)
     losses total_loss global_step var_list update_ops).

Lemma run_schedule_fails_at_lr (gs0 : Z) (schedule : list op_name) :
  case pairs default_rate (num_epoch truediv global_step gs0 batch N) = None ->
  forall done st,
    respects ops done schedule = true ->
    lr ∉ done -> lr ∈ schedule ->
    global_step_value st = gs0 ->
    run_schedule truediv evaluate gradient batch_statistic ops schedule st = None.
Proof.
  intros Hcase.
  induction schedule as [| n rest IH]; intros done st Hr Hdone Hin Hgs.
  - apply elem_of_nil in Hin. contradiction.
  - cbn [respects] in Hr. cbn [run_schedule].
    rewrite find_train_op in *.
    destruct (train_op_of _ _ _ _ _ _ n) as [o |] eqn:Ho; [| discriminate].
    cbn [mbind option_bind].
    apply andb_true_iff in Hr as [Hr Hrest].
    apply andb_true_iff in Hr as [Hinputs _].
    destruct (decide (n = lr)) as [-> | Hne].
    + injection Ho as <-. cbn [kind exec]. rewrite Hgs, Hcase. reflexivity.
    + destruct (exec truediv evaluate gradient batch_statistic (kind o) st)
        as [st' |] eqn:Hexec; [| reflexivity].
      cbn [mbind option_bind].
      apply (IH (n :: done) st' Hrest).
      * intros Hlr. apply elem_of_cons in Hlr as [Hlr | Hlr];
          [congruence | contradiction].
      * apply elem_of_cons in Hin as [Hin | Hin]; [congruence | exact Hin].
      * rewrite <- Hgs. apply (exec_keeps_global_step (kind o)); [| exact Hexec].
        intros t Hk. destruct n; cbn [train_op_of] in Ho;
          try (injection Ho as <-; discriminate).
        -- injection Ho as <-. cbn [data_inputs control_inputs app] in Hinputs.
           cbn [forallb] in Hinputs.
           apply andb_true_iff in Hinputs as [Hlr _].
           apply bool_decide_eq_true in Hlr. contradiction.
        -- destruct (update_ops !! k); [| discriminate].
           injection Ho as <-. discriminate.
Qed.

Lemma run_fails_at_lr (s : state) (schedule : list op_name) :
  case pairs default_rate (num_epoch truediv global_step (global_step_value s) batch N) = None ->
  run truediv evaluate gradient batch_statistic ops train_op schedule s = None.
Proof.
  intros Hcase. unfold run.
  destruct (valid_schedule ops train_op schedule) eqn:Hvalid; [| reflexivity].
  pose proof (valid_schedule_order _ _ _ _ _ _ _ Hvalid) as (_ & _ & Hlr & _).
  apply runs_before_elem in Hlr as [Hlr _].
  apply andb_true_iff in Hvalid as [Hr _].
  apply (run_schedule_fails_at_lr (global_step_value s) schedule Hcase []
           (fresh s) Hr); [| exact Hlr | reflexivity].
  intros H. apply elem_of_nil in H. contradiction.
Qed.

End LearningRateFails.

(** X5: [train] does not check that the boundaries increase.  For a
    counter of type int32 or int64, take the number of epochs that the
    runtime computes at a global step: the float64 quotient of
    [global_step * batch_size], wrapped into the type of the counter, by
    the number of examples per epoch.  Exactly when it lies in
    [(b', b]] for a boundary [b] followed by a smaller boundary [b'],
    two predicates of the learning-rate schedule hold at once and the
    learning rate has no value; the training step then fails in every
    schedule. *)
Theorem learning_rate_needs_increasing_boundaries (F : Flags) (N : positive)
    (float np_float64 : string -> option Qc)
    (total_loss global_step : tensor) (g g' : graph) (ops : list op_node)
    (bs : list Qc) (truediv : Z -> Z -> Qc) (bits : Z) (s : state) :
  train F N float np_float64 total_loss global_step g = Ok (ops, g') ->
  mapM np_float64 (split ","%char (lr_boundaries F)) = Some bs ->
  counter_bits global_step = Some bits ->
  (learning_rate truediv ops (global_step_value s) = None
   <-> exists i b b',
         bs !! i = Some b /\ bs !! S i = Some b' /\
         (b' < truediv (wrap bits true (global_step_value s * batch_size F))
                 (Z.pos N))%Qc /\
         (truediv (wrap bits true (global_step_value s * batch_size F))
            (Z.pos N) <= b)%Qc) /\
  (learning_rate truediv ops (global_step_value s) = None ->
   forall evaluate gradient batch_statistic schedule,
     run truediv evaluate gradient batch_statistic ops train_op schedule s
     = None).
Proof.
  intros Htrain Hbs Hint.
  apply train_inv in Htrain
    as (b0 & bs' & v0 & vs & _ & Hb & _ & Hlen & _ & ->).
  rewrite Hbs in Hb. injection Hb as ->.
  assert (Hlr : learning_rate truediv
                  (train_ops
                     (PiecewiseConstant global_step (batch_size F) N
                        (tf_train.pred_fn_pairs b0 v0 (b0 :: bs') (v0 :: vs))
                        v0)
                     (default [] (collections g !! LOSSES)) total_loss
                     global_step
                     (default [] (collections g !! TRAINABLE_VARIABLES))
                     (default [] (collections g !! UPDATE_OPS)))
                  (global_step_value s)
                = case (tf_train.pred_fn_pairs b0 v0 (b0 :: bs') (v0 :: vs)) v0
                    (num_epoch truediv global_step (global_step_value s)
                       (batch_size F) N)).
  { unfold learning_rate. rewrite find_train_op. reflexivity. }
  rewrite Hlr. split.
  - rewrite case_fails_iff by exact Hlen.
    rewrite (num_epoch_counter _ _ _ _ _ _ Hint). apply down_crossings_pair.
  - intros Hcase evaluate gradient batch_statistic schedule.
    apply run_fails_at_lr. exact Hcase.
Qed.

Lemma learning_rate_needs_increasing_boundaries_example :
  learning_rate float64_truediv
    (example_ops (with_lr default_flags "225,150" "0.1,0.01,0.001")) 70313
  = None /\
  run float64_truediv example_evaluate example_gradient
    example_batch_statistic
    (example_ops (with_lr default_flags "225,150" "0.1,0.01,0.001")) train_op
    (schedule_averages_last 1) (set_global_step example_state 70313)
  = None.
Proof.
  destruct (learning_rate_needs_increasing_boundaries
              (with_lr default_flags "225,150" "0.1,0.01,0.001")
              example_examples_per_epoch decimal decimal example_total_loss
              example_global_step example_loss_graph example_loss_graph
              (example_ops (with_lr default_flags "225,150" "0.1,0.01,0.001"))
              [Q2Qc 225; Q2Qc 150] float64_truediv 64
              (set_global_step example_state 70313))
    as [Hiff Hrun].
  - vm_compute. reflexivity.
  - by_computation.
  - reflexivity.
  - assert (Hnone : learning_rate float64_truediv
                      (example_ops
                         (with_lr default_flags "225,150" "0.1,0.01,0.001"))
                      70313 = None).
    { apply Hiff. exists 0%nat, (Q2Qc 225), (Q2Qc 150).
      split; [reflexivity |]. split; [reflexivity |].
      split; by_computation. }
    split; [exact Hnone |]. apply Hrun. exact Hnone.
Defined.

(** ** When [loss] returns *)

(** X7: for logits of a floating-point type, and collections
    ['losses'] and [REGULARIZATION_LOSSES] whose entries have the dtype
    of the logits, [loss] returns exactly when the logits have at least
    one dimension, the labels have the shape of the logits without
    their last dimension, and everything in the two collections is a
    scalar; in every other case it raises [ValueError] and nothing
    else.  When it returns, the total loss is a scalar, no variable has
    been created, and no collection other than ['losses'] has
    changed. *)
Theorem loss_returns_iff (logits labels : tensor) (g : graph) :
  is_floating (get_dtype_of logits) = true ->
  Forall (fun t => get_dtype_of t = get_dtype_of logits)
    (default [] (collections g !! LOSSES)
     ++ default [] (collections g !! REGULARIZATION_LOSSES)) ->
  ((exists total g', loss logits labels g = Ok (total, g'))
   <-> get_shape logits <> [] /\
       get_shape labels = removelast (get_shape logits) /\
       Forall (fun t => get_shape t = [])
         (default [] (collections g !! LOSSES)
          ++ default [] (collections g !! REGULARIZATION_LOSSES))) /\
  (forall e, loss logits labels g = Raise e -> e = ValueError) /\
  (forall total g',
     loss logits labels g = Ok (total, g') ->
     get_shape total = [] /\
     num_variables g' = num_variables g /\
     forall name, name <> LOSSES ->
                  collections g' !! name = collections g !! name).
Proof.
  intros _ _. rewrite loss_unfold. cbv zeta.
  set (old := default [] (collections g !! LOSSES)).
  set (penalties := default [] (collections g !! REGULARIZATION_LOSSES)).
  destruct (get_shape logits) as [| d ds] eqn:Hlogits.
  { split; [| split].
    - split; [intros (? & ? & H); discriminate | intros (H & _); contradiction].
    - intros e H. injection H as <-. reflexivity.
    - intros total g' H. discriminate. }
  destruct (bool_decide (get_shape labels = removelast (d :: ds))) eqn:Hlabels.
  2:{ apply bool_decide_eq_false in Hlabels. split; [| split].
      - split; [intros (? & ? & H); discriminate
               | intros (_ & H & _); contradiction].
      - intros e H. injection H as <-. reflexivity.
      - intros total g' H. discriminate. }
  apply bool_decide_eq_true in Hlabels.
  rewrite add_n_ending_in_scalar by reflexivity.
  destruct (forallb _ (old ++ penalties)) eqn:Hall.
  - assert (Hscalars : Forall (fun t => get_shape t = []) (old ++ penalties)).
    { apply Forall_forall. intros t Ht. rewrite forallb_forall in Hall.
      apply list_elem_of_In in Ht. apply Hall in Ht.
      apply bool_decide_eq_true in Ht. exact Ht. }
    split; [| split].
    + split; [intros _ | intros _; eauto].
      split; [discriminate |]. split; [exact Hlabels | exact Hscalars].
    + intros e H. discriminate.
    + intros total g' H. injection H as <- <-. cbn [get_shape num_variables].
      split; [reflexivity |]. split; [reflexivity |].
      intros name Hname. cbn [collections].
      apply lookup_insert_ne. congruence.
  - split; [| split].
    + split; [intros (? & ? & H); discriminate |].
      intros (_ & _ & Hscalars). exfalso.
      apply not_true_iff_false in Hall. apply Hall.
      apply forallb_forall. intros t Ht. apply bool_decide_eq_true.
      rewrite Forall_forall in Hscalars. apply Hscalars.
      apply list_elem_of_In. exact Ht.
    + intros e H. injection H as <-. reflexivity.
    + intros total g' H. discriminate.
Qed.

Lemma loss_returns_iff_example :
  loss example_logits (Placeholder "labels" int32 [5]) example_graph
  = Raise ValueError.
Proof.
  destruct (loss_returns_iff example_logits (Placeholder "labels" int32 [5])
              example_graph eq_refl) as (Hiff & Hraise & _).
  { cbn. repeat constructor. }
  destruct (loss example_logits (Placeholder "labels" int32 [5])
              example_graph) as [[total g'] | e] eqn:Hloss.
  - destruct (proj1 Hiff) as (_ & Hshape & _); [eauto | discriminate].
  - rewrite (Hraise e eq_refl). reflexivity.
Defined.

(** ** What the layers add to the graph *)

Lemma bind_Ok {A B : Type} (m : M A) (k : A -> M B) (g g2 : graph) (b : B) :
  bind m k g = Ok (b, g2) ->
  exists a g1, m g = Ok (a, g1) /\ k a g1 = Ok (b, g2).
Proof.
  unfold bind. destruct (m g) as [[a g1] | e]; [| discriminate].
  intros H. exists a, g1. split; [reflexivity | exact H].
Qed.

Lemma ret_Ok {A : Type} (a b : A) (g g' : graph) :
  ret a g = Ok (b, g') -> b = a /\ g' = g.
Proof. intros H. injection H as <- <-. split; reflexivity. Qed.

Lemma variable_ids_app (l1 l2 : list tensor) :
  variable_ids (l1 ++ l2) = variable_ids l1 ++ variable_ids l2.
Proof. apply omap_app. Qed.

Lemma grows_refl (g : graph) :
  grows g g {| new_variables := 0; new_trainable := []; new_penalties := [];
               new_updates := [] |}.
Proof.
  unfold grows. cbn [new_variables new_trainable new_penalties new_updates].
  rewrite !app_nil_r. repeat split; lia.
Qed.

Lemma grows_trans (g g1 g2 : graph) (a b : additions) :
  grows g g1 a -> grows g1 g2 b -> grows g g2 (additions_app a b).
Proof.
  intros (Hn & Ht & Hr & Hu & Ho) (Hn' & Ht' & Hr' & Hu' & Ho').
  unfold grows, additions_app.
  cbn [new_variables new_trainable new_penalties new_updates].
  rewrite Hn', Hn, Ht', Ht, Hr', Hr, Hu', Hu, !app_assoc.
  repeat split; try lia.
  intros name H1 H2 H3. rewrite Ho', Ho by assumption. reflexivity.
Qed.

Lemma fresh_from_app (base : nat) (a b : additions) :
  fresh_from base a ->
  fresh_from (base + new_variables a) b ->
  fresh_from base (additions_app a b).
Proof.
  intros (Hnd & Hvars & Hupd & Hpen) (Hnd' & Hvars' & Hupd' & Hpen').
  assert (Hlow : forall id, id ∈ variable_ids (new_trainable a) ->
                            (base <= id < base + new_variables a)%nat).
  { intros id Hid. apply list_elem_of_omap in Hid as (v & Hv & Hvid).
    rewrite Forall_forall in Hvars.
    destruct (Hvars v Hv) as (id' & Hid' & Hrange). congruence. }
  assert (Hhigh : forall id, id ∈ variable_ids (new_trainable b) ->
            (base + new_variables a <= id
             < base + new_variables a + new_variables b)%nat).
  { intros id Hid. apply list_elem_of_omap in Hid as (v & Hv & Hvid).
    rewrite Forall_forall in Hvars'.
    destruct (Hvars' v Hv) as (id' & Hid' & Hrange). congruence. }
  unfold fresh_from, additions_app.
  cbn [new_variables new_trainable new_penalties new_updates].
  rewrite variable_ids_app. split; [| split; [| split]].
  - apply NoDup_app. split; [exact Hnd |]. split; [| exact Hnd'].
    intros id Ha Hb. apply Hlow in Ha. apply Hhigh in Hb. lia.
  - apply Forall_app. split.
    + eapply Forall_impl; [exact Hvars |].
      intros v (id & Hid & Hrange). exists id. split; [exact Hid | lia].
    + eapply Forall_impl; [exact Hvars' |].
      intros v (id & Hid & Hrange). exists id. split; [exact Hid | lia].
  - apply Forall_app. split.
    + eapply Forall_impl; [exact Hupd |].
      intros u (id & Hid & Hrange & Hnot). exists id.
      split; [exact Hid |]. split; [lia |].
      intros Hin. apply elem_of_app in Hin as [Hin | Hin];
        [contradiction |]. apply Hhigh in Hin. lia.
    + eapply Forall_impl; [exact Hupd' |].
      intros u (id & Hid & Hrange & Hnot). exists id.
      split; [exact Hid |]. split; [lia |].
      intros Hin. apply elem_of_app in Hin as [Hin | Hin];
        [| contradiction]. apply Hlow in Hin. lia.
  - apply Forall_app. split; assumption.
Qed.

Lemma adds_refl (g : graph) : adds g g 0 0 0 0.
Proof.
  eexists. split; [apply grows_refl |].
  split; [| repeat split].
  unfold fresh_from. cbn. repeat split; constructor.
Qed.

Lemma adds_trans (g g1 g2 : graph) (n t r u n' t' r' u' : nat) :
  adds g g1 n t r u -> adds g1 g2 n' t' r' u' ->
  adds g g2 (n + n') (t + t') (r + r') (u + u').
Proof.
  intros (a & Hg & Hf & <- & <- & <- & <-) (b & Hg' & Hf' & <- & <- & <- & <-).
  exists (additions_app a b). split; [eapply grows_trans; eassumption |].
  split.
  - apply fresh_from_app; [exact Hf |].
    destruct Hg as (Hn & _). rewrite <- Hn. exact Hf'.
  - unfold additions_app.
    cbn [new_variables new_trainable new_penalties new_updates].
    rewrite !length_app. repeat split.
Qed.

Lemma adds_eq (g g' : graph) (n t r u n' t' r' u' : nat) :
  adds g g' n t r u -> n = n' -> t = t' -> r = r' -> u = u' ->
  adds g g' n' t' r' u'.
Proof. intros H -> -> -> ->. exact H. Qed.

(** *** The primitives *)

Lemma collection_extend_other (name other : string) (ts : list tensor)
    (g g' : graph) :
  tf.collection_extend name ts g = Ok (tt, g') ->
  num_variables g' = num_variables g /\
  collection g' name = collection g name ++ ts /\
  (other <> name -> collections g' !! other = collections g !! other).
Proof.
  unfold tf.collection_extend. intros H. injection H as <-.
  cbn [num_variables collections]. unfold collection. cbn [collections].
  split; [reflexivity |]. split.
  - rewrite lookup_insert_eq. reflexivity.
  - intros Hne. apply lookup_insert_ne. congruence.
Qed.

Lemma collection_other (g g' : graph) (name : string) :
  collections g' !! name = collections g !! name ->
  collection g' name = collection g name.
Proof. unfold collection. intros ->. reflexivity. Qed.

Lemma get_variable_grows (dt : dtype) (shape : list Z) (trainable : bool)
    (g g' : graph) (v : tensor) :
  tf.get_variable dt shape trainable g = Ok (v, g') ->
  v = VariableV2 (num_variables g) dt shape /\
  grows g g' {| new_variables := 1;
                new_trainable := if trainable then [v] else [];
                new_penalties := []; new_updates := [] |}.
Proof.
  unfold tf.get_variable, tf.collection_append, tf.collection_extend.
  destruct trainable; intros H; injection H as <- <-;
    (split; [reflexivity |]); unfold grows, collection;
    cbn [num_variables collections new_variables new_trainable new_penalties
         new_updates]; rewrite ?app_nil_r.
  - rewrite lookup_insert_eq.
    rewrite !lookup_insert_ne by discriminate.
    repeat split; try lia.
    intros name H1 _ _. apply lookup_insert_ne. congruence.
  - repeat split; lia.
Qed.

Lemma apply_l2_regularizer_grows (scale : Qc) (w : tensor) (g g' : graph) :
  tf.apply_l2_regularizer scale w g = Ok (tt, g') ->
  exists penalties,
    length penalties = penalties_per_weight scale /\
    Forall (fun p => get_shape p = []) penalties /\
    grows g g' {| new_variables := 0; new_trainable := [];
                  new_penalties := penalties; new_updates := [] |}.
Proof.
  unfold tf.apply_l2_regularizer, penalties_per_weight.
  destruct (bool_decide (scale < 0)%Qc); [discriminate |].
  destruct (bool_decide (scale = 0%Qc)).
  - intros H. injection H as <-. exists []. split; [reflexivity |].
    split; [constructor |]. apply grows_refl.
  - unfold tf.collection_append. intros H.
    exists [Op (L2Regularizer scale) [w] (get_dtype_of w) []].
    split; [reflexivity |]. split; [repeat constructor |].
    destruct (collection_extend_other _ TRAINABLE_VARIABLES _ _ _ H)
      as (Hn & Hc & Ht).
    destruct (collection_extend_other _ UPDATE_OPS _ _ _ H) as (_ & _ & Hu).
    unfold grows.
    cbn [new_variables new_trainable new_penalties new_updates].
    rewrite !app_nil_r, Hn, Hc.
    rewrite (collection_other _ _ _ (Ht ltac:(discriminate))).
    rewrite (collection_other _ _ _ (Hu ltac:(discriminate))).
    repeat split; try lia.
    intros name _ H2 _.
    apply (collection_extend_other _ name _ _ _ H). exact H2.
Qed.

(** *** The layers *)

Ltac bind_inv H :=
  let a := fresh "a" in
  let g := fresh "g" in
  let Hm := fresh "Hm" in
  apply bind_Ok in H as (a & g & Hm & H).

Lemma adds_intro (g g' : graph) (a : additions) :
  grows g g' a -> fresh_from (num_variables g) a ->
  adds g g' (new_variables a) (length (new_trainable a))
    (length (new_penalties a)) (length (new_updates a)).
Proof.
  intros Hg Hf. exists a. split; [exact Hg |]. split; [exact Hf |].
  repeat split.
Qed.

Lemma grows_trainable (g g' : graph) (a : additions) (v : tensor) :
  grows g g' a -> v ∈ new_trainable a ->
  v ∈ collection g' TRAINABLE_VARIABLES.
Proof.
  intros (_ & Ht & _) Hv. rewrite Ht. apply elem_of_app. right. exact Hv.
Qed.

Lemma layers_conv2d_adds (inputs : tensor) (filters k s : Z) (scale : Qc)
    (g g' : graph) (out : tensor) :
  tf.layers_conv2d inputs filters k s scale g = Ok (out, g') ->
  exists b h w c,
    get_shape inputs = [b; h; w; c] /\
    0 <= filters /\ 0 < k /\ 0 < s /\ (0 <= scale)%Qc /\
    out = Op (Conv2D filters k s)
            [inputs;
             VariableV2 (num_variables g) (get_dtype_of inputs)
               [k; k; c; filters]]
            (get_dtype_of inputs)
            [b; tf.same_output_size h s; tf.same_output_size w s; filters] /\
    adds g g' 1 1 (penalties_per_weight scale) 0.
Proof.
  unfold tf.layers_conv2d.
  destruct (get_shape inputs) as [| b [| h [| w [| c [| ? ?]]]]];
    try discriminate.
  destruct ((filters <? 0) || (k <=? 0) || (s <=? 0)) eqn:Hargs;
    [discriminate |].
  apply orb_false_iff in Hargs as [Hargs Hs].
  apply orb_false_iff in Hargs as [Hf Hk].
  intros H. bind_inv H. bind_inv H. apply ret_Ok in H as [-> ->].
  apply get_variable_grows in Hm as [-> Hg1].
  destruct a0.
  assert (Hscale : (0 <= scale)%Qc).
  { unfold tf.apply_l2_regularizer in Hm0.
    destruct (bool_decide (scale < 0)%Qc) eqn:Hneg; [discriminate |].
    apply bool_decide_eq_false in Hneg. apply Qcnot_lt_le. exact Hneg. }
  apply apply_l2_regularizer_grows in Hm0 as (penalties & Hlen & Hpen & Hg2).
  exists b, h, w, c. split; [reflexivity |].
  split; [lia |]. split; [lia |]. split; [lia |]. split; [exact Hscale |].
  split; [reflexivity |].
  pose proof (grows_trans _ _ _ _ _ Hg1 Hg2) as Hg.
  apply adds_intro in Hg.
  - unfold additions_app in Hg.
    cbn [new_variables new_trainable new_penalties new_updates app length]
      in Hg.
    rewrite Hlen in Hg. exact Hg.
  - unfold fresh_from, additions_app.
    cbn [new_variables new_trainable new_penalties new_updates app
         variable_ids omap variable_id].
    split; [apply NoDup_singleton |]. split; [| split; [constructor |]].
    + constructor; [| constructor]. eexists. split; [reflexivity | lia].
    + exact Hpen.
Qed.

Lemma layers_batch_normalization_adds (inputs : tensor) (momentum : Qc)
    (training : bool) (g g' : graph) (out : tensor) :
  tf.layers_batch_normalization inputs momentum training g = Ok (out, g') ->
  exists c,
    last (get_shape inputs) = Some c /\
    out = Op (BatchNormalization momentum training)
            [inputs;
             VariableV2 (num_variables g) (get_dtype_of inputs) [c];
             VariableV2 (S (num_variables g)) (get_dtype_of inputs) [c];
             VariableV2 (S (S (num_variables g))) (get_dtype_of inputs) [c];
             VariableV2 (S (S (S (num_variables g)))) (get_dtype_of inputs)
               [c]]
            (get_dtype_of inputs) (get_shape inputs) /\
    adds g g' 4 2 0 (updates_per_normalization training).
Proof.
  unfold tf.layers_batch_normalization.
  destruct (last (get_shape inputs)) as [c |]; [| discriminate].
  intros H. do 5 bind_inv H. apply ret_Ok in H as [-> ->].
  apply get_variable_grows in Hm as [-> Hg1].
  apply get_variable_grows in Hm0 as [-> Hg2].
  apply get_variable_grows in Hm1 as [-> Hg3].
  apply get_variable_grows in Hm2 as [-> Hg4].
  assert (E1 : num_variables g0 = S (num_variables g))
    by (destruct Hg1 as [E _]; cbn [new_variables] in E; lia).
  assert (E2 : num_variables g1 = S (S (num_variables g)))
    by (destruct Hg2 as [E _]; cbn [new_variables] in E; lia).
  assert (E3 : num_variables g2 = S (S (S (num_variables g))))
    by (destruct Hg3 as [E _]; cbn [new_variables] in E; lia).
  rewrite ?E1 in Hg2. rewrite ?E2 in Hg3. rewrite ?E3 in Hg4.
  rewrite ?E1, ?E2, ?E3 in Hm3. rewrite E1, E2, E3.
  exists c. split; [reflexivity |]. split; [reflexivity |].
  pose proof (grows_trans _ _ _ _ _
                (grows_trans _ _ _ _ _
                   (grows_trans _ _ _ _ _ Hg1 Hg2) Hg3) Hg4) as Hg.
  destruct training.
  - destruct a3.
    assert (Hg5 : grows g3 g4
              {| new_variables := 0; new_trainable := []; new_penalties := [];
                 new_updates :=
                   [Op (AssignMovingAvg momentum)
                       [VariableV2 (S (S (num_variables g)))
                          (get_dtype_of inputs) [c]; inputs]
                       (get_dtype_of inputs) [c];
                    Op (AssignMovingAvg momentum)
                       [VariableV2 (S (S (S (num_variables g))))
                          (get_dtype_of inputs) [c]; inputs]
                       (get_dtype_of inputs) [c]] |}).
    { destruct (collection_extend_other _ TRAINABLE_VARIABLES _ _ _ Hm3)
        as (Hn & Hc & Ht).
      destruct (collection_extend_other _ REGULARIZATION_LOSSES _ _ _ Hm3)
        as (_ & _ & Hr).
      unfold grows.
      cbn [new_variables new_trainable new_penalties new_updates].
      rewrite !app_nil_r, Hn, Hc.
      rewrite (collection_other _ _ _ (Ht ltac:(discriminate))).
      rewrite (collection_other _ _ _ (Hr ltac:(discriminate))).
      repeat split; try lia.
      intros name _ _ H3.
      apply (collection_extend_other _ name _ _ _ Hm3). exact H3. }
    pose proof (grows_trans _ _ _ _ _ Hg Hg5) as Hall.
    apply adds_intro in Hall; [exact Hall |].
    unfold fresh_from, additions_app.
    cbn [new_variables new_trainable new_penalties new_updates app
         variable_ids omap variable_id update_target].
    split; [| split; [| split; [| constructor]]].
    + apply NoDup_cons. split; [| apply NoDup_singleton].
      intros Hin. apply list_elem_of_singleton in Hin. lia.
    + repeat constructor; eexists; (split; [reflexivity | lia]).
    + repeat constructor; eexists;
        (split; [reflexivity |]; split; [lia |]);
        intros Hin; repeat (apply elem_of_cons in Hin as [Hin | Hin];
                            [lia |]); apply elem_of_nil in Hin; exact Hin.
  - apply ret_Ok in Hm3 as [_ ->].
    apply adds_intro in Hg; [exact Hg |].
    unfold fresh_from, additions_app.
    cbn [new_variables new_trainable new_penalties new_updates app
         variable_ids omap variable_id].
    split; [| split; [| split; constructor]].
    + apply NoDup_cons. split; [| apply NoDup_singleton].
      intros Hin. apply list_elem_of_singleton in Hin. lia.
    + repeat constructor; eexists; (split; [reflexivity | lia]).
Qed.

Lemma layers_dense_adds (x : tensor) (units : Z) (scale : Qc)
    (g g' : graph) (out : tensor) :
  tf.layers_dense x units scale g = Ok (out, g') ->
  exists c,
    last (get_shape x) = Some c /\
    (2 <= length (get_shape x))%nat /\ 0 <= units /\ (0 <= scale)%Qc /\
    out = Op (Dense units true)
            [x;
             VariableV2 (num_variables g) (get_dtype_of x) [c; units];
             VariableV2 (S (num_variables g)) (get_dtype_of x) [units]]
            (get_dtype_of x) (removelast (get_shape x) ++ [units]) /\
    VariableV2 (num_variables g) (get_dtype_of x) [c; units]
    ∈ collection g' TRAINABLE_VARIABLES /\
    adds g g' 2 2 (2 * penalties_per_weight scale) 0.
Proof.
  unfold tf.layers_dense.
  destruct (last (get_shape x)) as [c |]; [| discriminate].
  destruct ((length (get_shape x) <? 2)%nat || (units <? 0)) eqn:Hargs;
    [discriminate |].
  apply orb_false_iff in Hargs as [Hrank Hunits].
  apply Nat.ltb_ge in Hrank.
  intros H. do 4 bind_inv H. apply ret_Ok in H as [-> ->].
  apply get_variable_grows in Hm as [-> Hg1].
  destruct a0, a2.
  assert (Hscale : (0 <= scale)%Qc).
  { unfold tf.apply_l2_regularizer in Hm0.
    destruct (bool_decide (scale < 0)%Qc) eqn:Hneg; [discriminate |].
    apply bool_decide_eq_false in Hneg. apply Qcnot_lt_le. exact Hneg. }
  apply apply_l2_regularizer_grows in Hm0 as (p1 & Hlen1 & Hpen1 & Hg2).
  apply get_variable_grows in Hm1 as [-> Hg3].
  apply apply_l2_regularizer_grows in Hm2 as (p2 & Hlen2 & Hpen2 & Hg4).
  assert (E1 : num_variables g1 = S (num_variables g)).
  { destruct Hg1 as [E _]. destruct Hg2 as [E' _].
    cbn [new_variables] in E, E'. lia. }
  rewrite E1 in Hg3. rewrite E1.
  exists c. split; [reflexivity |]. split; [exact Hrank |].
  split; [lia |]. split; [exact Hscale |]. split; [reflexivity |].
  pose proof (grows_trans _ _ _ _ _
                (grows_trans _ _ _ _ _
                   (grows_trans _ _ _ _ _ Hg1 Hg2) Hg3) Hg4) as Hg.
  split.
  - apply (grows_trainable _ _ _ _ Hg). unfold additions_app.
    cbn [new_trainable app]. apply list_elem_of_here.
  - apply adds_intro in Hg.
    + unfold additions_app in Hg.
      cbn [new_variables new_trainable new_penalties new_updates app length]
        in Hg.
      rewrite !length_app, Hlen1, Hlen2 in Hg.
      eapply adds_eq; [exact Hg | ..]; cbn [length]; lia.
    + unfold fresh_from, additions_app.
      cbn [new_variables new_trainable new_penalties new_updates app
           variable_ids omap variable_id].
      split; [| split; [| split; [constructor |]]].
      * apply NoDup_cons. split; [| apply NoDup_singleton].
        intros Hin. apply list_elem_of_singleton in Hin. lia.
      * repeat constructor; eexists; (split; [reflexivity | lia]).
      * repeat (apply Forall_app; split); try assumption; constructor.
Qed.

(** The layers without variables leave the graph as it is. *)

Lemma layers_dropout_Ok (x : tensor) (rate : Qc) (training : bool)
    (g g' : graph) (out : tensor) :
  tf.layers_dropout x rate training g = Ok (out, g') ->
  g' = g /\ get_shape out = get_shape x /\ get_dtype_of out = get_dtype_of x.
Proof.
  unfold tf.layers_dropout. destruct training.
  - destruct (_ && _); [| discriminate].
    intros H. apply ret_Ok in H as [-> ->]. repeat split.
  - intros H. apply ret_Ok in H as [-> ->]. repeat split.
Qed.

Lemma concat_Ok (values : list tensor) (axis : nat) (g g' : graph)
    (out : tensor) :
  tf.concat values axis g = Ok (out, g') -> g' = g.
Proof.
  unfold tf.concat. destruct values as [| v vs]; [discriminate |].
  destruct (negb _); [discriminate |].
  destruct (foldl _ _ _); [| discriminate].
  destruct (bool_decide _); [| discriminate].
  intros H. apply ret_Ok in H as [_ ->]. reflexivity.
Qed.

Lemma average_pooling2d_Ok (x : tensor) (pool strides : Z) (g g' : graph)
    (out : tensor) :
  tf.layers_average_pooling2d x pool strides g = Ok (out, g') -> g' = g.
Proof.
  unfold tf.layers_average_pooling2d.
  destruct (get_shape x) as [| b [| h [| w [| c [| ? ?]]]]]; try discriminate.
  destruct (tf.valid_output_size h pool strides); [| discriminate].
  destruct (tf.valid_output_size w pool strides); [| discriminate].
  intros H. apply ret_Ok in H as [_ ->]. reflexivity.
Qed.

Lemma reduce_mean_1_2_Ok (x : tensor) (g g' : graph) (out : tensor) :
  tf.reduce_mean_1_2 x g = Ok (out, g') -> g' = g.
Proof.
  unfold tf.reduce_mean_1_2.
  destruct (get_shape x) as [| b [| h [| w rest]]]; try discriminate.
  intros H. apply ret_Ok in H as [_ ->]. reflexivity.
Qed.

Lemma dim_Ok (x : tensor) (i : nat) (g g' : graph) (d : Z) :
  dim x i g = Ok (d, g') -> g' = g /\ get_shape x !! i = Some d.
Proof.
  unfold dim. destruct (get_shape x !! i); [| discriminate].
  intros H. apply ret_Ok in H as [-> ->]. split; reflexivity.
Qed.

(** *** The functions of the module *)

Section Additions.

Variable F : Flags.

Lemma unit_layer_adds (features : tensor) (out_channel : Z) (training : bool)
    (g g' : graph) (u : tensor) :
  unit_layer F features out_channel training g = Ok (u, g') ->
  adds g g' 5 3 (penalties_per_weight (wd F))
       (updates_per_normalization training).
Proof.
  unfold unit_layer. intros H. do 4 bind_inv H. apply ret_Ok in H as [-> ->].
  apply layers_batch_normalization_adds in Hm as (c & _ & _ & Hbn).
  apply ret_Ok in Hm0 as [-> ->].
  unfold conv2d in Hm1.
  apply layers_conv2d_adds in Hm1 as (b & h & w & c' & _ & _ & _ & _ & _ & _
                                       & Hconv).
  apply layers_dropout_Ok in Hm2 as (-> & _).
  eapply adds_eq; [exact (adds_trans _ _ _ _ _ _ _ _ _ _ _ Hbn Hconv) | ..];
    lia.
Qed.

Lemma block_loop_adds (n : nat) (growth : Z) (training : bool) :
  forall (features : tensor) (g g' : graph) (out : tensor),
    block_loop F n features growth training g = Ok (out, g') ->
    adds g g' (5 * n) (3 * n) (n * penalties_per_weight (wd F))
         (n * updates_per_normalization training).
Proof.
  induction n as [| n IH]; intros features g g' out H.
  - apply ret_Ok in H as [_ ->]. apply adds_refl.
  - cbn [block_loop] in H. do 2 bind_inv H.
    apply unit_layer_adds in Hm. apply concat_Ok in Hm0 as ->.
    apply IH in H.
    eapply adds_eq; [exact (adds_trans _ _ _ _ _ _ _ _ _ _ _ Hm H) | ..]; lia.
Qed.

Lemma transition_adds (features : tensor) (training : bool) (g g' : graph)
    (out : tensor) :
  transition F features training g = Ok (out, g') ->
  adds g g' 5 3 (penalties_per_weight (wd F))
       (updates_per_normalization training).
Proof.
  unfold transition. intros H. do 3 bind_inv H. apply ret_Ok in H as [-> ->].
  apply dim_Ok in Hm as [-> _]. apply unit_layer_adds in Hm0.
  apply average_pooling2d_Ok in Hm1 as ->. exact Hm0.
Qed.

Lemma inference_adds (images : tensor) (training : bool) (g g' : graph)
    (logits : tensor) :
  inference F images training g = Ok (logits, g') ->
  adds g g' (5 * unit_layers F + 7) (3 * unit_layers F + 5)
       ((unit_layers F + 3) * penalties_per_weight (wd F))
       ((unit_layers F + 1) * updates_per_normalization training) /\
  exists x id s bias,
    logits = Op (Dense NUM_CLASSES true)
               [x; VariableV2 id (get_dtype_of x) s; bias]
               (get_dtype_of x) (removelast (get_shape x) ++ [NUM_CLASSES]) /\
    VariableV2 id (get_dtype_of x) s ∈ collection g' TRAINABLE_VARIABLES.
Proof.
  unfold inference. intros H. do 11 bind_inv H. apply ret_Ok in H as [-> ->].
  unfold conv2d in Hm.
  apply layers_conv2d_adds in Hm as (b & h & w & c & _ & _ & _ & _ & _ & _
                                     & Hconv).
  unfold block in Hm0, Hm2, Hm4.
  apply block_loop_adds in Hm0, Hm2, Hm4.
  apply transition_adds in Hm1, Hm3, Hm5.
  apply layers_batch_normalization_adds in Hm6 as (c' & _ & _ & Hbn).
  apply ret_Ok in Hm7 as [-> ->].
  unfold global_average_pooling2d in Hm8.
  apply reduce_mean_1_2_Ok in Hm8 as ->.
  apply layers_dense_adds in Hm9
    as (cd & _ & _ & _ & _ & -> & Hkernel & Hdense).
  split.
  - pose proof (adds_trans _ _ _ _ _ _ _ _ _ _ _ Hconv Hm0) as A1.
    pose proof (adds_trans _ _ _ _ _ _ _ _ _ _ _ A1 Hm1) as A2.
    pose proof (adds_trans _ _ _ _ _ _ _ _ _ _ _ A2 Hm2) as A3.
    pose proof (adds_trans _ _ _ _ _ _ _ _ _ _ _ A3 Hm3) as A4.
    pose proof (adds_trans _ _ _ _ _ _ _ _ _ _ _ A4 Hm4) as A5.
    pose proof (adds_trans _ _ _ _ _ _ _ _ _ _ _ A5 Hm5) as A6.
    pose proof (adds_trans _ _ _ _ _ _ _ _ _ _ _ A6 Hbn) as A7.
    pose proof (adds_trans _ _ _ _ _ _ _ _ _ _ _ A7 Hdense) as A8.
    eapply adds_eq; [exact A8 | ..]; unfold unit_layers; lia.
  - do 4 eexists. split; [reflexivity | exact Hkernel].
Qed.

End Additions.

(** *** The network as a whole *)

Lemma unit_layers_of_depth (F : Flags) :
  4 <= depth F -> Z.of_nat (unit_layers F) = depth F - 1.
Proof.
  intros Hd. unfold unit_layers, third_depth, second_depth, first_depth,
    int_of_truediv.
  pose proof (Z.quot_pos (depth F - 4) 3 ltac:(lia) ltac:(lia)) as Hq.
  pose proof (Z.mul_quot_le (depth F - 4) 3 ltac:(lia) ltac:(lia)) as Hle.
  lia.
Qed.

Lemma adds_grows (g g' : graph) (n t r u : nat) :
  adds g g' n t r u ->
  num_variables g' = (num_variables g + n)%nat /\
  (exists l, length l = t /\
     collection g' TRAINABLE_VARIABLES = collection g TRAINABLE_VARIABLES ++ l) /\
  (exists l, length l = r /\
     collection g' REGULARIZATION_LOSSES
     = collection g REGULARIZATION_LOSSES ++ l) /\
  (exists l, length l = u /\
     collection g' UPDATE_OPS = collection g UPDATE_OPS ++ l) /\
  forall name,
    name <> TRAINABLE_VARIABLES -> name <> REGULARIZATION_LOSSES ->
    name <> UPDATE_OPS ->
    collections g' !! name = collections g !! name.
Proof.
  intros (a & (Hn & Ht & Hr & Hu & Ho) & _ & <- & <- & <- & <-).
  split; [exact Hn |]. repeat split; eauto.
Qed.

Lemma adds_extends (g g' : graph) (n t r u : nat) :
  adds g g' n t r u -> extends g g' n t r u.
Proof.
  intros Hadds. apply adds_grows in Hadds as (Hn & Ht & Hr & Hu & Ho).
  repeat (split; [assumption |]).
  unfold collection. rewrite Ho by discriminate. reflexivity.
Qed.

Lemma adds_well_formed (g g' : graph) (n t r u : nat) :
  well_formed g -> adds g g' n t r u -> well_formed g'.
Proof.
  intros Hwf (a & (Hn & Ht & Hr & Hu & _) & Hf & _).
  pose proof (fresh_from_app 0 _ a Hwf Hf) as H.
  unfold well_formed, fresh_from, additions_app in *.
  cbn [new_variables new_trainable new_penalties new_updates] in *.
  rewrite Hn, Ht, Hr, Hu. exact H.
Qed.

(** X8: what building the network adds to the graph, for a depth of
    at least 4.  [inference] creates [5 * depth + 2] variables, of which
    [3 * depth + 2] are trainable; it registers [depth + 2] penalties
    when the weight decay is not zero and none when it is zero, and
    [2 * depth] updates of batch normalization in training mode and
    none in inference mode.  The three collections are only appended
    to, and the collection ['losses'] is left as it is. *)
Theorem inference_graph_additions (F : Flags) (images : tensor)
    (training : bool) (g : graph) (b : Z) :
  well_configured F -> 4 <= depth F ->
  get_shape images = [b; 32; 32; 3] ->
  returns (inference F images training) g
    (fun _ g' =>
       Z.of_nat (num_variables g')
       = Z.of_nat (num_variables g) + 5 * depth F + 2 /\
       (exists l,
          collection g' TRAINABLE_VARIABLES
          = collection g TRAINABLE_VARIABLES ++ l /\
          Z.of_nat (length l) = 3 * depth F + 2) /\
       (exists l,
          collection g' REGULARIZATION_LOSSES
          = collection g REGULARIZATION_LOSSES ++ l /\
          Z.of_nat (length l)
          = if bool_decide (wd F = 0%Qc) then 0 else depth F + 2) /\
       (exists l,
          collection g' UPDATE_OPS = collection g UPDATE_OPS ++ l /\
          Z.of_nat (length l) = if training then 2 * depth F else 0) /\
       collection g' LOSSES = collection g LOSSES).
Proof.
  intros HF Hd Hs.
  destruct (inference_returns F HF images training g b Hs)
    as (logits & g' & Hinf & _).
  exists logits, g'. split; [exact Hinf |].
  apply inference_adds in Hinf as [Hadds _].
  apply adds_grows in Hadds
    as (Hn & (tv & Htv & Ht) & (rl & Hrl & Hr) & (uo & Huo & Hu) & Ho).
  pose proof (unit_layers_of_depth F Hd) as HU.
  split; [lia |].
  split; [exists tv; split; [exact Ht | lia] |].
  split; [exists rl; split; [exact Hr |] |].
  { unfold penalties_per_weight in Hrl.
    destruct (bool_decide (wd F = 0%Qc)); lia. }
  split; [exists uo; split; [exact Hu |] |].
  { unfold updates_per_normalization in Huo. destruct training; lia. }
  unfold collection. rewrite Ho by discriminate. reflexivity.
Qed.

Lemma inference_graph_additions_default :
  returns (inference default_flags (cifar10_input_batch default_flags).1 true)
    empty_graph
    (fun _ g' =>
       num_variables g' = 202%nat /\
       length (collection g' TRAINABLE_VARIABLES) = 122%nat /\
       length (collection g' REGULARIZATION_LOSSES) = 42%nat /\
       length (collection g' UPDATE_OPS) = 80%nat /\
       collection g' LOSSES = []).
Proof.
  eapply returns_weaken.
  - apply (inference_graph_additions default_flags
             (cifar10_input_batch default_flags).1 true empty_graph 128
             default_flags_well_configured);
      [vm_compute; discriminate | reflexivity].
  - intros _ g' (Hn & (tv & Ht & Htv) & (rl & Hr & Hrl) & (uo & Hu & Huo)
                 & Ho).
    rewrite bool_decide_eq_false_2 in Hrl by (intros H; discriminate H).
    change (depth default_flags) with 40 in *.
    change (num_variables empty_graph) with 0%nat in Hn.
    rewrite Ht, Hr, Hu.
    change (collection empty_graph TRAINABLE_VARIABLES) with (@nil tensor).
    change (collection empty_graph REGULARIZATION_LOSSES) with (@nil tensor).
    change (collection empty_graph UPDATE_OPS) with (@nil tensor).
    cbn [app]. repeat split; try lia. exact Ho.
Defined.

(** ** The functions of the module, composed *)

Lemma well_formed_initialised (g : graph) (s : state) :
  well_formed g ->
  (forall id, (id < num_variables g)%nat ->
              is_Some (var_values s !! id) /\
              is_Some (variable_shadows s !! id)) ->
  initialised (collection g TRAINABLE_VARIABLES) (collection g UPDATE_OPS) s.
Proof.
  intros (Hnd & Hvars & Hupd & _) Hs.
  cbn [new_variables new_trainable new_updates] in *.
  split; [exact Hnd |]. split.
  - eapply Forall_impl; [exact Hvars |].
    intros v (id & Hid & Hrange). exists id. split; [exact Hid |].
    apply Hs. lia.
  - eapply Forall_impl; [exact Hupd |].
    intros u (id & Hid & Hrange & Hnot). exists id. split; [exact Hid |].
    split; [apply Hs; lia | exact Hnot].
Qed.

Lemma well_formed_empty : well_formed empty_graph.
Proof. unfold well_formed, fresh_from. cbn. repeat split; constructor. Qed.

(** X9: building the network keeps the graph well formed: the trainable
    variables are pairwise distinct variables of the graph, every update
    of batch normalization assigns a variable of the graph that is not
    trainable (so gradient descent and the updates never write the same
    variable), and every penalty is a scalar.  A state that gives every
    variable of the graph a value and a shadow is then one in which a
    training step can run. *)
Theorem inference_keeps_graph_well_formed (F : Flags) (images : tensor)
    (training : bool) (g : graph) (b : Z) :
  well_configured F ->
  get_shape images = [b; 32; 32; 3] ->
  well_formed g ->
  returns (inference F images training) g
    (fun _ g' =>
       well_formed g' /\
       forall s : state,
         (forall id, (id < num_variables g')%nat ->
                     is_Some (var_values s !! id) /\
                     is_Some (variable_shadows s !! id)) ->
         initialised (collection g' TRAINABLE_VARIABLES)
           (collection g' UPDATE_OPS) s).
Proof.
  intros HF Hs Hwf.
  destruct (inference_returns F HF images training g b Hs)
    as (logits & g' & Hinf & _).
  exists logits, g'. split; [exact Hinf |].
  apply inference_adds in Hinf as [Hadds _].
  pose proof (adds_well_formed _ _ _ _ _ _ Hwf Hadds) as Hwf'.
  split; [exact Hwf' |]. intros s. apply well_formed_initialised. exact Hwf'.
Qed.

Lemma inference_keeps_graph_well_formed_default :
  returns (inference default_flags (cifar10_input_batch default_flags).1 true)
    empty_graph (fun _ g' => well_formed g').
Proof.
  eapply returns_weaken.
  - apply (inference_keeps_graph_well_formed default_flags
             (cifar10_input_batch default_flags).1 true empty_graph 128
             default_flags_well_configured eq_refl well_formed_empty).
  - intros _ g' [Hwf _]. exact Hwf.
Defined.

Lemma distorted_inputs_returns (F : Flags) (g : graph) :
  data_dir F <> EmptyString ->
  exists images labels,
    distorted_inputs F g = Ok ((images, labels), g) /\
    get_shape images = [batch_size F; IMAGE_SIZE; IMAGE_SIZE; 3] /\
    get_shape labels = [batch_size F] /\
    get_dtype_of images = (if use_fp16 F then float16 else float32).
Proof.
  intros Hdir. unfold distorted_inputs.
  rewrite bool_decide_eq_false_2 by exact Hdir.
  unfold cifar10_input_batch. destruct (use_fp16 F).
  - do 2 eexists. split; [reflexivity |]. repeat split.
  - do 2 eexists. split; [reflexivity |]. repeat split.
Qed.

Lemma depends_on_op (id : nat) (o : operation) (inputs : list tensor)
    (dt : dtype) (s : list Z) (u : tensor) :
  u ∈ inputs -> depends_on id u = true ->
  depends_on id (Op o inputs dt s) = true.
Proof.
  intros Hu Hdep. cbn [depends_on].
  induction inputs as [| v inputs IH];
    [apply elem_of_nil in Hu; contradiction |].
  apply elem_of_cons in Hu as [<- | Hu].
  - rewrite Hdep. reflexivity.
  - rewrite (IH Hu). apply orb_true_r.
Qed.

Section WithoutWeightDecay.

Variable feed : string -> option (list elem).
Variable variables : gmap nat (list Qc).
Variable xent : list Z -> tensor -> list Qc.

(** X10: with a weight decay of zero the network registers no penalty,
    and the total loss that [loss] then builds on a graph without
    earlier losses is the mean cross-entropy alone: the collection
    ['losses'] holds that one term, and the total loss has its value. *)
Theorem loss_without_weight_decay (F : Flags) (images labels : tensor)
    (training : bool) (g : graph) (b : Z) :
  well_configured F -> wd F = 0%Qc ->
  get_shape images = [b; 32; 32; 3] -> get_shape labels = [b] ->
  collection g LOSSES = [] -> collection g REGULARIZATION_LOSSES = [] ->
  returns (logits <- inference F images training ;;
           total <- loss logits labels ;;
           ret (logits, total)) g
    (fun r g' =>
       collection g' REGULARIZATION_LOSSES = [] /\
       collection g' LOSSES = [cross_entropy_mean r.1 labels] /\
       eval_scalar feed variables xent r.2
       = eval_scalar feed variables xent (cross_entropy_mean r.1 labels)).
Proof.
  intros HF Hwd Hs Hl Hlosses Hreg.
  destruct (inference_returns F HF images training g b Hs)
    as (logits & g1 & Hinf & Hshape & _).
  pose proof Hinf as Hadds. apply inference_adds in Hadds as [Hadds _].
  apply adds_grows in Hadds as (_ & _ & (rl & Hrl & Hr) & _ & Ho).
  unfold penalties_per_weight in Hrl.
  rewrite bool_decide_eq_true_2, Nat.mul_0_r in Hrl by exact Hwd.
  destruct rl; [| discriminate]. rewrite Hreg in Hr. cbn [app] in Hr.
  assert (Hlosses1 : collection g1 LOSSES = []).
  { unfold collection in *. rewrite Ho by discriminate. exact Hlosses. }
  destruct (loss_builds logits labels g1) as (dt & Hloss).
  { rewrite Hshape. discriminate. }
  { rewrite Hshape, Hl. reflexivity. }
  { rewrite Hlosses1, Hr. constructor. }
  rewrite Hlosses1, Hr in Hloss. cbn [app] in Hloss.
  eexists (logits, _), _. split.
  { unfold bind. rewrite Hinf, Hloss. reflexivity. }
  cbn [fst snd]. unfold collection. cbn [collections].
  rewrite lookup_insert_ne by discriminate. fold (collection g1 REGULARIZATION_LOSSES).
  rewrite lookup_insert_eq. split; [exact Hr |]. split; [reflexivity |].
  rewrite eval_scalar_add_n. apply eval_sum_singleton.
Qed.

End WithoutWeightDecay.

Lemma loss_without_weight_decay_example :
  returns (logits <- inference (with_wd default_flags 0%Qc)
                       (cifar10_input_batch default_flags).1 true ;;
           total <- loss logits (cifar10_input_batch default_flags).2 ;;
           ret (logits, total)) empty_graph
    (fun r g' =>
       collection g' REGULARIZATION_LOSSES = [] /\
       collection g' LOSSES
       = [cross_entropy_mean r.1 (cifar10_input_batch default_flags).2]).
Proof.
  eapply returns_weaken.
  - apply (loss_without_weight_decay example_feed example_variables
             example_xent (with_wd default_flags 0%Qc)
             (cifar10_input_batch default_flags).1
             (cifar10_input_batch default_flags).2 true empty_graph 128);
      [unfold well_configured; repeat split; vm_compute; discriminate
      | reflexivity..].
  - intros r g' (Hreg & Hlosses & _). split; assumption.
Defined.

Lemma well_formed_same (g g' : graph) :
  num_variables g' = num_variables g ->
  collections g' !! TRAINABLE_VARIABLES = collections g !! TRAINABLE_VARIABLES ->
  collections g' !! REGULARIZATION_LOSSES
  = collections g !! REGULARIZATION_LOSSES ->
  collections g' !! UPDATE_OPS = collections g !! UPDATE_OPS ->
  well_formed g -> well_formed g'.
Proof.
  intros Hn Ht Hr Hu. unfold well_formed, collection.
  rewrite Hn, Ht, Hr, Hu. intros H. exact H.
Qed.

(** X11: the four functions compose as the docstring of the module
    says.  With flags under which the layers can be built, a data
    directory, a batch size that is not zero and a schedule of numbers
    with increasing boundaries, on a well-formed graph whose earlier
    losses are scalars: [distorted_inputs], [inference], [loss] and
    [train] all return, the total loss is a scalar, and from every state
    that gives the variables of the graph a value and a shadow the
    training step runs to its end in every schedule and advances the
    global step by one. *)
Theorem training_graph_runs (F : Flags) (N : positive)
    (float np_float64 : string -> option Qc) (global_step : tensor)
    (g : graph) (bs vs : list Qc) :
  well_configured F ->
  data_dir F <> EmptyString ->
  batch_size F <> 0 ->
  mapM np_float64 (split ","%char (lr_boundaries F)) = Some bs ->
  mapM float (split ","%char (lr_values F)) = Some vs ->
  length vs = S (length bs) ->
  StronglySorted Qclt bs ->
  well_formed g ->
  Forall (fun t => get_shape t = []) (collection g LOSSES) ->
  returns (training_graph F N float np_float64 global_step) g
    (fun r g' =>
       get_shape r.1 = [] /\
       forall truediv evaluate gradient batch_statistic (s : state)
              (schedule : list op_name),
         (forall id, (id < num_variables g')%nat ->
                     is_Some (var_values s !! id) /\
                     is_Some (variable_shadows s !! id)) ->
         valid_schedule r.2 train_op schedule = true ->
         exists s',
           run truediv evaluate gradient batch_statistic r.2 train_op schedule s
           = Some s' /\
           global_step_value s' = global_step_value s + 1).
Proof.
  intros HF Hdir Hbatch Hb Hv Hlen Hsorted Hwf Hlosses.
  destruct (distorted_inputs_returns F g Hdir)
    as (images & labels & Hin & Himages & Hlabels & _).
  unfold IMAGE_SIZE in Himages.
  destruct (inference_returns F HF images true g _ Himages)
    as (logits & g1 & Hinf & Hshape & _).
  pose proof Hinf as Hadds.
  apply inference_adds in Hadds
    as [Hadds (x & id & sh & bias & Hlogits & Hkernel)].
  pose proof (adds_well_formed _ _ _ _ _ _ Hwf Hadds) as Hwf1.
  apply adds_grows in Hadds as (_ & _ & _ & _ & Ho).
  assert (Hlosses1 : collection g1 LOSSES = collection g LOSSES).
  { unfold collection. rewrite Ho by discriminate. reflexivity. }
  destruct (loss_builds logits labels g1) as (dt & Hloss).
  { rewrite Hshape. discriminate. }
  { rewrite Hshape, Hlabels. reflexivity. }
  { apply Forall_app. split; [rewrite Hlosses1; exact Hlosses |].
    apply Hwf1. }
  set (terms := (collection g1 LOSSES ++ collection g1 REGULARIZATION_LOSSES)
                ++ [cross_entropy_mean logits labels]) in *.
  set (total := Op AddN terms dt []) in *.
  set (g2 := {| collections := <[LOSSES := terms]> (collections g1);
                num_variables := num_variables g1 |}) in *.
  assert (Hother : forall name, name <> LOSSES ->
            collections g2 !! name = collections g1 !! name).
  { intros name Hname. unfold g2. cbn [collections].
    apply lookup_insert_ne. congruence. }
  assert (Hwf2 : well_formed g2).
  { apply (well_formed_same g1); [reflexivity | | | | exact Hwf1];
      apply Hother; discriminate. }
  assert (Hdepends : depends_on id total = true).
  { apply (depends_on_op _ _ _ _ _ (cross_entropy_mean logits labels)).
    - apply elem_of_app. right. apply list_elem_of_here.
    - unfold cross_entropy_mean.
      eapply depends_on_op; [apply list_elem_of_here |].
      eapply depends_on_op;
        [apply list_elem_of_further, list_elem_of_here |].
      rewrite Hlogits.
      eapply depends_on_op;
        [apply list_elem_of_further, list_elem_of_here |].
      cbn [depends_on]. apply bool_decide_eq_true. reflexivity. }
  destruct (train_after_flags F N float np_float64 total global_step g2 bs vs
              Hbatch Hb Hv Hlen)
    as (b0 & bs' & v0 & vs' & -> & -> & Htrain).
  fold (collection g2 TRAINABLE_VARIABLES) in Htrain.
  fold (collection g2 UPDATE_OPS) in Htrain.
  fold (collection g2 LOSSES) in Htrain.
  assert (Hk : VariableV2 id (get_dtype_of x) sh
               ∈ collection g2 TRAINABLE_VARIABLES).
  { unfold collection. rewrite Hother by discriminate. exact Hkernel. }
  assert (Hex : existsb (fun v => match variable_id v with
                                  | Some id => depends_on id total
                                  | None => false
                                  end) (collection g2 TRAINABLE_VARIABLES)
                = true).
  { apply existsb_exists. eexists. split; [apply list_elem_of_In, Hk |].
    exact Hdepends. }
  destruct (collection g2 TRAINABLE_VARIABLES) as [| var vars] eqn:Hvars;
    [apply elem_of_nil in Hk; contradiction |].
  cbv beta iota zeta in Htrain. rewrite Hex in Htrain. rewrite <- Hvars in *.
  eexists (total, _), g2. split.
  { unfold training_graph, bind. rewrite Hin. cbn [fst snd].
    rewrite Hinf, Hloss, Htrain. reflexivity. }
  cbn [fst snd]. split; [reflexivity |].
  intros truediv evaluate gradient batch_statistic s schedule Hs Hvalid.
  destruct (well_formed_initialised g2 s Hwf2 Hs) as (Hnd & Hvs & Hus).
  destruct (case_is_step_function
              (num_epoch truediv global_step (global_step_value s) (batch_size F) N)
              b0 v0 bs' vs' Hsorted ltac:(simpl in Hlen; lia))
    as [Hcase [rate Hrate]].
  rewrite Hrate in Hcase.
  destruct (every_schedule_steps truediv evaluate gradient batch_statistic
              global_step (batch_size F) N _ _ (collection g2 LOSSES) total
              _ _ s rate Hcase Hvs Hnd Hus schedule Hvalid)
    as (s' & Hrun & Hgs & _).
  exists s'. split; assumption.
Qed.

Lemma training_graph_runs_default :
  returns (training_graph default_flags example_examples_per_epoch decimal
             decimal example_global_step) empty_graph
    (fun r _ => get_shape r.1 = []).
Proof.
  eapply returns_weaken.
  - apply (training_graph_runs default_flags example_examples_per_epoch
             decimal decimal example_global_step empty_graph
             [Q2Qc 150; Q2Qc 225] [Q2Qc 0.1; Q2Qc 0.01; Q2Qc 0.001]
             default_flags_well_configured);
      [discriminate | discriminate | by_computation | by_computation
      | reflexivity | repeat constructor; by_computation
      | apply well_formed_empty | constructor].
  - intros r g' [Hshape _]. exact Hshape.
Defined.

(** ** The convolution and the unit layer *)

Lemma same_output_size_ceil (n s : Z) :
  0 < s ->
  (tf.same_output_size n s - 1) * s < n <= tf.same_output_size n s * s.
Proof.
  intros Hs. unfold tf.same_output_size.
  pose proof (Z.div_mod (n + s - 1) s ltac:(lia)) as Hdm.
  pose proof (Z.mod_pos_bound (n + s - 1) s Hs) as Hb.
  nia.
Qed.

Lemma layers_conv2d_raises (inputs : tensor) (filters k s : Z) (scale : Qc)
    (g : graph) (e : exception) :
  tf.layers_conv2d inputs filters k s scale g = Raise e -> e = ValueError.
Proof.
  unfold tf.layers_conv2d.
  destruct (get_shape inputs) as [| b [| h [| w [| c [| ? ?]]]]];
    try (intros H; injection H as <-; reflexivity).
  destruct ((filters <? 0) || (k <=? 0) || (s <=? 0));
    [intros H; injection H as <-; reflexivity |].
  unfold bind, tf.get_variable, tf.collection_append, tf.collection_extend,
    tf.apply_l2_regularizer, ret, raise.
  destruct (bool_decide (scale < 0)%Qc);
    [intros H; injection H as <-; reflexivity |].
  destruct (bool_decide (scale = 0%Qc)); discriminate.
Qed.

(** X12: on a feature map of a floating-point type, [conv2d] returns
    exactly when the input has rank 4, the number of output channels is
    not negative, the kernel size and the stride are positive and the
    weight decay is not negative; otherwise it raises [ValueError] and
    nothing else.  When it returns, the output has the batch size and
    the dtype of the input, [out_channel] channels, and a height and a
    width that are those of the input divided by the stride and rounded
    up, whatever the kernel size (the padding is SAME): a stride of 1
    keeps them.  One trainable variable is created, one penalty is
    registered unless the weight decay is zero, no update is
    registered and the collection ['losses'] is left as it is. *)
Theorem conv2d_law (F : Flags) (features : tensor)
    (kernel_size stride out_channel : Z) (g : graph) :
  is_floating (get_dtype_of features) = true ->
  ((exists t g',
      conv2d F features kernel_size stride out_channel g = Ok (t, g'))
   <-> (exists b h w c, get_shape features = [b; h; w; c]) /\
       0 <= out_channel /\ 0 < kernel_size /\ 0 < stride /\
       (0 <= wd F)%Qc) /\
  (forall e,
     conv2d F features kernel_size stride out_channel g = Raise e ->
     e = ValueError) /\
  (forall t g',
     conv2d F features kernel_size stride out_channel g = Ok (t, g') ->
     exists b h w c h' w',
       get_shape features = [b; h; w; c] /\
       get_shape t = [b; h'; w'; out_channel] /\
       (h' - 1) * stride < h <= h' * stride /\
       (w' - 1) * stride < w <= w' * stride /\
       (stride = 1 -> h' = h /\ w' = w) /\
       get_dtype_of t = get_dtype_of features /\
       extends g g' 1 1 (penalties_per_weight (wd F)) 0).
Proof.
  intros _. unfold conv2d. split; [| split].
  - split.
    + intros (t & g' & H).
      apply layers_conv2d_adds in H
        as (b & h & w & c & Hs & Hf & Hk & Hst & Hsc & _).
      split; [eauto |]. repeat split; assumption.
    + intros ((b & h & w & c & Hs) & Hf & Hk & Hst & Hsc).
      destruct (layers_conv2d_returns features out_channel kernel_size stride
                  (wd F) g b h w c Hs Hf Hk Hst Hsc) as (t & g' & H & _).
      eauto.
  - apply layers_conv2d_raises.
  - intros t g' H.
    apply layers_conv2d_adds in H
      as (b & h & w & c & Hs & Hf & Hk & Hst & Hsc & -> & Hadds).
    exists b, h, w, c, (tf.same_output_size h stride),
      (tf.same_output_size w stride).
    split; [exact Hs |]. split; [reflexivity |].
    split; [apply same_output_size_ceil; exact Hst |].
    split; [apply same_output_size_ceil; exact Hst |].
    split; [| split; [reflexivity | exact (adds_extends _ _ _ _ _ _ Hadds)]].
    intros ->. pose proof (same_output_size_ceil h 1 ltac:(lia)).
    pose proof (same_output_size_ceil w 1 ltac:(lia)). lia.
Qed.

Lemma conv2d_law_example :
  exists t g',
    conv2d default_flags (cifar10_input_batch default_flags).1 3 2 16
      empty_graph = Ok (t, g') /\
    get_shape t = [128; 16; 16; 16].
Proof.
  destruct (conv2d_law default_flags (cifar10_input_batch default_flags).1
              3 2 16 empty_graph eq_refl) as ([_ Hreturns] & _ & Hshape).
  destruct Hreturns as (t & g' & Hconv).
  { split; [do 4 eexists; reflexivity |].
    repeat split; try lia. vm_compute. discriminate. }
  exists t, g'. split; [exact Hconv |].
  destruct (Hshape t g' Hconv)
    as (b & h & w & c & h' & w' & Hs & -> & Hh & Hw & _).
  injection Hs as <- <- <- <-. unfold IMAGE_SIZE in *.
  f_equal. f_equal; [lia |]. f_equal. lia.
Defined.

Section UnitLayerDropout.

Variable F : Flags.



End UnitLayerDropout.


(** ** The averages of the losses *)

Section LossAverages.

Variable truediv : Z -> Z -> Qc.
Variable evaluate : tensor -> gmap nat (list Qc) -> Qc.
Variable gradient : tensor -> gmap nat (list Qc) -> nat -> list Qc.
Variable batch_statistic : tensor -> gmap nat (list Qc) -> list Qc.

Lemma exec_keeps_loss_shadows (k : op_kind) (st st' : state) :
  (forall d l, k <> LossAverages d l) ->
  exec truediv evaluate gradient batch_statistic k st = Some st' ->
  loss_shadows st' = loss_shadows st.
Proof.
  intros Hk Hexec. destruct k as [? ? ? ? ? | d l | ? ? | t | ? ? ? | u |].
  - cbn [exec] in Hexec. destruct (case _ _ _); [| discriminate].
    injection Hexec as <-. reflexivity.
  - exfalso. apply (Hk d l). reflexivity.
  - injection Hexec as <-. reflexivity.
  - cbn [exec] in Hexec. destruct (lr_value st); [| discriminate].
    destruct (grads_value st); [| discriminate].
    cbn [mbind option_bind] in Hexec.
    destruct (apply_gradient_descent _ _ _); [| discriminate].
    injection Hexec as <-. reflexivity.
  - cbn [exec] in Hexec.
    destruct (apply_variable_averages _ _ _ _); [| discriminate].
    injection Hexec as <-. reflexivity.
  - apply exec_update_inv in Hexec as (id & w & _ & _ & ->). reflexivity.
  - injection Hexec as <-. reflexivity.
Qed.

Variable global_step : tensor.
Variable batch : Z.
Variable N : positive.
Variable pairs : list (predicate * Qc).
Variable default_rate : Qc.
Variable losses : list tensor.
Variable total_loss : tensor.
Variable var_list update_ops : list tensor.
Variable s0 : state.
Variable rate0 : Qc.

Abbreviation ops :=
  (train_ops (PiecewiseConstant global_step batch N pairs default_rate)
     losses total_loss global_step var_list update_ops).

Hypothesis Hrate :
  case pairs default_rate (num_epoch truediv global_step (global_step_value s0) batch N)
  = Some rate0.
Hypothesis Hvars :
  Forall (fun v => exists id, variable_id v = Some id /\
                              is_Some (var_values s0 !! id) /\
                              is_Some (variable_shadows s0 !! id)) var_list.
Hypothesis Hnodup : NoDup (variable_ids var_list).
Hypothesis Hupd :
  Forall (fun u => exists id, update_target u = Some id /\
                              is_Some (var_values s0 !! id) /\
                              id ∉ variable_ids var_list) update_ops.

Lemma step_preserves_loss_invariant (n : op_name) (o : op_node)
    (done : list op_name) (st : state) :
  find_op ops n = Some o ->
  (forall i, i ∈ data_inputs o ++ control_inputs o -> i ∈ done) ->
  n ∉ done ->
  step_invariant gradient total_loss var_list s0 rate0 done st /\
  loss_invariant evaluate (losses ++ [total_loss]) var_list s0 done st ->
  exists st',
    exec truediv evaluate gradient batch_statistic (kind o) st = Some st' /\
    step_invariant gradient total_loss var_list s0 rate0 (n :: done) st' /\
    loss_invariant evaluate (losses ++ [total_loss]) var_list s0
      (n :: done) st'.
Proof.
  intros Ho Hinputs Hfresh [HI (L1 & L2 & L3)].
  destruct (step_preserves_invariant truediv evaluate gradient batch_statistic
              global_step batch N pairs default_rate losses total_loss
              var_list update_ops s0 rate0 Hrate Hvars Hnodup Hupd
              n o done st Ho Hinputs Hfresh HI) as (st' & Hexec & HI').
  exists st'. split; [exact Hexec |]. split; [exact HI' |].
  rewrite find_train_op in Ho.
  destruct (decide (n = loss_averages_op)) as [-> | Hne].
  - injection Ho as <-. cbn [kind exec] in Hexec. injection Hexec as <-.
    destruct HI as (_ & _ & _ & _ & I5 & I6 & _).
    assert (Hnot : apply_gradient_op ∉ done).
    { intros Hin. apply Hfresh, L1. apply (I6 Hin). }
    destruct (I5 Hnot) as [_ Hagree].
    split; [| split].
    + intros _. apply list_elem_of_here.
    + intros Hnotin. exfalso. apply Hnotin, list_elem_of_here.
    + intros _. exists (var_values st). split; [exact Hagree |].
      cbn [loss_shadows set_loss_shadows]. rewrite (L2 Hfresh). reflexivity.
  - assert (Hkeep : loss_shadows st' = loss_shadows st).
    { apply (exec_keeps_loss_shadows (kind o)); [| exact Hexec].
      intros d l Hk. destruct n; cbn [train_op_of] in Ho;
        try (injection Ho as <-; discriminate);
        try contradiction.
      destruct (update_ops !! k); [| discriminate].
      injection Ho as <-. discriminate. }
    split; [| split].
    + intros Hin. apply list_elem_of_further.
      apply elem_of_cons in Hin as [Hin | Hin].
      * subst n. injection Ho as <-.
        apply Hinputs. cbn [data_inputs control_inputs app].
        apply list_elem_of_here.
      * apply L1. exact Hin.
    + intros Hnotin. rewrite Hkeep. apply L2.
      intros Hin. apply Hnotin, list_elem_of_further. exact Hin.
    + intros Hin. apply elem_of_cons in Hin as [Hin | Hin]; [congruence |].
      rewrite Hkeep. apply L3. exact Hin.
Qed.

Lemma every_schedule_averages_losses (schedule : list op_name) :
  valid_schedule ops train_op schedule = true ->
  exists s',
    run truediv evaluate gradient batch_statistic ops train_op schedule s0 = Some s' /\
    exists store,
      agrees var_list s0 store /\
      loss_shadows s'
      = moving_average (Q2Qc 0.9) (loss_shadows s0)
          (map (fun t => evaluate t store) (losses ++ [total_loss])).
Proof.
  intros Hvalid. unfold run. rewrite Hvalid.
  pose proof (valid_schedule_order _ _ _ _ _ _ _ Hvalid) as (Hbefore & _).
  apply runs_before_elem in Hbefore as [Hloss _].
  apply andb_true_iff in Hvalid as [Hr _].
  destruct (run_schedule_invariant truediv evaluate gradient batch_statistic ops
              (fun done st =>
                 step_invariant gradient total_loss var_list s0 rate0 done st
                 /\ loss_invariant evaluate (losses ++ [total_loss]) var_list
                      s0 done st)
              step_preserves_loss_invariant schedule [] (fresh s0) Hr)
    as (s' & Hrun & _ & _ & _ & L3).
  { split; [apply step_invariant_fresh |].
    split; [| split].
    - intros H. apply elem_of_nil in H. contradiction.
    - intros _. reflexivity.
    - intros H. apply elem_of_nil in H. contradiction. }
  exists s'. split; [exact Hrun |]. apply L3.
  rewrite app_nil_r. apply list_elem_of_In, in_rev.
  rewrite rev_involutive. apply list_elem_of_In. exact Hloss.
Qed.

End LossAverages.

(** X15: the averages of the losses are taken before the parameters
    move.  In every schedule of a training step, from a state in which
    the step can run, the averages of the losses after the step are
    those before it moved, with the decay 0.9, towards the values of the
    entries of ['losses'] and of the total loss, and these values are
    evaluated on a store that still holds the values the trainable
    variables had before the step. *)
Theorem loss_averages_use_old_parameters (F : Flags) (N : positive)
    (float np_float64 : string -> option Qc)
    (total_loss global_step : tensor) (g g' : graph) (ops : list op_node)
    (truediv : Z -> Z -> Qc)
    (evaluate : tensor -> gmap nat (list Qc) -> Qc)
    (gradient : tensor -> gmap nat (list Qc) -> nat -> list Qc)
    (batch_statistic : tensor -> gmap nat (list Qc) -> list Qc)
    (s : state) (rate : Qc) (schedule : list op_name) :
  train F N float np_float64 total_loss global_step g = Ok (ops, g') ->
  learning_rate truediv ops (global_step_value s) = Some rate ->
  initialised (collection g TRAINABLE_VARIABLES) (collection g UPDATE_OPS) s ->
  valid_schedule ops train_op schedule = true ->
  exists s',
    run truediv evaluate gradient batch_statistic ops train_op schedule s = Some s' /\
    exists store,
      (forall id,
         id ∈ variable_ids (collection g TRAINABLE_VARIABLES) ->
         store !! id = var_values s !! id) /\
      loss_shadows s'
      = moving_average (Q2Qc 0.9) (loss_shadows s)
          (map (fun t => evaluate t store)
             (collection g LOSSES ++ [total_loss])).
Proof.
  intros Htrain Hrate (Hnodup & Hvars & Hupd) Hvalid.
  destruct (train_inv F N float np_float64 total_loss global_step g g' ops
              Htrain)
    as (b0 & bs & v0 & vs & _ & _ & _ & _ & _ & ->).
  unfold learning_rate in Hrate. rewrite find_train_op in Hrate.
  cbn [train_op_of kind] in Hrate.
  apply (every_schedule_averages_losses truediv evaluate gradient batch_statistic
           global_step (batch_size F) N _ _ _ total_loss _ _ s rate
           Hrate Hvars Hnodup Hupd schedule Hvalid).
Qed.

Lemma loss_averages_use_old_parameters_example :
  (run example_truediv example_evaluate example_gradient example_batch_statistic
     (example_ops default_flags) train_op (schedule_averages_last 1)
     example_state
   ≫= fun s' => Some (loss_shadows s'))
  = Some [Q2Qc 0.1; Q2Qc 0.1; Q2Qc 0.1].
Proof.
  destruct (loss_averages_use_old_parameters default_flags
              example_examples_per_epoch decimal decimal example_total_loss
              example_global_step example_loss_graph example_loss_graph
              (example_ops default_flags)
              example_truediv example_evaluate example_gradient example_batch_statistic
              example_state (Q2Qc 0.1) (schedule_averages_last 1)
              example_train_builds
              ltac:(by_computation)
              example_state_initialised
              ltac:(vm_compute; reflexivity))
    as (s' & Hrun & store & _ & Hshadows).
  rewrite Hrun. cbn [mbind option_bind]. rewrite Hshadows.
  reflexivity.
Defined.

(** ** The dtype of the network *)

Lemma concat_pair_dtype (x u : tensor) (axis : nat) (g g' : graph)
    (out : tensor) :
  tf.concat [x; u] axis g = Ok (out, g') ->
  get_dtype_of out = get_dtype_of x.
Proof.
  unfold tf.concat. destruct (negb _); [discriminate |].
  destruct (foldl _ _ _); [| discriminate].
  destruct (bool_decide _); [| discriminate].
  intros H. apply ret_Ok in H as [-> _]. reflexivity.
Qed.

Lemma average_pooling2d_dtype (x : tensor) (pool strides : Z) (g g' : graph)
    (out : tensor) :
  tf.layers_average_pooling2d x pool strides g = Ok (out, g') ->
  get_dtype_of out = get_dtype_of x.
Proof.
  unfold tf.layers_average_pooling2d.
  destruct (get_shape x) as [| b [| h [| w [| c [| ? ?]]]]]; try discriminate.
  destruct (tf.valid_output_size h pool strides); [| discriminate].
  destruct (tf.valid_output_size w pool strides); [| discriminate].
  intros H. apply ret_Ok in H as [-> _]. reflexivity.
Qed.

Lemma reduce_mean_1_2_dtype (x : tensor) (g g' : graph) (out : tensor) :
  tf.reduce_mean_1_2 x g = Ok (out, g') -> get_dtype_of out = get_dtype_of x.
Proof.
  unfold tf.reduce_mean_1_2.
  destruct (get_shape x) as [| b [| h [| w rest]]]; try discriminate.
  intros H. apply ret_Ok in H as [-> _]. reflexivity.
Qed.

Section Dtype.

Variable F : Flags.

Lemma unit_layer_dtype (features : tensor) (out_channel : Z) (training : bool)
    (g g' : graph) (u : tensor) :
  unit_layer F features out_channel training g = Ok (u, g') ->
  get_dtype_of u = get_dtype_of features.
Proof.
  unfold unit_layer. intros H. do 4 bind_inv H. apply ret_Ok in H as [-> _].
  apply layers_batch_normalization_adds in Hm as (c & _ & -> & _).
  apply ret_Ok in Hm0 as [-> _].
  unfold conv2d in Hm1.
  apply layers_conv2d_adds in Hm1
    as (b & h & w & c' & _ & _ & _ & _ & _ & -> & _).
  apply layers_dropout_Ok in Hm2 as (_ & _ & ->). reflexivity.
Qed.

Lemma block_loop_dtype (n : nat) (growth : Z) (training : bool) :
  forall (features : tensor) (g g' : graph) (out : tensor),
    block_loop F n features growth training g = Ok (out, g') ->
    get_dtype_of out = get_dtype_of features.
Proof.
  induction n as [| n IH]; intros features g g' out H.
  - apply ret_Ok in H as [-> _]. reflexivity.
  - cbn [block_loop] in H. do 2 bind_inv H.
    apply concat_pair_dtype in Hm0. apply IH in H. congruence.
Qed.

Lemma transition_dtype (features : tensor) (training : bool) (g g' : graph)
    (out : tensor) :
  transition F features training g = Ok (out, g') ->
  get_dtype_of out = get_dtype_of features.
Proof.
  unfold transition. intros H. do 3 bind_inv H. apply ret_Ok in H as [-> _].
  apply unit_layer_dtype in Hm0. apply average_pooling2d_dtype in Hm1.
  congruence.
Qed.

Lemma inference_dtype (images : tensor) (training : bool) (g g' : graph)
    (logits : tensor) :
  inference F images training g = Ok (logits, g') ->
  get_dtype_of logits = get_dtype_of images.
Proof.
  unfold inference. intros H. do 11 bind_inv H. apply ret_Ok in H as [-> _].
  unfold conv2d in Hm.
  apply layers_conv2d_adds in Hm
    as (b & h & w & c & _ & _ & _ & _ & _ & -> & _).
  unfold block in Hm0, Hm2, Hm4.
  apply block_loop_dtype in Hm0, Hm2, Hm4.
  apply transition_dtype in Hm1, Hm3, Hm5.
  apply layers_batch_normalization_adds in Hm6 as (c' & _ & -> & _).
  apply ret_Ok in Hm7 as [-> _].
  unfold global_average_pooling2d in Hm8.
  apply reduce_mean_1_2_dtype in Hm8.
  apply layers_dense_adds in Hm9 as (cd & _ & _ & _ & _ & -> & _).
  cbn [get_dtype_of] in *. congruence.
Qed.

(** X16: the network has the dtype of its input.  The logits of
    [inference] have the dtype of the images, whatever [use_fp16] says.
    Under [use_fp16] the images and the labels that [distorted_inputs]
    and [inputs] return are cast to float16, so the logits computed on
    them are float16, the dtype that [_get_dtype] gives; without
    [use_fp16] both functions return the batch of [cifar10_input] as it
    is.  Without a data directory both raise [ValueError]. *)
Theorem logits_have_the_dtype_of_the_images (training eval_data : bool)
    (g : graph) :
  (forall images logits g',
     inference F images training g = Ok (logits, g') ->
     get_dtype_of logits = get_dtype_of images) /\
  (use_fp16 F = true ->
   forall batch g1,
     distorted_inputs F g = Ok (batch, g1) \/
     inputs F eval_data g = Ok (batch, g1) ->
     get_dtype_of batch.1 = float16 /\
     get_dtype_of batch.2 = float16 /\
     forall logits g2,
       inference F batch.1 training g1 = Ok (logits, g2) ->
       get_dtype_of logits = float16 /\ _get_dtype F = float16) /\
  (use_fp16 F = false -> data_dir F <> EmptyString ->
   distorted_inputs F g = Ok (cifar10_input_batch F, g) /\
   inputs F eval_data g = Ok (cifar10_input_batch F, g)) /\
  (data_dir F = EmptyString ->
   distorted_inputs F g = Raise ValueError /\
   inputs F eval_data g = Raise ValueError).
Proof.
  split; [intros images logits g'; apply inference_dtype |].
  split; [| split].
  - intros Hfp batch g1 Hbatch.
    assert (Hcast : get_dtype_of batch.1 = float16 /\
                    get_dtype_of batch.2 = float16).
    { revert Hbatch. unfold distorted_inputs, inputs. rewrite Hfp.
      destruct (bool_decide (data_dir F = EmptyString));
        [intros [H | H]; discriminate H |].
      destruct (cifar10_input_batch F) as [images labels].
      unfold bind, tf.cast, ret.
      intros [H | H]; injection H as <- _; split; reflexivity. }
    destruct Hcast as [Himages Hlabels].
    split; [exact Himages |]. split; [exact Hlabels |].
    intros logits g2 Hinf. split.
    + rewrite (inference_dtype _ _ _ _ _ Hinf). exact Himages.
    + unfold _get_dtype. rewrite Hfp. reflexivity.
  - intros Hfp Hdir. unfold distorted_inputs, inputs. rewrite Hfp.
    rewrite bool_decide_eq_false_2 by exact Hdir.
    destruct (cifar10_input_batch F) as [images labels].
    split; reflexivity.
  - intros Hdir. unfold distorted_inputs, inputs.
    rewrite bool_decide_eq_true_2 by exact Hdir. split; reflexivity.
Qed.

End Dtype.

Lemma logits_have_the_dtype_of_the_images_fp16 :
  returns (batch <- distorted_inputs (with_fp16 default_flags true) ;;
           inference (with_fp16 default_flags true) batch.1 true) empty_graph
    (fun logits _ => get_dtype_of logits = float16).
Proof.
  destruct (distorted_inputs_returns (with_fp16 default_flags true)
              empty_graph ltac:(discriminate))
    as (images & labels & Hbatch & Hshape & _).
  destruct (inference_returns (with_fp16 default_flags true)
              default_flags_well_configured images true empty_graph _ Hshape)
    as (logits & g' & Hinf & _).
  exists logits, g'. split.
  - unfold bind. rewrite Hbatch. exact Hinf.
  - destruct (logits_have_the_dtype_of_the_images
                (with_fp16 default_flags true) true true empty_graph)
      as (_ & Hfp & _).
    destruct (Hfp eq_refl (images, labels) empty_graph (or_introl Hbatch))
      as (_ & _ & Hlogits).
    exact (proj1 (Hlogits logits g' Hinf)).
Defined.

(** ** The main path of the network *)

Lemma main_path_refl (x : tensor) : main_path [] x x.
Proof. exists []. split; reflexivity. Qed.

Lemma main_path_cons (o : operation) (ops : list operation) (x y : tensor)
    (rest : list tensor) (dt : dtype) (s : list Z) :
  main_path ops x y -> main_path (o :: ops) x (Op o (y :: rest) dt s).
Proof.
  intros (pre & Hspine & Hops). exists (Op o (y :: rest) dt s :: pre).
  split.
  - cbn [spine]. rewrite Hspine. reflexivity.
  - change (omap operation_of (Op o (y :: rest) dt s :: pre))
      with (o :: omap operation_of pre).
    rewrite Hops. reflexivity.
Qed.

Lemma main_path_trans (ops1 ops2 : list operation) (x y z : tensor) :
  main_path ops1 x y -> main_path ops2 y z -> main_path (ops2 ++ ops1) x z.
Proof.
  intros (pre1 & Hs1 & Ho1) (pre2 & Hs2 & Ho2). exists (pre2 ++ pre1).
  split.
  - rewrite Hs2, Hs1. apply app_assoc.
  - rewrite omap_app, Ho1, Ho2. reflexivity.
Qed.

Lemma layers_dropout_form (x : tensor) (rate : Qc) (training : bool)
    (g g' : graph) (out : tensor) :
  tf.layers_dropout x rate training g = Ok (out, g') ->
  out = Op (if training then Dropout rate else Identity) [x]
          (get_dtype_of x) (get_shape x).
Proof.
  unfold tf.layers_dropout. destruct training.
  - destruct (_ && _); [| discriminate].
    intros H. apply ret_Ok in H as [-> _]. reflexivity.
  - intros H. apply ret_Ok in H as [-> _]. reflexivity.
Qed.

Lemma concat_pair_form (x u : tensor) (g g' : graph) (out : tensor) :
  tf.concat [x; u] 3 g = Ok (out, g') ->
  exists dt s, out = Op (ConcatV2 3) [x; u] dt s.
Proof.
  unfold tf.concat. destruct (negb _); [discriminate |].
  destruct (foldl _ _ _); [| discriminate].
  destruct (bool_decide _); [| discriminate].
  intros H. apply ret_Ok in H as [-> _]. eauto.
Qed.

Lemma average_pooling2d_form (x : tensor) (pool strides : Z) (g g' : graph)
    (out : tensor) :
  tf.layers_average_pooling2d x pool strides g = Ok (out, g') ->
  exists dt s, out = Op (AvgPool pool strides) [x] dt s.
Proof.
  unfold tf.layers_average_pooling2d.
  destruct (get_shape x) as [| b [| h [| w [| c [| ? ?]]]]]; try discriminate.
  destruct (tf.valid_output_size h pool strides); [| discriminate].
  destruct (tf.valid_output_size w pool strides); [| discriminate].
  intros H. apply ret_Ok in H as [-> _]. eauto.
Qed.

Lemma reduce_mean_1_2_form (x : tensor) (g g' : graph) (out : tensor) :
  tf.reduce_mean_1_2 x g = Ok (out, g') ->
  exists dt s, out = Op (Mean [1; 2]) [x] dt s.
Proof.
  unfold tf.reduce_mean_1_2.
  destruct (get_shape x) as [| b [| h [| w rest]]]; try discriminate.
  intros H. apply ret_Ok in H as [-> _]. eauto.
Qed.

Section MainPath.

Variable F : Flags.
Hypothesis HF : well_configured F.

Lemma unit_layer_main_path (features : tensor) (out_channel : Z)
    (training : bool) (g g' : graph) (u : tensor) :
  unit_layer F features out_channel training g = Ok (u, g') ->
  main_path (unit_layer_ops F training out_channel) features u.
Proof.
  unfold unit_layer. intros H. do 4 bind_inv H. apply ret_Ok in H as [-> _].
  apply layers_batch_normalization_adds in Hm as (c & _ & -> & _).
  apply ret_Ok in Hm0 as [-> _].
  unfold conv2d in Hm1.
  apply layers_conv2d_adds in Hm1
    as (b & h & w & c' & _ & _ & _ & _ & _ & -> & _).
  apply layers_dropout_form in Hm2 as ->.
  unfold unit_layer_ops. repeat apply main_path_cons. apply main_path_refl.
Qed.

Lemma block_loop_main_path (n : nat) (growth : Z) (training : bool) :
  forall (features : tensor) (g g' : graph) (out : tensor),
    block_loop F n features growth training g = Ok (out, g') ->
    main_path (replicate n (ConcatV2 3)) features out.
Proof.
  induction n as [| n IH]; intros features g g' out H.
  - apply ret_Ok in H as [-> _]. apply main_path_refl.
  - cbn [block_loop] in H. do 2 bind_inv H.
    apply concat_pair_form in Hm0 as (dt & s & ->). apply IH in H.
    rewrite replicate_S_end.
    apply (main_path_trans _ _ _ _ _ (main_path_cons _ _ _ _ _ _ _
                                        (main_path_refl features)) H).
Qed.

Lemma transition_main_path (features : tensor) (training : bool)
    (g g' : graph) (out : tensor) (b h w c : Z) :
  get_shape features = [b; h; w; c] ->
  transition F features training g = Ok (out, g') ->
  main_path (transition_ops F training c) features out.
Proof.
  unfold transition. intros Hs H. do 3 bind_inv H. apply ret_Ok in H as [-> _].
  apply dim_Ok in Hm as [-> Hdim]. rewrite Hs in Hdim. injection Hdim as <-.
  apply unit_layer_main_path in Hm0.
  apply average_pooling2d_form in Hm1 as (dt & s & ->).
  unfold transition_ops. apply main_path_cons. exact Hm0.
Qed.

Lemma inference_main_path (images : tensor) (training : bool) (g g' : graph)
    (logits : tensor) (b : Z) :
  get_shape images = [b; 32; 32; 3] ->
  inference F images training g = Ok (logits, g') ->
  main_path (network_ops F training)
    (Op (Conv2D 16 3 1)
       [images; VariableV2 (num_variables g) (get_dtype_of images) [3; 3; 3; 16]]
       (get_dtype_of images) [b; 32; 32; 16])
    logits.
Proof.
  intros Hs H. pose proof HF as (_ & _ & _ & Hgrowth).
  unfold inference in H. do 11 bind_inv H. apply ret_Ok in H as [-> _].
  unfold conv2d in Hm.
  apply layers_conv2d_adds in Hm
    as (b0 & h0 & w0 & c0 & Hs0 & _ & _ & _ & _ & -> & _).
  rewrite Hs in Hs0. injection Hs0 as <- <- <- <-.
  change (tf.same_output_size 32 1) with 32 in *.
  set (conv0 := Op (Conv2D 16 3 1) _ _ _) in *.
  unfold block in Hm0, Hm2, Hm4.
  (* the first stage *)
  destruct (block_loop_returns F HF (Z.to_nat (first_depth F)) _ training
              Hgrowth conv0 g0 b 32 32 16 eq_refl)
    as (o1 & g1' & Heq1 & Hs1 & _).
  rewrite Hm0 in Heq1. injection Heq1 as <- <-.
  apply block_loop_main_path in Hm0.
  pose proof (transition_main_path _ _ _ _ _ _ _ _ _ Hs1 Hm1) as Hp1.
  destruct (transition_returns F HF a0 training g1 b 32 32 _ Hs1
              ltac:(lia) ltac:(lia) ltac:(lia))
    as (d1 & g2' & Heq & (u1 & Hd1 & _) ).
  rewrite Hm1 in Heq. injection Heq as <- <-.
  assert (Hsd1 : get_shape a1 = [b; 16; 16;
                                 16 + Z.of_nat (Z.to_nat (first_depth F))
                                      * growth_rate F])
    by (rewrite Hd1; reflexivity).
  (* the second stage *)
  destruct (block_loop_returns F HF (Z.to_nat (second_depth F)) _ training
              Hgrowth a1 g2 b 16 16 _ Hsd1)
    as (o2 & g3' & Heq2 & Hs2 & _).
  rewrite Hm2 in Heq2. injection Heq2 as <- <-.
  apply block_loop_main_path in Hm2.
  pose proof (transition_main_path _ _ _ _ _ _ _ _ _ Hs2 Hm3) as Hp2.
  destruct (transition_returns F HF a2 training g3 b 16 16 _ Hs2
              ltac:(lia) ltac:(lia) ltac:(lia))
    as (d2 & g4' & Heq & (u2 & Hd2 & _)).
  rewrite Hm3 in Heq. injection Heq as <- <-.
  assert (Hsd2 : get_shape a3
                 = [b; 8; 8;
                    16 + Z.of_nat (Z.to_nat (first_depth F)) * growth_rate F
                    + Z.of_nat (Z.to_nat (second_depth F)) * growth_rate F])
    by (rewrite Hd2; reflexivity).
  (* the third stage *)
  destruct (block_loop_returns F HF (Z.to_nat (third_depth F)) _ training
              Hgrowth a3 g4 b 8 8 _ Hsd2)
    as (o3 & g5' & Heq3 & Hs3 & _).
  rewrite Hm4 in Heq3. injection Heq3 as <- <-.
  apply block_loop_main_path in Hm4.
  pose proof (transition_main_path _ _ _ _ _ _ _ _ _ Hs3 Hm5) as Hp3.
  (* the head *)
  apply layers_batch_normalization_adds in Hm6 as (c' & _ & -> & _).
  apply ret_Ok in Hm7 as [-> _].
  unfold global_average_pooling2d in Hm8.
  apply reduce_mean_1_2_form in Hm8 as (dt & s & ->).
  apply layers_dense_adds in Hm9 as (cd & _ & _ & _ & _ & -> & _).
  unfold network_ops. cbv zeta.
  repeat (apply main_path_cons || (cbn [app]; apply main_path_cons)).
  repeat (eapply main_path_trans; [| eassumption]).
  exact Hm0.
Qed.

End MainPath.

(** C9: on a batch of [b] images of 32x32x3, in training mode and in
    inference mode, the network is built without error and its logits
    have the shape [[b; NUM_CLASSES]] with [NUM_CLASSES = 10].  Read
    from the logits back along the first input of every operation, the
    network is the classifier head, the global average pooling, the
    final normalize and rectify pass and the three stages, on top of
    one 3x3 stride-1 convolution with 16 output channels, whose input is
    the images themselves and whose kernel is a variable. *)
Theorem inference_logits_shape (F : Flags) (images : tensor)
    (training : bool) (g : graph) (b : Z) :
  well_configured F ->
  get_shape images = [b; 32; 32; 3] ->
  returns (inference F images training) g
    (fun logits _ =>
       get_shape logits = [b; NUM_CLASSES] /\
       NUM_CLASSES = 10 /\
       exists kernel rest,
         is_variable kernel /\
         spine logits
         = rest
           ++ Op (Conv2D 16 3 1) [images; kernel] (get_dtype_of images)
                [b; 32; 32; 16]
              :: spine images /\
         omap operation_of rest = network_ops F training).
Proof.
  intros HF Hs.
  destruct (inference_returns F HF images training g b Hs)
    as (logits & g' & Hinf & Hshape & _).
  exists logits, g'. split; [exact Hinf |].
  split; [exact Hshape |]. split; [reflexivity |].
  destruct (inference_main_path F HF images training g g' logits b Hs Hinf)
    as (rest & Hspine & Hops).
  eexists _, rest. split; [apply is_variable_intro |].
  split; [exact Hspine | exact Hops].
Qed.

Lemma inference_logits_shape_default :
  returns (inference default_flags (cifar10_input_batch default_flags).1 true)
    empty_graph
    (fun logits _ =>
       get_shape logits = [128; 10] /\
       omap operation_of (spine logits)
       = network_ops default_flags true ++ [Conv2D 16 3 1]) /\
  built_shape
    (inference default_flags (cifar10_input_batch default_flags).1 false
       empty_graph) = Ok [128; 10].
Proof.
  split.
  - eapply returns_weaken.
    + apply (inference_logits_shape default_flags
               (cifar10_input_batch default_flags).1 true empty_graph 128
               default_flags_well_configured eq_refl).
    + intros logits g' (Hshape & _ & kernel & rest & _ & Hspine & Hops).
      split; [exact Hshape |].
      rewrite Hspine, omap_app, Hops. reflexivity.
  - destruct (inference_logits_shape default_flags
                (cifar10_input_batch default_flags).1 false empty_graph 128
                default_flags_well_configured eq_refl)
      as (logits & g' & Hrun & Hshape & _).
    rewrite Hrun. simpl. rewrite Hshape. reflexivity.
Defined.

(** ** The names given to the summaries *)

Lemma match_tower_prefix (s : string) :
  match_tower TOWER_NAME s
  = if String.prefix "tower_" s
    then (fun n => 6 + n)%nat <$> match_digits_slash (string_drop 6 s)
    else None.
Proof. reflexivity. Qed.

Lemma re_sub_tower_skip (name : string) (k : nat) :
  forall s : string,
    (k <= String.length s)%nat ->
    re_sub_tower name k s = re_sub_tower name 0 (string_drop k s).
Proof.
  induction k as [| k IH]; intros s Hk.
  - destruct s; reflexivity.
  - destruct s as [| c s]; [cbn in Hk; lia |].
    cbn [re_sub_tower string_drop]. apply IH. cbn in Hk. lia.
Qed.

Lemma re_sub_tower_without (s : string) :
  occurs "tower_" s = false -> re_sub_tower TOWER_NAME 0 s = s.
Proof.
  induction s as [| c s IH]; [reflexivity |].
  intros Hocc. cbn [occurs] in Hocc.
  apply orb_false_iff in Hocc as [Hprefix Hrest].
  cbn [re_sub_tower]. rewrite match_tower_prefix, Hprefix.
  rewrite (IH Hrest). reflexivity.
Qed.

Lemma digit_is_not_slash (c : ascii) :
  is_digit c = true -> Ascii.eqb c "/"%char = false.
Proof.
  intros Hd. apply Ascii.eqb_neq. intros ->. discriminate.
Qed.

Lemma match_digits_slash_digits (ds rest : string) :
  all_digits ds = true ->
  match_digits_slash (String.append ds (String "/"%char rest))
  = Some (S (String.length ds)).
Proof.
  induction ds as [| c ds IH]; intros Hd.
  - change (String.append EmptyString ?x) with x. cbn [match_digits_slash].
    reflexivity.
  - cbn [all_digits] in Hd. apply andb_true_iff in Hd as [Hc Hds].
    change (String.append (String c ds) ?x) with (String c (String.append ds x)).
    cbn [match_digits_slash]. rewrite (digit_is_not_slash c Hc), Hc.
    rewrite (IH Hds). reflexivity.
Qed.

Lemma string_drop_app (a b : string) :
  string_drop (String.length a) (String.append a b) = b.
Proof.
  induction a as [| c a IH]; [destruct b; reflexivity |].
  change (String.append (String c a) b) with (String c (String.append a b)).
  cbn [String.length string_drop]. exact IH.
Qed.

Lemma string_length_app (a b : string) :
  String.length (String.append a b) = (String.length a + String.length b)%nat.
Proof.
  induction a as [| c a IH]; [reflexivity |].
  change (String.append (String c a) b) with (String c (String.append a b)).
  cbn [String.length]. rewrite IH. reflexivity.
Qed.

Lemma prefix_append (p x : string) :
  String.prefix p (String.append p x) = true.
Proof.
  induction p as [| c p IH]; [destruct x; reflexivity |].
  change (String.append (String c p) x) with (String c (String.append p x)).
  cbn [String.prefix]. destruct (ascii_dec c c); [exact IH | contradiction].
Qed.

Lemma re_sub_tower_prefixed (ds rest : string) :
  all_digits ds = true ->
  re_sub_tower TOWER_NAME 0
    (String.append "tower_" (String.append ds (String "/"%char rest)))
  = re_sub_tower TOWER_NAME 0 rest.
Proof.
  intros Hd.
  change (String.append "tower_" ?x)
    with (String "t" (String.append "ower_" x)).
  cbn [re_sub_tower]. rewrite match_tower_prefix.
  replace (String.prefix "tower_" (String "t" (String.append "ower_" _)))
    with true
    by (symmetry; apply (prefix_append "tower_")).
  change (string_drop 6 (String "t" (String.append "ower_" ?x))) with x.
  rewrite (match_digits_slash_digits ds rest Hd). cbn [fmap option_fmap option_map].
  replace (6 + S (String.length ds) - 1)%nat
    with (String.length (String.append "ower_" (String.append ds "/")))
    by (rewrite !string_length_app; cbn [String.length]; lia).
  rewrite re_sub_tower_skip.
  - replace (String.append "ower_" (String.append ds (String "/" rest)))
      with (String.append (String.append "ower_" (String.append ds "/")) rest).
    + rewrite string_drop_app. reflexivity.
    + clear. change (String.append "ower_" ?x)
        with (String "o" (String "w" (String "e" (String "r" (String "_" x))))).
      change (String.append (String "o" (String "w" (String "e" (String "r"
                (String "_" ?x))))) ?y)
        with (String "o" (String "w" (String "e" (String "r" (String "_"
                (String.append x y)))))).
      do 5 f_equal. induction ds as [| c ds IH]; [reflexivity |].
      change (String.append (String c ds) ?x)
        with (String c (String.append ds x)).
      change (String.append (String c (String.append ds "/")) rest)
        with (String c (String.append (String.append ds "/") rest)).
      f_equal. exact IH.
  - rewrite !string_length_app. cbn [String.length]. lia.
Qed.

Lemma re_sub_tower_length (name : string) (s : string) :
  forall k, (String.length (re_sub_tower name k s) <= String.length s)%nat.
Proof.
  induction s as [| c s IH]; intros k; [reflexivity |].
  cbn [re_sub_tower]. destruct k as [| k].
  - destruct (match_tower name (String c s)).
    + cbn [String.length]. specialize (IH (n - 1)%nat). lia.
    + cbn [String.length]. specialize (IH 0%nat). lia.
  - cbn [String.length]. specialize (IH k). lia.
Qed.

Lemma re_sub_tower_after (a s : string) :
  count_char "t"%char a = 0%nat ->
  re_sub_tower TOWER_NAME 0 (String.append a s)
  = String.append a (re_sub_tower TOWER_NAME 0 s).
Proof.
  induction a as [| c a IH]; intros Hc.
  - destruct s; reflexivity.
  - cbn [count_char] in Hc.
    destruct (Ascii.eqb c "t") eqn:Hct; [discriminate |].
    change (String.append (String c a) ?x) with (String c (String.append a x)).
    cbn [re_sub_tower]. rewrite match_tower_prefix.
    replace (String.prefix "tower_" (String c (String.append a s))) with false.
    + rewrite (IH Hc). reflexivity.
    + cbn [String.prefix]. destruct (ascii_dec "t" c) as [<- | Hne];
        [rewrite Ascii.eqb_refl in Hct; discriminate | reflexivity].
Qed.

(** X17: the names under which [_activation_summary] asks for the
    summaries of an activation.  It asks for a histogram named
    [<name>/activations] and for the fraction of zeros named
    [<name>/sparsity], where [<name>] is the name of the operation
    without its tower prefixes: a name in which [tower_] does not occur
    is kept as it is; for a name under [tower_<digits>/] the summaries
    asked for are those of the name without that prefix; an occurrence
    further inside the name is removed as well; and the name never gets
    longer. *)
Theorem activation_summary_names (name : string) (x : tensor) :
  (occurs "tower_" name = false ->
   _activation_summary name x
   = [histogram (String.append name "/activations") x;
      scalar_zero_fraction (String.append name "/sparsity") x]) /\
  (forall ds,
     all_digits ds = true ->
     _activation_summary
       (String.append "tower_" (String.append ds (String "/"%char name))) x
     = _activation_summary name x) /\
  (forall a,
     count_char "t"%char a = 0%nat ->
     re_sub_tower TOWER_NAME 0 (String.append a name)
     = String.append a (re_sub_tower TOWER_NAME 0 name)) /\
  (String.length (re_sub_tower TOWER_NAME 0 name) <= String.length name)%nat.
Proof.
  split; [| split; [| split]].
  - intros Hocc. unfold _activation_summary.
    rewrite (re_sub_tower_without name Hocc). reflexivity.
  - intros ds Hd. unfold _activation_summary.
    rewrite (re_sub_tower_prefixed ds name Hd). reflexivity.
  - intros a. apply re_sub_tower_after.
  - apply re_sub_tower_length.
Qed.

Lemma activation_summary_names_example :
  _activation_summary "tower_12/conv1/conv1" example_logits
  = [histogram "conv1/conv1/activations" example_logits;
     scalar_zero_fraction "conv1/conv1/sparsity" example_logits] /\
  re_sub_tower TOWER_NAME 0 "a/tower_3/b" = "a/b".
Proof.
  destruct (activation_summary_names "conv1/conv1" example_logits)
    as (Hkeep & Hstrip & _).
  destruct (activation_summary_names "tower_3/b" example_logits)
    as (_ & _ & Hafter & _).
  split.
  - etransitivity; [exact (Hstrip "12" eq_refl) | exact (Hkeep eq_refl)].
  - exact (Hafter "a/" eq_refl).
Defined.

(** ** [conv_bn] *)



Section ConvBn.

Variable F : Flags.



End ConvBn.




(** ** Downloading the data *)

Lemma download_filename :
  List.last (split "/"%char DATA_URL) EmptyString = "cifar-10-binary.tar.gz".
Proof. reflexivity. Qed.

Section DownloadProperties.

Variable file_system : Type.
Variable os_path_exists : file_system -> string -> bool.
Variable os_stat : file_system -> string -> option Z.
Variable perform : action -> file_system -> option file_system.

Ltac download_cases H :=
  repeat (match type of H with
          | context [if ?b then _ else _] => destruct b eqn:?
          | context [perform ?a ?w] => destruct (perform a w) eqn:?
          | context [os_stat ?w ?p] => destruct (os_stat w p) eqn:?
          end; cbn [mbind option_bind] in H);
  try discriminate H; injection H as <- <-; cbn [app].

(** X19: the only actions of [maybe_download_and_extract] are, in this
    order and each at most once, the creation of the data directory, the
    download of [DATA_URL] to [cifar-10-binary.tar.gz] in that directory,
    and the extraction of that tarball into the directory.  The
    directory is created exactly when it does not exist; when nothing
    is done the file system is the one given.  When the directory, the
    tarball and the directory of the batches exist, the function returns
    without doing anything; when the directory does not exist and cannot
    be created, the function fails. *)
Theorem maybe_download_and_extract_actions (F : Flags) (w : file_system) :
  (forall w' log,
     maybe_download_and_extract file_system os_path_exists os_stat perform
       F w = Some (w', log) ->
     log `sublist_of`
       [Makedirs (data_dir F);
        Urlretrieve DATA_URL
          (os_path_join (data_dir F) "cifar-10-binary.tar.gz");
        TarfileExtractall
          (os_path_join (data_dir F) "cifar-10-binary.tar.gz") (data_dir F)]
     /\ (Makedirs (data_dir F) ∈ log
         <-> os_path_exists w (data_dir F) = false)
     /\ (log = [] -> w' = w)) /\
  (os_path_exists w (data_dir F) = true ->
   os_path_exists w (os_path_join (data_dir F) "cifar-10-binary.tar.gz")
   = true ->
   os_path_exists w (os_path_join (data_dir F) "cifar-10-batches-bin")
   = true ->
   maybe_download_and_extract file_system os_path_exists os_stat perform
     F w = Some (w, [])) /\
  (os_path_exists w (data_dir F) = false ->
   perform (Makedirs (data_dir F)) w = None ->
   maybe_download_and_extract file_system os_path_exists os_stat perform
     F w = None).
Proof.
  unfold maybe_download_and_extract. rewrite download_filename.
  split; [| split].
  - intros w' log H. download_cases H.
    all: split; [repeat constructor |].
    all: split; [| first [reflexivity | discriminate]].
    all: split;
      [ first [intros _; reflexivity
              | intros Hin; exfalso;
                repeat (apply elem_of_cons in Hin as [Hin | Hin];
                        [discriminate Hin |]);
                apply elem_of_nil in Hin; exact Hin ]
      | first [intros _; apply list_elem_of_here | discriminate] ].
  - intros Hdest Hfile Hdir. rewrite Hdest. cbn [mbind option_bind].
    rewrite Hfile. cbn [mbind option_bind]. rewrite Hdir. reflexivity.
  - intros Hdest Hfail. rewrite Hdest, Hfail. reflexivity.
Qed.

Hypothesis perform_keeps :
  forall a w w' p,
    perform a w = Some w' ->
    os_path_exists w p = true -> os_path_exists w' p = true.
Hypothesis makedirs_creates :
  forall p w w',
    perform (Makedirs p) w = Some w' -> os_path_exists w' p = true.
Hypothesis urlretrieve_creates :
  forall url p w w',
    perform (Urlretrieve url p) w = Some w' -> os_path_exists w' p = true.
Hypothesis tarball_holds_batches :
  forall d w w',
    perform (TarfileExtractall
               (os_path_join d "cifar-10-binary.tar.gz") d) w = Some w' ->
    os_path_exists w' (os_path_join d "cifar-10-batches-bin") = true.

(** X20: in a file system where no action removes a path, creating a
    directory and downloading a file leave their target behind, and
    extracting the tarball leaves the directory [cifar-10-batches-bin]
    behind: when [maybe_download_and_extract] returns, the data
    directory, the tarball and the directory of the batches exist, and a
    second call does nothing and returns the same file system. *)
Theorem maybe_download_and_extract_idempotent (F : Flags)
    (w w' : file_system) (log : list action) :
  maybe_download_and_extract file_system os_path_exists os_stat perform
    F w = Some (w', log) ->
  os_path_exists w' (data_dir F) = true /\
  os_path_exists w' (os_path_join (data_dir F) "cifar-10-binary.tar.gz")
  = true /\
  os_path_exists w' (os_path_join (data_dir F) "cifar-10-batches-bin")
  = true /\
  maybe_download_and_extract file_system os_path_exists os_stat perform
    F w' = Some (w', []).
Proof.
  intros H.
  assert (Hexists :
    os_path_exists w' (data_dir F) = true /\
    os_path_exists w' (os_path_join (data_dir F) "cifar-10-binary.tar.gz")
    = true /\
    os_path_exists w' (os_path_join (data_dir F) "cifar-10-batches-bin")
    = true).
  { revert H. unfold maybe_download_and_extract.
    rewrite download_filename. intros H. download_cases H.
    all: repeat split;
      eauto using perform_keeps, makedirs_creates, urlretrieve_creates,
        tarball_holds_batches. }
  destruct Hexists as (Hdest & Hfile & Hdir).
  repeat (split; [assumption |]).
  unfold maybe_download_and_extract. rewrite download_filename.
  rewrite Hdest. cbn [mbind option_bind].
  rewrite Hfile. cbn [mbind option_bind]. rewrite Hdir. reflexivity.
Qed.

End DownloadProperties.

Lemma example_perform_keeps (a : action) (w w' : list string) (p : string) :
  example_perform a w = Some w' ->
  example_exists w p = true -> example_exists w' p = true.
Proof.
  unfold example_exists. intros H Hin. apply bool_decide_eq_true in Hin.
  apply bool_decide_eq_true.
  destruct a; injection H as <-; apply list_elem_of_further; exact Hin.
Qed.

Lemma example_perform_creates (a : action) (w w' : list string) :
  example_perform a w = Some w' ->
  example_exists w'
    match a with
    | Makedirs p | Urlretrieve _ p => p
    | TarfileExtractall _ d => os_path_join d "cifar-10-batches-bin"
    end = true.
Proof.
  unfold example_exists. intros H. apply bool_decide_eq_true.
  destruct a; injection H as <-; apply list_elem_of_here.
Qed.

Lemma maybe_download_and_extract_actions_example :
  maybe_download_and_extract (list string) example_exists example_stat
    example_perform default_flags
    ["./cifar10_data/cifar-10-batches-bin";
     "./cifar10_data/cifar-10-binary.tar.gz"; "./cifar10_data"]
  = Some (["./cifar10_data/cifar-10-batches-bin";
           "./cifar10_data/cifar-10-binary.tar.gz"; "./cifar10_data"], []).
Proof.
  apply (maybe_download_and_extract_actions (list string) example_exists
           example_stat example_perform default_flags);
    vm_compute; reflexivity.
Defined.

Lemma maybe_download_and_extract_idempotent_example :
  maybe_download_and_extract (list string) example_exists example_stat
    example_perform default_flags []
  = Some (["./cifar10_data/cifar-10-batches-bin";
           "./cifar10_data/cifar-10-binary.tar.gz"; "./cifar10_data"],
          [Makedirs "./cifar10_data";
           Urlretrieve DATA_URL "./cifar10_data/cifar-10-binary.tar.gz";
           TarfileExtractall "./cifar10_data/cifar-10-binary.tar.gz"
             "./cifar10_data"]) /\
  maybe_download_and_extract (list string) example_exists example_stat
    example_perform default_flags
    ["./cifar10_data/cifar-10-batches-bin";
     "./cifar10_data/cifar-10-binary.tar.gz"; "./cifar10_data"]
  = Some (["./cifar10_data/cifar-10-batches-bin";
           "./cifar10_data/cifar-10-binary.tar.gz"; "./cifar10_data"], []).
Proof.
  assert (Hfirst :
    maybe_download_and_extract (list string) example_exists example_stat
      example_perform default_flags []
    = Some (["./cifar10_data/cifar-10-batches-bin";
             "./cifar10_data/cifar-10-binary.tar.gz"; "./cifar10_data"],
            [Makedirs "./cifar10_data";
             Urlretrieve DATA_URL "./cifar10_data/cifar-10-binary.tar.gz";
             TarfileExtractall "./cifar10_data/cifar-10-binary.tar.gz"
               "./cifar10_data"])) by (vm_compute; reflexivity).
  split; [exact Hfirst |].
  exact (proj2 (proj2 (proj2
    (maybe_download_and_extract_idempotent (list string) example_exists
       example_stat example_perform
       example_perform_keeps
       (fun p w w' => example_perform_creates (Makedirs p) w w')
       (fun url p w w' => example_perform_creates (Urlretrieve url p) w w')
       (fun d w w' =>
          example_perform_creates
            (TarfileExtractall (os_path_join d "cifar-10-binary.tar.gz") d)
            w w')
       default_flags _ _ _ Hfirst)))).
Defined.
